(** * Semantic-map SOM engine: a shallow embedding and its verification

    The development follows the C++ sources of the adaptive self-organizing
    map trainer: [topo.cpp] (lattice distances), [data.hpp]/[data.cpp]
    (sparse corpus matrix), [som.cpp] (neighbourhood, codebook, training
    loop) and [smap.cpp] (count tensor).

    Conventions of the embedding.
    - Unsigned integers that are used as subscripts ([CellIndexType],
      [IndexType], [IndexPointerType]) are [nat]; where the source computes
      in a fixed width the reduction is written out ([u16n], [u32n],
      [sub_u32]).  Counts ([CountType]) are [N].
    - Signed [int] coordinates and lattice distances are [Z]; the conversion
      to the 16-bit [CellIndexType] return type is [u16].
    - [Float] ([_Float32]) and [double] values are real numbers: arithmetic
      is exact, rounding is not modelled.  [std::exp], [std::sqrt] and
      [std::pow] are the real functions.
    - A raw array is a [list]; a read [a[i]] is the total lookup [a !!! i]
      and a write [a[i] = v] is [<[i:=v]> a].  A pointer into an array is
      the array together with an offset.
    - OpenMP loops are run sequentially in index order: every iteration
      writes only slots of its own.  The one exception is the pair
      [radius_min], [radius_max] of [Neighbourhood::update], which the
      iterations share; no statement below depends on their values.
    - An [assert] of the source is not part of the value of a function;
      where a call can violate one, the statement carries the asserted
      condition as a hypothesis. *)

From Stdlib Require Import ZArith Reals Lra Lia List Bool Arith.
From Stdlib Require Import Sorting.Mergesort Sorting.Sorted Orders Permutation.
From Stdlib Require String Ascii DecimalString.
From stdpp Require Import base list.
Import ListNotations.

#[global] Instance R_inhabited : Inhabited R := populate 0%R.

(** ** Fixed-width integers (data.hpp) *)

Definition u16 (z : Z) : Z := (z mod 65536)%Z.
Definition u16n (n : nat) : nat := Z.to_nat (Z.of_nat n mod 65536).
Definition u32n (n : nat) : nat := Z.to_nat (Z.of_nat n mod 4294967296).
Definition u8n (n : nat) : nat := n mod 256.

(** Unsigned 32-bit subtraction [a - b]. *)
Definition sub_u32 (a b : nat) : nat :=
  Z.to_nat ((Z.of_nat a - Z.of_nat b) mod 4294967296).

(** [int] arithmetic, with the two's-complement result on overflow. *)
Definition wrap_int (z : Z) : Z :=
  ((z + 2147483648) mod 4294967296 - 2147483648)%Z.

(** [std::numeric_limits<Float>::max()] = (2 - 2^-23) * 2^127. *)
Definition MAX_REAL_DISTANCE : R :=
  IZR 340282346638528859811704183484516925440.

(** [std::numeric_limits<CountType>::max()] = 2^32 - 1. *)
Definition MAX_COUNT : N := 4294967295%N.

(** [template<class T> T squared(T x)]: the product is converted back to
    [T], so each instance reduces in its own width. *)
Definition squared (x : R) : R := (x * x)%R.
Definition squared_int (x : Z) : Z := wrap_int (x * x).
Definition squared_u16 (x : Z) : Z := u16 (x * x).
Definition squared_u8 (x : nat) : nat := u8n (x * x).

(** A pointer [p = &base[off]]: [p[i]] reads [base[off + i]]. *)
Definition ptr_at {A} `{Inhabited A} (base : list A) (off i : nat) : A :=
  base !!! (off + i)%nat.

(** ** topo.cpp: lattice distances *)

Module Topo.

#[local] Open Scope Z_scope.

Inductive LocalTopology := RECT | HEXA | CIRC.
Inductive GlobalTopology := TORUS | MOEBIUS | TUBE | PLANE.

Definition DistanceFunction := Z -> Z -> Z -> Z -> Z -> Z -> Z.

(** [std::ceil(std::sqrt(n))] for an [int] n: the least k with n <= k*k. *)
Definition ceil_sqrt (n : Z) : Z := Z.sqrt_up n.

Definition dist_circle_plane (y x i j _height _width : Z) : Z :=
  u16 (ceil_sqrt (wrap_int (squared_int (Z.abs (i - y))
                            + squared_int (Z.abs (j - x))))).

Definition dist_circle_torus (y x i j height width : Z) : Z :=
  let dx := Z.abs (j - x) in
  let dy := Z.abs (i - y) in
  u16 (ceil_sqrt (wrap_int (squared_int (Z.min dx (width - dx))
                            + squared_int (Z.min dy (height - dy))))).

(** [(row - (row & 1)) / 2] in [int] arithmetic. *)
Definition half_row (row : Z) : Z := Z.quot (row - Z.land row 1) 2.

Definition dist_hexa_plane (row1 col1 row2 col2 _height _width : Z) : Z :=
  let a := u16 (Z.abs (row1 - row2)) in
  let b := u16 (Z.abs (col1 - col2 - half_row row1 + half_row row2)) in
  let c := u16 (Z.abs (col1 - col2 + row1 - row2
                       - half_row row1 + half_row row2)) in
  Z.max (Z.max a b) c.

Definition dist_hexa_torus (row1 col1 row2 col2 height width : Z) : Z :=
  let a := dist_hexa_plane row1 col1 row2 col2 0 0 in
  let b := dist_hexa_plane row1 col1 (row2 + height) col2 0 0 in
  let c := dist_hexa_plane row1 col1 row2 (col2 + width) 0 0 in
  let d := dist_hexa_plane row1 col1 (row2 + height) (col2 + width) 0 0 in
  let e := dist_hexa_plane (row1 + height) col1 row2 col2 0 0 in
  let f := dist_hexa_plane row1 (col1 + width) row2 col2 0 0 in
  let g := dist_hexa_plane (row1 + height) (col1 + width) row2 col2 0 0 in
  Z.min a (Z.min b (Z.min c (Z.min d (Z.min e (Z.min f g))))).

Definition dist_rect_plane (y x i j _height _width : Z) : Z :=
  u16 (Z.max (Z.abs (i - y)) (Z.abs (j - x))).

(** The source computes in [double]; the operands are integers, so the
    values are exact. *)
Definition dist_rect_torus (y x i j height width : Z) : Z :=
  let dx := Z.abs (j - x) in
  let dy := Z.abs (i - y) in
  let dx := Z.min dx (width - dx) in
  let dy := Z.min dy (height - dy) in
  u16 (Z.max dx dy).

(** [distance_function]: [None] is the [std::invalid_argument] throw. *)
Definition distance_function (global_topology : GlobalTopology)
    (local_topology : LocalTopology) : option DistanceFunction :=
  match global_topology with
  | PLANE =>
      match local_topology with
      | CIRC => Some dist_circle_plane
      | HEXA => Some dist_hexa_plane
      | RECT => Some dist_rect_plane
      end
  | TORUS =>
      match local_topology with
      | CIRC => Some dist_circle_torus
      | HEXA => Some dist_hexa_torus
      | RECT => Some dist_rect_torus
      end
  | _ => None
  end.

(** A cell index split into lattice coordinates, as every caller does:
    [y = cell / width], [x = cell % width]. *)
Definition cell_row (width cell : nat) : Z := Z.of_nat (cell / width).
Definition cell_col (width cell : nat) : Z := Z.of_nat (cell mod width).

(** The three metric laws over the points of an [H x W] lattice. *)
Definition on_lattice (H W : Z) (p : Z * Z) : Prop :=
  0 <= fst p < H /\ 0 <= snd p < W.

Definition is_metric_on (T : DistanceFunction) (H W : Z) : Prop :=
  forall p q r, on_lattice H W p -> on_lattice H W q -> on_lattice H W r ->
    0 <= T (fst p) (snd p) (fst q) (snd q) H W /\
    T (fst p) (snd p) (fst p) (snd p) H W = 0 /\
    T (fst p) (snd p) (fst q) (snd q) H W
      = T (fst q) (snd q) (fst p) (snd p) H W /\
    T (fst p) (snd p) (fst r) (snd r) H W
      <= T (fst p) (snd p) (fst q) (snd q) H W
         + T (fst q) (snd q) (fst r) (snd r) H W.

End Topo.

(** ** data.hpp / data.cpp: the sparse corpus matrix *)

Module Data.

Record BinarySparseMatrix := {
  indices : list nat;
  index_pointers : list nat;
  weights : list nat;
  num_rows : nat;
  num_cols : nat;
  num_non_zero : nat;
  _sum_of_squares : list nat;
  _has_weights : bool
}.

Definition has_weights (m : BinarySparseMatrix) : bool := _has_weights m.

(** [indices_in_row(row)] is the pointer [&indices[index_pointers[row]]]:
    [indices_in_row m row i] reads its i-th element. *)
Definition indices_in_row (m : BinarySparseMatrix) (row : nat) : nat -> nat :=
  ptr_at (indices m) (index_pointers m !!! row).

Definition weights_in_row (m : BinarySparseMatrix) (row : nat) : nat -> nat :=
  ptr_at (weights m) (index_pointers m !!! row).

Definition num_indices_in_row (m : BinarySparseMatrix) (row : nat) : nat :=
  sub_u32 (index_pointers m !!! (row + 1)) (index_pointers m !!! row).

(** The sparse indices of a row, as the loops over
    [i < num_indices_in_row(row)] visit them. *)
Definition row_indices (m : BinarySparseMatrix) (row : nat) : list nat :=
  map (indices_in_row m row) (seq 0 (num_indices_in_row m row)).

Definition set_sum_of_squares (m : BinarySparseMatrix) (s : list nat) :=
  {| indices := indices m; index_pointers := index_pointers m;
     weights := weights m; num_rows := num_rows m; num_cols := num_cols m;
     num_non_zero := num_non_zero m; _sum_of_squares := s;
     _has_weights := _has_weights m |}.

(** [init_sum_of_squares]: the weighted branch accumulates
    [squared(weights[i])] at [T = WeightType] into an [IndexType]. *)
Definition init_sum_of_squares (m : BinarySparseMatrix) : BinarySparseMatrix :=
  set_sum_of_squares m
    (map (fun row =>
            let n := num_indices_in_row m row in
            if has_weights m then
              fold_left (fun acc i => u32n (acc + squared_u8 (weights_in_row m row i)))
                        (seq 0 n) 0
            else n)
         (seq 0 (num_rows m))).

(** The invariants of a loaded corpus (spec, data model): offsets are
    cumulative and in range, every row is strictly ascending with entries
    below [num_cols]. *)
Definition row_ascending (m : BinarySparseMatrix) (row : nat) : Prop :=
  forall i j, i < j -> j < num_indices_in_row m row ->
    indices_in_row m row i < indices_in_row m row j.

Definition well_formed (m : BinarySparseMatrix) : Prop :=
  length (index_pointers m) = S (num_rows m) /\
  (forall row, row < num_rows m ->
     index_pointers m !!! row <= index_pointers m !!! (row + 1)
     /\ index_pointers m !!! (row + 1) <= length (indices m)) /\
  (Z.of_nat (length (indices m)) < 4294967296)%Z /\
  (forall row, row < num_rows m -> row_ascending m row) /\
  (forall row i, row < num_rows m -> i < num_indices_in_row m row ->
     indices_in_row m row i < num_cols m).

End Data.

(** Conversion of an unsigned integer to [Float]. *)
Definition R_of_nat (n : nat) : R := IZR (Z.of_nat n).

(** [std::pow(x, y)] for a base [x >= 0] and an exponent [y > 0]. *)
Definition std_pow (x y : R) : R :=
  if Req_dec_T x 0 then 0%R else Rpower x y.

(** ** som.hpp / som.cpp: topographic discontinuities and neighbourhood *)

Module TopographicDiscontinuity.

Record t := mk { cell1 : nat; cell2 : nat; distance : Z }.

End TopographicDiscontinuity.

Module Neighbourhood.

Import Topo.

(** [#define SQRT_E 1.6487212707001281468486507878142] *)
Definition SQRT_E : R :=
  (IZR 16487212707001281468486507878142
   / IZR 10000000000000000000000000000000)%R.

Record t := {
  height : nat;
  width : nat;
  num_cells : nat;
  distance : DistanceFunction;
  update_exponent : R;
  initial_radius : nat;
  radius_min : R;
  radius_max : R;
  values : list R
}.

(** The constructor; [None] when [distance_function] throws. *)
Definition construct (height width : nat) (global_topology : GlobalTopology)
    (local_topology : LocalTopology) (update_exponent : R)
    (initial_radius : nat) : option t :=
  match distance_function global_topology local_topology with
  | None => None
  | Some d =>
      let num_cells := u16n (height * width) in
      Some {| height := height; width := width; num_cells := num_cells;
              distance := d; update_exponent := update_exponent;
              initial_radius := initial_radius;
              radius_min := R_of_nat initial_radius;
              radius_max := R_of_nat initial_radius;
              values := replicate num_cells (R_of_nat initial_radius) |}
  end.

(** The lattice distance [influence] computes: note the order of the last
    two arguments at this call site, [(this->width, this->height)]. *)
Definition influence_distance (nb : t) (source_cell target_cell : nat) : Z :=
  let y1 := cell_row (width nb) source_cell in
  let x1 := cell_col (width nb) source_cell in
  let y2 := cell_row (width nb) target_cell in
  let x2 := cell_col (width nb) target_cell in
  distance nb y1 x1 y2 x2 (Z.of_nat (width nb)) (Z.of_nat (height nb)).

Definition influence (nb : t) (source_cell target_cell : nat) : R :=
  let d := influence_distance nb source_cell target_cell in
  let r := values nb !!! target_cell in
  if Rlt_dec (IZR d) r
  then ((1 - SQRT_E * exp (-0.5 * IZR (squared_u16 d) / squared r))
        / (r * (1 - SQRT_E)))%R
  else 0%R.

Definition radius_from_discontinuity (nb : t) (cell_index : nat)
    (discontinuity : TopographicDiscontinuity.t) : Z :=
  let y := cell_row (width nb) cell_index in
  let x := cell_col (width nb) cell_index in
  let y1 := cell_row (width nb) (TopographicDiscontinuity.cell1 discontinuity) in
  let x1 := cell_col (width nb) (TopographicDiscontinuity.cell1 discontinuity) in
  let y2 := cell_row (width nb) (TopographicDiscontinuity.cell2 discontinuity) in
  let x2 := cell_col (width nb) (TopographicDiscontinuity.cell2 discontinuity) in
  let D := TopographicDiscontinuity.distance discontinuity in
  let d1 := distance nb y x y1 x1 (Z.of_nat (height nb)) (Z.of_nat (width nb)) in
  let d2 := distance nb y x y2 x2 (Z.of_nat (height nb)) (Z.of_nat (width nb)) in
  if (Z.max d1 d2 <=? D)%Z then D
  else if (Z.min d1 d2 <? D)%Z then u16 (D - Z.min d1 d2)
  else 1%Z.

(** The lattice distance between two cells, with the map height and width
    in the order of the distance functions: [(this->height, this->width)]. *)
Definition lattice_distance (nb : t) (cell1 cell2 : nat) : Z :=
  distance nb (cell_row (width nb) cell1) (cell_col (width nb) cell1)
              (cell_row (width nb) cell2) (cell_col (width nb) cell2)
              (Z.of_nat (height nb)) (Z.of_nat (width nb)).

Definition topographic_discontinuities (nb : t)
    (best_matching_units next_best_matching_units : list nat)
    (num_rows : nat) : list TopographicDiscontinuity.t :=
  fold_left
    (fun discontinuities row =>
       let cell1 := best_matching_units !!! row in
       let cell2 := next_best_matching_units !!! row in
       let distance := lattice_distance nb cell1 cell2 in
       if (1 <? distance)%Z
       then discontinuities ++ [TopographicDiscontinuity.mk cell1 cell2 distance]
       else discontinuities)
    (seq 0 num_rows) [].

Definition set_radii (nb : t) (rmin rmax : R) (vals : list R) : t :=
  {| height := height nb; width := width nb; num_cells := num_cells nb;
     distance := distance nb; update_exponent := update_exponent nb;
     initial_radius := initial_radius nb;
     radius_min := rmin; radius_max := rmax; values := vals |}.

(** The lower bound of one cell: the running maximum over the
    discontinuities, starting from 1. *)
Definition radius_lower_bound (nb : t)
    (discontinuities : list TopographicDiscontinuity.t) (cell_index : nat) : R :=
  fold_left
    (fun lb discontinuity =>
       Rmax lb (IZR (radius_from_discontinuity nb cell_index discontinuity)))
    discontinuities 1%R.

(** One iteration of the loop over the cells in [update]. *)
Definition update_cell (respect_lower_bound : bool)
    (discontinuities : list TopographicDiscontinuity.t)
    (nb : t) (cell_index : nat) : t :=
  let lb := radius_lower_bound nb discontinuities cell_index in
  let v :=
    if respect_lower_bound
    then Rmax lb (std_pow (values nb !!! cell_index) (update_exponent nb))
    else std_pow (values nb !!! cell_index) (update_exponent nb) in
  set_radii nb (Rmin (radius_min nb) v) (Rmax (radius_max nb) v)
            (<[cell_index := v]> (values nb)).

(** [update] returns the topographic error; the updated object is the
    first component. *)
Definition update (nb : t)
    (best_matching_units next_best_matching_units : list nat)
    (num_rows : nat) (respect_lower_bound : bool) : t * R :=
  let discontinuities :=
    topographic_discontinuities nb best_matching_units
                                next_best_matching_units num_rows in
  let nb0 := set_radii nb MAX_REAL_DISTANCE 0%R (values nb) in
  (fold_left (update_cell respect_lower_bound discontinuities)
             (seq 0 (num_cells nb)) nb0,
   (R_of_nat (length discontinuities + 1) / R_of_nat num_rows)%R).

End Neighbourhood.

(** ** som.cpp: codebook *)

(** [std::greater<Float>] as the order of [std::partial_sort_copy]. *)
Module RGreater <: TotalLeBool.
Definition t := R.
Definition leb (x y : R) : bool := if Rle_dec y x then true else false.
Definition leb_total : forall x y, leb x y = true \/ leb y x = true.
Proof.
  intros x y. unfold leb.
  destruct (Rle_dec y x) as [|Hn]; [now left|].
  destruct (Rle_dec x y) as [|Hm]; [now right|]. lra.
Qed.
End RGreater.

Module RSort := Sort RGreater.

Module Codebook.

Import Topo Data.

Record t := {
  width : nat;
  height : nat;
  input_dim : nat;
  num_cells : nat;
  size : nat;
  global_topology : GlobalTopology;
  local_topology : LocalTopology;
  distance : DistanceFunction;
  array : list R
}.

(** The constructor only reserves the array; [init] resizes and fills. *)
Definition construct (height width input_dim : nat)
    (global_topology : GlobalTopology) (local_topology : LocalTopology)
    : option t :=
  match distance_function global_topology local_topology with
  | None => None
  | Some d =>
      let num_cells := u16n (height * width) in
      Some {| width := width; height := height; input_dim := input_dim;
              num_cells := num_cells; size := u32n (num_cells * input_dim);
              global_topology := global_topology;
              local_topology := local_topology;
              distance := d; array := [] |}
  end.

Definition set_array (cb : t) (a : list R) : t :=
  {| width := width cb; height := height cb; input_dim := input_dim cb;
     num_cells := num_cells cb; size := size cb;
     global_topology := global_topology cb;
     local_topology := local_topology cb;
     distance := distance cb; array := a |}.

(** [init]: slot [i] receives the draw [uniform i] of a
    [std::uniform_real_distribution<Float>(0, 1)]. *)
Definition init (uniform : nat -> R) (cb : t) : t :=
  set_array cb (map uniform (seq 0 (size cb))).

(** [get_value]: [None] is the [std::length_error] throw. *)
Definition get_value (cb : t) (index : nat) : option R :=
  if index <? size cb then Some (array cb !!! index) else None.

(** utils.hpp *)
Definition vec_squared (vec : nat -> R) (size : nat) : R :=
  fold_left (fun result i => (result + squared (vec i))%R) (seq 0 size) 0%R.

(** The loop of [product_with_weights]; [remaining] counts the iterations
    left, [it] is the loop variable. *)
Fixpoint product_with_weights_loop (indices : nat -> nat) (values : nat -> R)
    (weights : nat -> nat) (effective_input_dim : nat)
    (remaining it : nat) (result : R) : R :=
  match remaining with
  | O => result
  | S k =>
      let idx := indices it in
      if idx <? effective_input_dim
      then product_with_weights_loop indices values weights
             effective_input_dim k (S it)
             (result + values idx * R_of_nat (weights idx))%R
      else result
  end.

Definition product_with_weights (indices : nat -> nat) (num_non_zero : nat)
    (values : nat -> R) (weights : nat -> nat) (effective_input_dim : nat) : R :=
  product_with_weights_loop indices values weights effective_input_dim
                            num_non_zero 0 0%R.

Fixpoint product_loop (indices : nat -> nat) (values : nat -> R)
    (effective_input_dim : nat) (remaining it : nat) (result : R) : R :=
  match remaining with
  | O => result
  | S k =>
      let idx := indices it in
      if effective_input_dim <=? idx then result
      else product_loop indices values effective_input_dim k (S it)
                        (result + values idx)%R
  end.

Definition product (indices : nat -> nat) (num_non_zero : nat)
    (values : nat -> R) (effective_input_dim : nat) : R :=
  product_loop indices values effective_input_dim num_non_zero 0 0%R.

(** *** find_best_matching_units *)

Definition bmu_row_step (cb : t) (data : BinarySparseMatrix)
    (effective_input_dim : nat) (cell_index : nat)
    (w : nat -> R) (w_squared : R)
    (st : list nat * list R) (row : nat) : list nat * list R :=
  let x := indices_in_row data row in
  let weights := weights_in_row data row in
  let num_non_zero_in_row := num_indices_in_row data row in
  if num_non_zero_in_row =? 0 then st
  else if effective_input_dim <=? x 0 then st
  else
    let distance :=
      if has_weights data
      then (w_squared - 2 * product_with_weights x num_non_zero_in_row w
                                                 weights effective_input_dim)%R
      else (w_squared - 2 * product x num_non_zero_in_row w
                                    effective_input_dim)%R in
    if Rlt_dec distance (snd st !!! row)
    then (<[row := cell_index]> (fst st), <[row := distance]> (snd st))
    else st.

Definition find_best_matching_units (cb : t) (data : BinarySparseMatrix)
    (train_vocab_cutoff : nat) (need_correct_distances : bool)
    : list nat * list R :=
  let effective_input_dim :=
    if 0 <? train_vocab_cutoff then train_vocab_cutoff else num_cols data in
  let st :=
    fold_left
      (fun st cell_index =>
         let w := ptr_at (array cb) (cell_index * input_dim cb) in
         let w_squared := vec_squared w (input_dim cb) in
         fold_left (bmu_row_step cb data effective_input_dim cell_index
                                 w w_squared)
                   (seq 0 (num_rows data)) st)
      (seq 0 (num_cells cb))
      (replicate (num_rows data) 0, replicate (num_rows data) MAX_REAL_DISTANCE) in
  if need_correct_distances
  then (fst st,
        fold_left
          (fun distances row =>
             <[row := Rmax 0 (distances !!! row
                              + R_of_nat (_sum_of_squares data !!! row))]>
               distances)
          (seq 0 (u32n (num_rows data))) (snd st))
  else st.

(** *** find_best_and_next_best_matching_units *)

Record BmuState := {
  best_matching_units : list nat;
  distances : list R;
  next_best_matching_units : list nat;
  next_distances : list R
}.

(** The surrogate distance of one (cell, row) pair as the dual search
    computes it, the row having passed the two [continue] guards. *)
Definition dual_distance (data : BinarySparseMatrix)
    (effective_input_dim : nat) (w : nat -> R) (w_squared : R) (row : nat) : R :=
  let indices := indices_in_row data row in
  let weights := weights_in_row data row in
  let num_non_zero_in_row := num_indices_in_row data row in
  if has_weights data
  then (w_squared
        - 2 * product_with_weights indices num_non_zero_in_row w weights
                                   effective_input_dim
        + R_of_nat (_sum_of_squares data !!! row))%R
  else (w_squared
        - 2 * product indices num_non_zero_in_row w effective_input_dim
        + R_of_nat (_sum_of_squares data !!! row))%R.

Definition dual_row_step (data : BinarySparseMatrix)
    (effective_input_dim : nat) (cell_index : nat)
    (w : nat -> R) (w_squared : R) (st : BmuState) (row : nat) : BmuState :=
  let indices := indices_in_row data row in
  let num_non_zero_in_row := num_indices_in_row data row in
  if num_non_zero_in_row =? 0 then st
  else if effective_input_dim <=? indices 0 then st
  else
    let distance := dual_distance data effective_input_dim w w_squared row in
    if Rlt_dec distance (distances st !!! row)
    then {| next_best_matching_units :=
              <[row := best_matching_units st !!! row]>
                (next_best_matching_units st);
            next_distances :=
              <[row := distances st !!! row]> (next_distances st);
            best_matching_units :=
              <[row := cell_index]> (best_matching_units st);
            distances := <[row := Rmax 0 distance]> (distances st) |}
    else st.

(** The prototype pointer and squared norm the dual search takes for a
    cell: [w = &array[cell_index * effective_input_dim]]. *)
Definition dual_w (cb : t) (effective_input_dim cell_index : nat) : nat -> R :=
  ptr_at (array cb) (u32n (cell_index * effective_input_dim)).

Definition dual_cell_step (cb : t) (data : BinarySparseMatrix)
    (effective_input_dim : nat) (st : BmuState) (cell_index : nat) : BmuState :=
  let w := dual_w cb effective_input_dim cell_index in
  let w_squared := vec_squared w effective_input_dim in
  fold_left (dual_row_step data effective_input_dim cell_index w w_squared)
            (seq 0 (num_rows data)) st.

Definition find_best_and_next_best_matching_units (cb : t)
    (data : BinarySparseMatrix) (train_vocab_cutoff : nat) : BmuState :=
  let effective_input_dim :=
    if 0 <? train_vocab_cutoff then train_vocab_cutoff else input_dim cb in
  fold_left (dual_cell_step cb data effective_input_dim)
            (seq 0 (num_cells cb))
            {| best_matching_units := replicate (num_rows data) 0;
               next_best_matching_units := replicate (num_rows data) 0;
               distances := replicate (num_rows data) MAX_REAL_DISTANCE;
               next_distances := replicate (num_rows data) MAX_REAL_DISTANCE |}.

(** *** apply_batch_som_update *)

(** The inner loop over the sparse indices of one row:
    [numerator[indices[i]] += learning_rate], leaving at the first index
    that is not below the effective input dimension. *)
Fixpoint numerator_loop (indices : nat -> nat) (effective_input_dim : nat)
    (learning_rate : R) (remaining i : nat) (numerator : list R) : list R :=
  match remaining with
  | O => numerator
  | S k =>
      if effective_input_dim <=? indices i then numerator
      else numerator_loop indices effective_input_dim learning_rate k (S i)
             (<[indices i := (numerator !!! indices i + learning_rate)%R]>
                numerator)
  end.

(** One iteration of the loop over the rows, for the target cell
    [cell_index]; the state is [(denominator, numerator)]. *)
Definition batch_row_step (data : BinarySparseMatrix)
    (neighbourhood : Neighbourhood.t) (best_matching_units : list nat)
    (effective_input_dim cell_index : nat)
    (st : R * list R) (row : nat) : R * list R :=
  let indices := indices_in_row data row in
  let num_non_zero_in_row := num_indices_in_row data row in
  let learning_rate :=
    Neighbourhood.influence neighbourhood (best_matching_units !!! row)
                            cell_index in
  if Rle_dec learning_rate 0 then st
  else ((fst st + learning_rate)%R,
        numerator_loop indices effective_input_dim learning_rate
                       num_non_zero_in_row 0 (snd st)).

Definition batch_sums (cb : t) (data : BinarySparseMatrix)
    (neighbourhood : Neighbourhood.t) (best_matching_units : list nat)
    (effective_input_dim cell_index : nat) : R * list R :=
  fold_left (batch_row_step data neighbourhood best_matching_units
                            effective_input_dim cell_index)
            (seq 0 (num_rows data))
            (0%R, replicate (input_dim cb) 0%R).

(** The write-back [w[i] = numerator[i] / denominator] with
    [w = &array[cell_index * input_dim]]. *)
Definition write_cell (cb : t) (cell_index : nat) (denominator : R)
    (numerator : list R) (a : list R) : list R :=
  fold_left
    (fun a i =>
       <[(u32n (cell_index * input_dim cb) + i)%nat
         := (numerator !!! i / denominator)%R]> a)
    (seq 0 (input_dim cb)) a.

Definition batch_cell_step (data : BinarySparseMatrix)
    (neighbourhood : Neighbourhood.t) (best_matching_units : list nat)
    (effective_input_dim : nat) (cb : t) (cell_index : nat) : t :=
  let sums := batch_sums cb data neighbourhood best_matching_units
                         effective_input_dim cell_index in
  if Req_dec_T (fst sums) 0 then cb
  else set_array cb (write_cell cb cell_index (fst sums) (snd sums) (array cb)).

Definition apply_batch_som_update (cb : t) (data : BinarySparseMatrix)
    (neighbourhood : Neighbourhood.t) (best_matching_units : list nat)
    (train_vocab_cutoff : nat) : t :=
  let effective_input_dim :=
    if 0 <? train_vocab_cutoff then train_vocab_cutoff else input_dim cb in
  fold_left (batch_cell_step data neighbourhood best_matching_units
                             effective_input_dim)
            (seq 0 (num_cells cb)) cb.

(** *** Quality metrics *)

Definition quantization_error (distances : list R) (num_rows : nat) : R :=
  (sqrt (fold_left (fun error row => (error + squared (distances !!! row))%R)
                   (seq 0 num_rows) 0%R)
   / R_of_nat num_rows)%R.

(** The marking loop shared by [gap_error] and [assign_dead_cells]: the
    state is [(cell_in_use, num_cells_used)]; the loop condition
    [num_cells_used < num_cells] guards every iteration. *)
Definition mark_row (num_cells : nat) (best_matching_units : list nat)
    (st : list bool * nat) (row : nat) : list bool * nat :=
  if snd st <? num_cells then
    if (fst st !!! (best_matching_units !!! row) : bool) then st
    else (<[best_matching_units !!! row := true]> (fst st), S (snd st))
  else st.

Definition mark_cells_in_use (num_cells : nat) (best_matching_units : list nat)
    (num_rows : nat) : list bool * nat :=
  fold_left (mark_row num_cells best_matching_units) (seq 0 num_rows)
            (replicate num_cells false, 0).

Definition gap_error (cb : t) (best_matching_units : list nat)
    (num_rows : nat) : R :=
  let st := mark_cells_in_use (num_cells cb) best_matching_units num_rows in
  (R_of_nat (num_cells cb - snd st) / R_of_nat (num_cells cb))%R.

(** *** assign_dead_cells *)

(** [std::partial_sort_copy] of the first [num_rows] distances into a
    buffer of [k] slots under [std::greater]: the [k] largest, descending. *)
Definition largest_distances (distances : list R) (num_rows k : nat) : list R :=
  take k (RSort.sort (take num_rows distances)).

(** The loop collecting [worst_matching_inputs]; the fill index [i] is the
    length of the list collected so far. *)
Definition collect_worst (distances : list R) (distance_threshold : R)
    (num_cells_unused : nat) (worst : list nat) (row : nat) : list nat :=
  if length worst <? num_cells_unused then
    if Rle_dec distance_threshold (distances !!! row)
    then worst ++ [row] else worst
  else worst.

(** The loop handing each unused cell to the next worst-matching row;
    the state is [(i, best_matching_units)]. *)
Definition assign_cell (cell_in_use : list bool) (worst : list nat)
    (num_cells_unused : nat) (st : nat * list nat) (cell : nat)
    : nat * list nat :=
  if fst st <? num_cells_unused then
    if (cell_in_use !!! cell : bool) then st
    else (S (fst st), <[worst !!! fst st := cell]> (snd st))
  else st.

(** [assign_dead_cells] receives the two arrays by pointer: the result
    carries both arrays as they are on return, and the returned gap
    error.  The codebook itself is [const]. *)
Definition assign_dead_cells (cb : t) (best_matching_units : list nat)
    (distances : list R) (num_rows : nat) : list nat * list R * R :=
  let st := mark_cells_in_use (num_cells cb) best_matching_units num_rows in
  let cell_in_use := fst st in
  let num_cells_unused := num_cells cb - snd st in
  if (num_cells_unused =? 0) || (num_rows <? num_cells_unused)
  then (best_matching_units, distances, 0%R)
  else
    let distance_threshold :=
      largest_distances distances num_rows num_cells_unused
        !!! (num_cells_unused - 1) in
    let worst_matching_inputs :=
      fold_left (collect_worst distances distance_threshold num_cells_unused)
                (seq 0 num_rows) [] in
    let assigned :=
      fold_left (assign_cell cell_in_use worst_matching_inputs num_cells_unused)
                (seq 0 (num_cells cb)) (0, best_matching_units) in
    (snd assigned, distances,
     (R_of_nat num_cells_unused / R_of_nat (num_cells cb))%R).

(** [diffusion_error]: the accumulator is an [IndexPointerType]. *)
Definition diffusion_error (cb : t)
    (best_matching_units previous_best_matching_units : list nat)
    (num_rows : nat) : R :=
  let total_distance :=
    fold_left
      (fun total row =>
         let source_cell := previous_best_matching_units !!! row in
         let target_cell := best_matching_units !!! row in
         if source_cell =? target_cell then total
         else
           u32n (total + Z.to_nat
                   (distance cb (cell_row (width cb) source_cell)
                                (cell_col (width cb) source_cell)
                                (cell_row (width cb) target_cell)
                                (cell_col (width cb) target_cell)
                                (Z.of_nat (width cb)) (Z.of_nat (height cb)))))
      (seq 0 num_rows) 0 in
  (R_of_nat total_distance / R_of_nat num_rows)%R.

End Codebook.

(** ** som.cpp: the training loop *)

Module Train.

Import Data.

(** One line of the convergence log (the time stamp is left out). *)
Record LogEntry := {
  log_epoch : nat;
  log_radius_min : R;
  log_radius_max : R;
  log_quantization_error : R;
  log_topographic_error : R;
  log_gap_error : R;
  log_diffusion_error : R
}.

Record State := {
  codebook : Codebook.t;
  neighbourhood : Neighbourhood.t;
  best_matching_units : list nat;
  previous_best_matching_units : list nat;
  distances : list R;
  next_best_matching_units : list nat;
  next_distances : list R;
  diffusion_error : R;
  gap_error : R;
  convergence_log : list LogEntry
}.

(** The dead-cell branch of an epoch: the arrays and the gap error after
    it. *)
Definition dead_cell_step (cb : Codebook.t) (num_rows : nat)
    (dead_cell_update_strides epoch : nat)
    (bmus : list nat) (dists : list R) : list nat * list R * R :=
  if (0 <? dead_cell_update_strides)
     && (epoch mod dead_cell_update_strides =? 0)
  then Codebook.assign_dead_cells cb bmus dists num_rows
  else (bmus, dists, Codebook.gap_error cb bmus num_rows).

(** The body of the loop over the epochs.  Writing the preliminary
    neighbourhood file is left out. *)
Definition train_epoch (data : BinarySparseMatrix) (num_epochs : nat)
    (respect_lower_bound : bool) (train_vocab_cutoff : nat)
    (dead_cell_update_strides : nat) (st : State) (epoch : nat) : State :=
  let found :=
    Codebook.find_best_and_next_best_matching_units
      (codebook st) data train_vocab_cutoff in
  let dead :=
    dead_cell_step (codebook st) (num_rows data) dead_cell_update_strides epoch
      (Codebook.best_matching_units found) (Codebook.distances found) in
  let bmus := fst (fst dead) in
  let dists := snd (fst dead) in
  let gap := snd dead in
  let diffusion :=
    if 1 <? epoch
    then Codebook.diffusion_error (codebook st) bmus
           (previous_best_matching_units st) (num_rows data)
    else diffusion_error st in
  let previous := take (num_rows data) bmus
                  ++ drop (num_rows data) (previous_best_matching_units st) in
  let cb' :=
    if epoch <? num_epochs
    then Codebook.apply_batch_som_update (codebook st) data (neighbourhood st)
           bmus train_vocab_cutoff
    else Codebook.apply_batch_som_update (codebook st) data (neighbourhood st)
           bmus 0 in
  let upd :=
    Neighbourhood.update (neighbourhood st) bmus
      (Codebook.next_best_matching_units found) (num_rows data)
      respect_lower_bound in
  {| codebook := cb';
     neighbourhood := fst upd;
     best_matching_units := bmus;
     previous_best_matching_units := previous;
     distances := dists;
     next_best_matching_units := Codebook.next_best_matching_units found;
     next_distances := Codebook.next_distances found;
     diffusion_error := diffusion;
     gap_error := gap;
     convergence_log :=
       convergence_log st ++
       [{| log_epoch := epoch - 1;
           log_radius_min := Neighbourhood.radius_min (fst upd);
           log_radius_max := Neighbourhood.radius_max (fst upd);
           log_quantization_error :=
             Codebook.quantization_error dists (num_rows data);
           log_topographic_error := snd upd;
           log_gap_error := gap;
           log_diffusion_error := diffusion |}] |}.



End Train.

(** ** smap.cpp: the count tensor *)

Module SemanticMap.

Import Data.

(** [counts = None] is the null pointer. *)
Record t := {
  counts : option (list N);
  best_matching_units : list nat;
  vocabulary_size : nat;
  dataset_size : nat;
  height : nat;
  width : nat;
  num_cells : nat
}.

Definition set_counts (m : t) (c : option (list N)) : t :=
  {| counts := c; best_matching_units := best_matching_units m;
     vocabulary_size := vocabulary_size m; dataset_size := dataset_size m;
     height := height m; width := width m; num_cells := num_cells m |}.

Definition delete_counts (m : t) : t := set_counts m None.

(** The subscript [this->num_cells * vocab_index + best_matching_unit],
    computed in 32 bits. *)
Definition count_index (num_cells vocab_index best_matching_unit : nat) : nat :=
  u32n (num_cells * vocab_index + best_matching_unit).

(** The loop over the sparse indices of one row; [None] is the early
    [return] after [delete_counts]. *)
Fixpoint count_row (indices : nat -> nat) (num_cells best_matching_unit : nat)
    (remaining i : nat) (counts : list N) : option (list N) :=
  match remaining with
  | O => Some counts
  | S k =>
      let vocab_index := indices i in
      let p := count_index num_cells vocab_index best_matching_unit in
      if (MAX_COUNT - 1 <=? counts !!! p)%N then None
      else count_row indices num_cells best_matching_unit k (S i)
                     (<[p := (counts !!! p + 1)%N]> counts)
  end.

Definition count_rows_step (data : BinarySparseMatrix) (m : t)
    (acc : option (list N)) (row : nat) : option (list N) :=
  match acc with
  | None => None
  | Some counts =>
      count_row (indices_in_row data row) (num_cells m)
                (best_matching_units m !!! row)
                (num_indices_in_row data row) 0 counts
  end.

Definition build_counts (data : BinarySparseMatrix) (m : t) : t :=
  let n := u32n (num_cells m * vocabulary_size m) in
  let counts0 :=
    match counts m with
    | None => replicate n 0%N
    | Some c => replicate n 0%N ++ drop n c
    end in
  set_counts m
    (fold_left (count_rows_step data m) (seq 0 (num_rows data)) (Some counts0)).

(** [build] from given best-matching units. *)
Definition build (data : BinarySparseMatrix) (m : t)
    (best_matching_units : list nat) (_height _width : nat) : t :=
  build_counts data
    {| counts := counts m; best_matching_units := best_matching_units;
       vocabulary_size := num_cols data; dataset_size := num_rows data;
       height := _height; width := _width;
       num_cells := u16n (_height * _width) |}.

(** [build] from a codebook: the best-matching units come from the single
    search, without distance correction. *)
Definition build_from_codebook (data : BinarySparseMatrix) (m : t)
    (codebook : Codebook.t) (train_vocab_cutoff : nat) : t :=
  let effective_input_dim :=
    if 0 <? train_vocab_cutoff then train_vocab_cutoff else num_cols data in
  build_counts data
    {| counts := counts m;
       best_matching_units :=
         fst (Codebook.find_best_matching_units codebook data
                effective_input_dim false);
       vocabulary_size := num_cols data; dataset_size := num_rows data;
       height := Codebook.height codebook; width := Codebook.width codebook;
       num_cells := Codebook.num_cells codebook |}.

End SemanticMap.

(** ** data.cpp: the longest run of leading zeros *)

Module Corpus.

Import Data.

(** [min_word_index_to_avoid_empty_row]: the largest first sparse index
    [x[0]] over the rows. *)
Definition min_word_index_to_avoid_empty_row (m : BinarySparseMatrix) : nat :=
  fold_left
    (fun max_first_word_index row =>
       let x := indices_in_row m row in
       if max_first_word_index <? x 0 then x 0 else max_first_word_index)
    (seq 0 (num_rows m)) 0.

End Corpus.

(** ** main.cpp: the warning about empty snippets in
    [create_semantic_map] *)

Module Driver.


End Driver.

(** ** smap.cpp: queries on the count tensor *)

Module SemanticMapQueries.

Import Data SemanticMap.

(** [CountType] addition. *)
Definition u32N (n : N) : N := (n mod 4294967296)%N.

(** [get_counts(row, col)]: the counts of one cell summed over the
    vocabulary; [None] when there is no count tensor to read. *)
Definition get_counts (m : t) (row col : nat) : option N :=
  match counts m with
  | None => None
  | Some counts =>
      let cell_index := u16n (row * width m + col) in
      Some (fold_left
              (fun count vocab_index =>
                 u32N (count
                       + counts !!! u32n (num_cells m * vocab_index
                                          + cell_index)))
              (seq 0 (vocabulary_size m)) 0%N)
  end.

(** [find_snippets]: the rows whose best-matching unit is the cell at
    [(map_row, map_col)]. *)
Definition find_snippets (data : BinarySparseMatrix) (m : t)
    (map_row map_col : nat) : list nat :=
  fold_left
    (fun associated_snippets snippet_index =>
       let i := best_matching_units m !!! snippet_index / width m in
       let j := best_matching_units m !!! snippet_index mod width m in
       if (i =? map_row) && (j =? map_col)
       then associated_snippets ++ [snippet_index]
       else associated_snippets)
    (seq 0 (num_rows data)) [].

End SemanticMapQueries.

(** ** smap.cpp / data.hpp: the best-matching-unit file

    A file is the list of its bytes.  Integers are stored as the host
    holds them; [main] refuses to run on a big-endian host, so the least
    significant byte comes first. *)

Module BmuFile.

Import SemanticMap.

#[local] Open Scope Z_scope.

Definition le_bytes (n : nat) (value : Z) : list Z :=
  map (fun i => (value / 256 ^ Z.of_nat i) mod 256) (seq 0 n).

Fixpoint le_value (bytes : list Z) : Z :=
  match bytes with
  | [] => 0
  | b :: rest => b + 256 * le_value rest
  end.

Definition write_uint8 (value : Z) : list Z := le_bytes 1 (value mod 256).

Definition write_uint64 (value : Z) : list Z :=
  le_bytes 8 (value mod 18446744073709551616).

(** The bytes [save_best_matching_units_to_file] writes once the file is
    open. *)
Definition save_best_matching_units_to_file (m : t) : list Z :=
  write_uint8 0
  ++ write_uint64 (Z.of_nat (height m))
  ++ write_uint64 (Z.of_nat (width m))
  ++ write_uint64 (Z.of_nat (vocabulary_size m))
  ++ write_uint64 (Z.of_nat (dataset_size m))
  ++ flat_map (fun row => le_bytes 2 (Z.of_nat (best_matching_units m !!! row)))
              (seq 0 (dataset_size m)).

(** [file.read(buffer, n)]: the next [n] bytes and the rest of the
    stream, or [None] when the stream ends before. *)
Definition read (n : nat) (file : list Z) : option (list Z * list Z) :=
  if (n <=? length file)%nat then Some (take n file, drop n file) else None.

(** The payload as [CellIndexType] values. *)
Fixpoint decode_cells (n : nat) (payload : list Z) : list nat :=
  match n with
  | O => []
  | S k => Z.to_nat (le_value (take 2 payload))
           :: decode_cells k (drop 2 payload)
  end.

(** The outcomes of loading: the object as loaded, the
    [std::runtime_error] for an unknown format, and a stream that ends
    early.  The source does not test the stream after a read, so in the
    last case it goes on with whatever the buffer held. *)
Inductive LoadResult :=
| Loaded (m : t)
| UnknownFormat
| ShortFile.

Definition load_best_matching_units_from_file (m : t) (file : list Z)
    : LoadResult :=
  match read 1 file with
  | None => ShortFile
  | Some (_big, file) =>
  match read 1 file with
  | None => ShortFile
  | Some (_format, file) =>
  if negb (le_value _format =? 0) then UnknownFormat else
  match read 8 file with
  | None => ShortFile
  | Some (_height, file) =>
  match read 8 file with
  | None => ShortFile
  | Some (_width, file) =>
  match read 8 file with
  | None => ShortFile
  | Some (_vocabulary_size, file) =>
  match read 8 file with
  | None => ShortFile
  | Some (_dataset_size, file) =>
      let height := Z.to_nat (u16 (le_value _height)) in
      let width := Z.to_nat (u16 (le_value _width)) in
      let vocabulary_size :=
        Z.to_nat (le_value _vocabulary_size mod 4294967296) in
      let dataset_size :=
        Z.to_nat (le_value _dataset_size mod 4294967296) in
      match read (dataset_size * 2) file with
      | None => ShortFile
      | Some (payload, _) =>
          Loaded {| counts := counts m;
                    best_matching_units := decode_cells dataset_size payload;
                    vocabulary_size := vocabulary_size;
                    dataset_size := dataset_size;
                    height := height; width := width;
                    num_cells := u16n (height * width) |}
      end
  end end end end end end.

End BmuFile.

(** ** utils.cpp: the stop watch *)

Module StopWatch.

Import String.StringSyntax.

#[local] Open Scope Z_scope.

(** Times are Unix times in seconds ([int64_t]). *)
Record t := { start_time : Z; end_time : Z; running : bool }.

Definition construct : t :=
  {| start_time := 0; end_time := 0; running := false |}.

Definition start (unix_time : Z) (w : t) : t :=
  {| start_time := unix_time; end_time := end_time w; running := true |}.

Definition stop (unix_time : Z) (w : t) : t :=
  {| start_time := start_time w; end_time := unix_time; running := false |}.

(** [int64_t] arithmetic, with the two's-complement result on overflow. *)
Definition wrap_int64 (z : Z) : Z :=
  (z + 9223372036854775808) mod 18446744073709551616 - 9223372036854775808.

Record Duration := { days : Z; hours : Z; minutes : Z; seconds : Z }.

(** The four [int] values [duration_string] prints. *)
Definition duration (w : t) : Duration :=
  let total_seconds := wrap_int64 (end_time w - start_time w) in
  let days := wrap_int (Z.quot total_seconds (60 * 60 * 24)) in
  let hours :=
    wrap_int (wrap_int64 (Z.quot total_seconds (60 * 60)
                          - wrap_int (24 * days))) in
  let minutes :=
    wrap_int (wrap_int64 (wrap_int64 (Z.quot total_seconds 60
                                      - wrap_int (24 * 60 * days))
                          - wrap_int (60 * hours))) in
  let seconds :=
    wrap_int (wrap_int64
                (wrap_int64
                   (wrap_int64 (total_seconds
                                - wrap_int (24 * 60 * 60 * days))
                    - wrap_int (60 * 60 * hours))
                 - wrap_int (60 * minutes))) in
  {| days := days; hours := hours; minutes := minutes; seconds := seconds |}.

(** [std::to_string] of an [int]. *)
Definition to_string (z : Z) : String.string :=
  DecimalString.NilZero.string_of_int (Z.to_int z).

Definition duration_string (w : t) : String.string :=
  let d := duration w in
  String.append (to_string (days d))
   (String.append "d "
     (String.append (to_string (hours d))
       (String.append "h "
         (String.append (to_string (minutes d))
           (String.append "m "
             (String.append (to_string (seconds d)) "s")))))).

End StopWatch.

(** ** argparse.cpp: command-line options *)

Module ArgParser.

Record t := { tokens : list String.string }.

(** The constructor keeps [argv[1]] to [argv[argc - 1]]. *)
Definition construct (argv : list String.string) : t :=
  {| tokens := drop 1 argv |}.

(** [get_option(position)]; [None] is the [std::invalid_argument] throw. *)
Definition get_option_at (a : t) (position : nat) : option String.string :=
  if length (tokens a) <=? position then None
  else Some (nth position (tokens a) String.EmptyString).

(** [std::find]: the iterator is the rest of the list from the first
    element equal to [name] on; the empty list is [end()]. *)
Fixpoint find (l : list String.string) (name : String.string)
    : list String.string :=
  match l with
  | [] => []
  | x :: rest => if String.eqb x name then l else find rest name
  end.

(** [get_option(name)]: the token after the first occurrence of [name],
    or the empty string. *)
Definition get_option (a : t) (name : String.string) : String.string :=
  match find (tokens a) name with
  | _ :: value :: _ => value
  | _ => String.EmptyString
  end.

(** [get_option(name, default_value)]. *)
Definition get_option_or (a : t) (name default_value : String.string)
    : String.string :=
  if String.eqb (get_option a name) String.EmptyString then default_value
  else get_option a name.

Definition option_exists (a : t) (option : String.string) : bool :=
  match find (tokens a) option with
  | [] => false
  | _ => true
  end.

End ArgParser.

(** * Specification-side definitions *)

(** ** Specification-side definitions for the neighbourhood *)

Module NeighbourhoodSpec.

Import Neighbourhood.

(** The number of lattice steps between two cells of the map: the
    distance of the map's topology between the points (cell div width,
    cell mod width), on the height x width lattice. *)
Definition steps_apart (nb : t) (cell1 cell2 : nat) : Z :=
  distance nb
    (Z.of_nat (cell1 / width nb)) (Z.of_nat (cell1 mod width nb))
    (Z.of_nat (cell2 / width nb)) (Z.of_nat (cell2 mod width nb))
    (Z.of_nat (height nb)) (Z.of_nat (width nb)).

(** The number of rows, among the first [num_rows], whose best and
    next-best cells are more than one lattice step apart. *)
Definition discontinuity_count (nb : t)
    (best_matching_units next_best_matching_units : list nat)
    (num_rows : nat) : nat :=
  length
    (List.filter
       (fun row => (1 <? steps_apart nb (best_matching_units !!! row)
                                        (next_best_matching_units !!! row))%Z)
       (seq 0 num_rows)).

(** The influence as the specification writes it, for a lattice distance
    [d] and a radius [r]. *)
Definition influence_formula (d : Z) (r : R) : R :=
  if Rlt_dec (IZR d) r
  then ((1 - sqrt (exp 1) * exp (- (IZR d * IZR d) / (2 * (r * r))))
        / (r * (1 - sqrt (exp 1))))%R
  else 0%R.

(** One call of [update] in a run: the arrays and the flag it receives. *)
Record UpdateCall := {
  call_best : list nat;
  call_next : list nat;
  call_num_rows : nat;
  call_respect_lower_bound : bool
}.

Definition run_updates (nb : t) (calls : list UpdateCall) : t :=
  fold_left
    (fun nb c =>
       fst (update nb (call_best c) (call_next c) (call_num_rows c)
                   (call_respect_lower_bound c)))
    calls nb.

(** The invariant of the radius field: a positive exponent and no radius
    below 1. *)
Definition radii_ok (nb : t) : Prop :=
  (0 < update_exponent nb)%R /\ Forall (fun v => (1 <= v)%R) (values nb).

End NeighbourhoodSpec.

(** ** Specification-side definitions for the count tensor *)

Module SemanticMapSpec.

Import Data SemanticMap.

(** The count cells one row touches, in the order of its sparse indices. *)
Definition row_targets (data : BinarySparseMatrix) (m : t) (row : nat)
    : list nat :=
  map (fun i => count_index (num_cells m) (indices_in_row data row i)
                            (best_matching_units m !!! row))
      (seq 0 (num_indices_in_row data row)).

(** All count cells touched by the corpus, row after row. *)
Definition targets (data : BinarySparseMatrix) (m : t) : list nat :=
  flat_map (row_targets data m) (seq 0 (num_rows data)).

(** The number of (row, sparse index) pairs that land on count cell [p]. *)
Definition hits (data : BinarySparseMatrix) (m : t) (p : nat) : N :=
  N.of_nat (count_occ Nat.eq_dec (targets data m) p).

(** The entries of the corpus: the pairs (row, position) with
    [position] below the number of sparse indices of [row], row after
    row. *)
Definition entries (data : BinarySparseMatrix) : list (nat * nat) :=
  flat_map (fun row => map (pair row) (seq 0 (num_indices_in_row data row)))
           (seq 0 (num_rows data)).

(** The number of entries whose sparse index is the vocabulary entry [v]
    and whose row has best-matching unit [b]. *)
Definition pair_count (data : BinarySparseMatrix) (m : t) (v b : nat) : N :=
  N.of_nat
    (length
       (List.filter
          (fun e => (best_matching_units m !!! fst e =? b)
                    && (indices_in_row data (fst e) (snd e) =? v))
          (entries data))).

(** Counting along a list of cells, with the capacity check. *)
Fixpoint count_list (ps : list nat) (counts : list N) : option (list N) :=
  match ps with
  | [] => Some counts
  | p :: ps' =>
      if (MAX_COUNT - 1 <=? counts !!! p)%N then None
      else count_list ps' (<[p := (counts !!! p + 1)%N]> counts)
  end.

(** The subscripts stay inside the tensor: the tensor size fits 32 bits,
    every best-matching unit is a cell and every index a vocabulary entry. *)
Definition in_range (data : BinarySparseMatrix) (m : t) : Prop :=
  (Z.of_nat (num_cells m) * Z.of_nat (vocabulary_size m) < 4294967296)%Z
  /\ (forall row, row < num_rows data ->
        best_matching_units m !!! row < num_cells m)
  /\ (forall row i, row < num_rows data -> i < num_indices_in_row data row ->
        indices_in_row data row i < vocabulary_size m).

End SemanticMapSpec.

(** ** A small corpus used to exercise the statements

    Three rows over a vocabulary of three terms: {0, 2}, {1} and {0, 1}. *)

Module Examples.

Definition corpus : Data.BinarySparseMatrix :=
  Data.init_sum_of_squares
    {| Data.indices := [0; 2; 1; 0; 1];
       Data.index_pointers := [0; 2; 3; 5];
       Data.weights := [];
       Data.num_rows := 3;
       Data.num_cols := 3;
       Data.num_non_zero := 5;
       Data._sum_of_squares := [];
       Data._has_weights := false |}.

(** A two-cell semantic map over [corpus] with best-matching units 1, 0, 1. *)
Definition smap : SemanticMap.t :=
  {| SemanticMap.counts := None;
     SemanticMap.best_matching_units := [1; 0; 1];
     SemanticMap.vocabulary_size := 3;
     SemanticMap.dataset_size := 3;
     SemanticMap.height := 1;
     SemanticMap.width := 2;
     SemanticMap.num_cells := 2 |}.

End Examples.

(** ** Specification-side definitions for the codebook *)

Module CodebookSpec.

Import Data Codebook.

(** Entry [d] of the prototype vector of cell [c]: the codebook is
    row-major over (cell, dim). *)
Definition prototype (cb : t) (c d : nat) : R :=
  array cb !!! (c * input_dim cb + d).

(** The inner product of the prototype of cell [c] with row [row]: over
    the sparse indices of the row below the cutoff, each contribution
    multiplied by the weight stored with that index when the corpus has
    weights. *)
Definition inner_product (cb : t) (data : BinarySparseMatrix)
    (effective_input_dim row c : nat) : R :=
  fold_left
    (fun acc i =>
       let idx := indices_in_row data row i in
       if idx <? effective_input_dim
       then (acc + prototype cb c idx
                   * (if has_weights data
                      then R_of_nat (weights_in_row data row i) else 1))%R
       else acc)
    (seq 0 (num_indices_in_row data row)) 0%R.

Definition norm_squared (cb : t) (c : nat) : R :=
  fold_left (fun acc d => (acc + squared (prototype cb c d))%R)
            (seq 0 (input_dim cb)) 0%R.

(** The surrogate squared distance of the dual search, as specified. *)
Definition surrogate (cb : t) (data : BinarySparseMatrix)
    (effective_input_dim row c : nat) : R :=
  (norm_squared cb c - 2 * inner_product cb data effective_input_dim row c
   + R_of_nat (_sum_of_squares data !!! row))%R.

(** [c] minimises the surrogate distance of [row] among the cells other
    than [bmu], the first such cell winning ties. *)
Definition is_next_best (cb : t) (data : BinarySparseMatrix)
    (effective_input_dim row bmu c : nat) : Prop :=
  c < num_cells cb /\ c <> bmu
  /\ (forall c', c' < num_cells cb -> c' <> bmu ->
        (surrogate cb data effective_input_dim row c
         <= surrogate cb data effective_input_dim row c')%R)
  /\ (forall c', c' < c -> c' <> bmu ->
        (surrogate cb data effective_input_dim row c
         < surrogate cb data effective_input_dim row c')%R).

(** *** The batch update, as specified *)

Definition sum_R (l : list R) : R := fold_right Rplus 0%R l.

(** The learning rate of a row at a target cell. *)
Definition learning_rate (neighbourhood : Neighbourhood.t)
    (best_matching_units : list nat) (cell_index row : nat) : R :=
  Neighbourhood.influence neighbourhood (best_matching_units !!! row)
                          cell_index.

Definition positive_rate (neighbourhood : Neighbourhood.t)
    (best_matching_units : list nat) (cell_index row : nat) : bool :=
  if Rlt_dec 0 (learning_rate neighbourhood best_matching_units cell_index row)
  then true else false.

(** The rows that contribute to a target cell: those with a positive
    learning rate. *)
Definition contributing_rows (data : BinarySparseMatrix)
    (neighbourhood : Neighbourhood.t) (best_matching_units : list nat)
    (cell_index : nat) : list nat :=
  List.filter (positive_rate neighbourhood best_matching_units cell_index)
              (seq 0 (num_rows data)).

(** How often the inner loop of the update adds to slot [d] of the
    numerator, for one row. *)
Fixpoint touch_count (indices : nat -> nat) (eff : nat) (remaining i d : nat)
    : nat :=
  match remaining with
  | O => 0
  | S k =>
      if eff <=? indices i then 0
      else (if indices i =? d then 1 else 0)
           + touch_count indices eff k (S i) d
  end.

(** [x_r[d]]: the sparse index set of the row contains [d], and [d] is
    below the effective input dimension. *)
Definition row_has (data : BinarySparseMatrix) (effective_input_dim : nat)
    (d row : nat) : bool :=
  (d <? effective_input_dim) && existsb (Nat.eqb d) (row_indices data row).

Definition denominator (data : BinarySparseMatrix)
    (neighbourhood : Neighbourhood.t) (best_matching_units : list nat)
    (cell_index : nat) : R :=
  sum_R (map (learning_rate neighbourhood best_matching_units cell_index)
             (contributing_rows data neighbourhood best_matching_units
                                cell_index)).

Definition numerator (data : BinarySparseMatrix)
    (neighbourhood : Neighbourhood.t) (best_matching_units : list nat)
    (effective_input_dim cell_index d : nat) : R :=
  sum_R (map (learning_rate neighbourhood best_matching_units cell_index)
             (List.filter (row_has data effective_input_dim d)
                (contributing_rows data neighbourhood best_matching_units
                                   cell_index))).

(** The codebook array has its declared shape, and its size fits the
    32-bit subscripts. *)
Definition well_shaped (cb : t) : Prop :=
  length (array cb) = num_cells cb * input_dim cb
  /\ (Z.of_nat (num_cells cb * input_dim cb) < 4294967296)%Z.

Definition unit_interval (v : R) : Prop := (0 <= v <= 1)%R.

(** The value the update leaves at entry [d] of cell [c], from the
    value [old] it found there. *)
Definition updated_entry (data : BinarySparseMatrix)
    (nb : Neighbourhood.t) (bmus : list nat) (eff c d : nat) (old : R) : R :=
  if Req_dec_T (denominator data nb bmus c) 0 then old
  else (numerator data nb bmus eff c d / denominator data nb bmus c)%R.

End CodebookSpec.

Module CodebookExamples.

Import Topo.

(** One row holding the single term 0. *)
Definition one_row : Data.BinarySparseMatrix :=
  Data.init_sum_of_squares
    {| Data.indices := [0];
       Data.index_pointers := [0; 1];
       Data.weights := [];
       Data.num_rows := 1;
       Data.num_cols := 1;
       Data.num_non_zero := 1;
       Data._sum_of_squares := [];
       Data._has_weights := false |}.

(** Three cells over one dimension, with prototypes 1, 0 and 1/2. *)
Definition three_cells : Codebook.t :=
  {| Codebook.width := 3; Codebook.height := 1; Codebook.input_dim := 1;
     Codebook.num_cells := 3; Codebook.size := 3;
     Codebook.global_topology := PLANE; Codebook.local_topology := RECT;
     Codebook.distance := dist_rect_plane;
     Codebook.array := [1; 0; 1 / 2]%R |}.

(** One row holding the single term 0, over a vocabulary of two terms. *)
Definition one_row_two_terms : Data.BinarySparseMatrix :=
  Data.init_sum_of_squares
    {| Data.indices := [0];
       Data.index_pointers := [0; 1];
       Data.weights := [];
       Data.num_rows := 1;
       Data.num_cols := 2;
       Data.num_non_zero := 1;
       Data._sum_of_squares := [];
       Data._has_weights := false |}.

(** Two cells over two dimensions, with prototypes (1/2, 3/4) and (0, 1). *)
Definition two_cells : Codebook.t :=
  {| Codebook.width := 2; Codebook.height := 1; Codebook.input_dim := 2;
     Codebook.num_cells := 2; Codebook.size := 4;
     Codebook.global_topology := PLANE; Codebook.local_topology := RECT;
     Codebook.distance := dist_rect_plane;
     Codebook.array := [1 / 2; 3 / 4; 0; 1]%R |}.

(** A weighted corpus: row 0 holds term 1 with weight 3, row 1 holds
    term 0 with weight 5. *)
Definition weighted_rows : Data.BinarySparseMatrix :=
  Data.init_sum_of_squares
    {| Data.indices := [1; 0];
       Data.index_pointers := [0; 1; 2];
       Data.weights := [3; 5];
       Data.num_rows := 2;
       Data.num_cols := 2;
       Data.num_non_zero := 2;
       Data._sum_of_squares := [];
       Data._has_weights := true |}.

(** A two-cell neighbourhood on the plane with radius 2 everywhere. *)
Definition neighbourhood : Neighbourhood.t :=
  {| Neighbourhood.height := 1; Neighbourhood.width := 2;
     Neighbourhood.num_cells := 2;
     Neighbourhood.distance := dist_rect_plane;
     Neighbourhood.update_exponent := (1 / 2)%R;
     Neighbourhood.initial_radius := 2;
     Neighbourhood.radius_min := 2%R; Neighbourhood.radius_max := 2%R;
     Neighbourhood.values := [2; 2]%R |}.

End CodebookExamples.

(** *** Dead-cell reassignment, as specified *)

Module DeadCellSpec.

Import Codebook.

(** The cells that are the best-matching unit of none of the first
    [num_rows] rows, in cell-index order. *)
Definition unused_cells (num_cells : nat) (best_matching_units : list nat)
    (num_rows : nat) : list nat :=
  List.filter
    (fun c => negb (existsb (Nat.eqb c) (take num_rows best_matching_units)))
    (seq 0 num_cells).

(** The number of rows whose distance is strictly larger than that of
    [row]. *)
Definition rows_above (distances : list R) (num_rows row : nat) : nat :=
  length
    (List.filter
       (fun r => if Rlt_dec (distances !!! row) (distances !!! r)
                 then true else false)
       (seq 0 num_rows)).

(** Handing the cells [cells] to the rows [worst !!! i], [worst !!! (i+1)],
    ... in turn. *)
Fixpoint assign_list (worst : list nat) (i : nat) (cells : list nat)
    (best_matching_units : list nat) : list nat :=
  match cells with
  | [] => best_matching_units
  | c :: cells' =>
      assign_list worst (S i) cells' (<[worst !!! i := c]> best_matching_units)
  end.

Definition count_true (l : list bool) : nat := length (List.filter (fun b : bool => b) l).

(** [a >= threshold] and [a > v] as boolean tests. *)
Definition at_least (threshold a : R) : bool :=
  if Rle_dec threshold a then true else false.

Definition above (v a : R) : bool :=
  if Rlt_dec v a then true else false.

(** The invariant of the marking loop after the rows [processed]: the
    marks are those of the cells these rows name, and the counter is the
    number of marks. *)
Definition marked (n : nat) (bmus : list nat) (processed : list nat)
    (st : list bool * nat) : Prop :=
  length (fst st) = n /\ snd st = count_true (fst st)
  /\ forall c, c < n ->
       (fst st !!! c = true <-> exists r, In r processed /\ bmus !!! r = c).

End DeadCellSpec.

(** ** Specification-side definitions: hexagonal neighbours *)

Module TopoSpec.

#[local] Open Scope Z_scope.

(** The six neighbours of cell (row, col) on the hexagonal lattice with
    pointy tops, odd rows shifted right by half a cell. *)
Definition hex_neighbours (row col : Z) : list (Z * Z) :=
  if Z.even row
  then [(row - 1, col - 1); (row - 1, col); (row, col - 1); (row, col + 1);
        (row + 1, col - 1); (row + 1, col)]
  else [(row - 1, col); (row - 1, col + 1); (row, col - 1); (row, col + 1);
        (row + 1, col); (row + 1, col + 1)].

(** The four asserts at the head of [dist_circle_torus]. *)
Definition circle_torus_asserts (y x height width : Z) : Prop :=
  0 <= x /\ 0 <= y /\ x <= width /\ y <= height.

End TopoSpec.

(** ** Specification-side definitions: the radius update, cell by cell *)

Module NeighbourhoodUpdateSpec.

Import Neighbourhood.

(** The radius [update] writes for one cell, from the radius [v] it
    finds there. *)
Definition new_radius (nb : t) (respect_lower_bound : bool)
    (discontinuities : list TopographicDiscontinuity.t)
    (cell_index : nat) (v : R) : R :=
  if respect_lower_bound
  then Rmax (radius_lower_bound nb discontinuities cell_index)
            (std_pow v (update_exponent nb))
  else std_pow v (update_exponent nb).

(** Two neighbourhood objects over the same map and exponent. *)
Definition same_map (a b : t) : Prop :=
  height a = height b /\ width a = width b /\ num_cells a = num_cells b
  /\ distance a = distance b /\ update_exponent a = update_exponent b
  /\ initial_radius a = initial_radius b.


(** The asserts of the distance function hold at the call [influence]
    makes for [source_cell]: only [dist_circle_torus] has asserts, on its
    first point, and [influence] passes [(this->width, this->height)] as
    its (height, width). *)
Definition influence_asserts (g : Topo.GlobalTopology)
    (l : Topo.LocalTopology) (nb : t) (source_cell : nat) : Prop :=
  g = Topo.TORUS -> l = Topo.CIRC ->
  TopoSpec.circle_torus_asserts
    (Topo.cell_row (width nb) source_cell)
    (Topo.cell_col (width nb) source_cell)
    (Z.of_nat (width nb)) (Z.of_nat (height nb)).

End NeighbourhoodUpdateSpec.

Module NeighbourhoodExamples.

Import Topo.

(** Five cells in a line on the plane, with radius 3 everywhere. *)
Definition line5 : Neighbourhood.t :=
  {| Neighbourhood.height := 1; Neighbourhood.width := 5;
     Neighbourhood.num_cells := 5;
     Neighbourhood.distance := dist_rect_plane;
     Neighbourhood.update_exponent := (1 / 2)%R;
     Neighbourhood.initial_radius := 3;
     Neighbourhood.radius_min := 3%R; Neighbourhood.radius_max := 3%R;
     Neighbourhood.values := [3; 3; 3; 3; 3]%R |}.

(** Two cells side by side on the torus, circular distance, radius 2. *)
Definition torus_pair : Neighbourhood.t :=
  {| Neighbourhood.height := 1; Neighbourhood.width := 2;
     Neighbourhood.num_cells := 2;
     Neighbourhood.distance := dist_circle_torus;
     Neighbourhood.update_exponent := (1 / 2)%R;
     Neighbourhood.initial_radius := 2;
     Neighbourhood.radius_min := 2%R; Neighbourhood.radius_max := 2%R;
     Neighbourhood.values := [2; 2]%R |}.

End NeighbourhoodExamples.

(** ** Specification-side definitions: the dual search, row by row *)

Module DualSearchSpec.

Import Data Codebook.

(** What the dual search holds for one row: best cell, its distance,
    next-best cell, its distance. *)
Definition RowState : Type := (nat * R * nat * R)%type.

Definition row_state (st : BmuState) (row : nat) : RowState :=
  (best_matching_units st !!! row, distances st !!! row,
   next_best_matching_units st !!! row, next_distances st !!! row).

Definition initial_row_state : RowState :=
  (0, MAX_REAL_DISTANCE, 0, MAX_REAL_DISTANCE).

(** The distance the dual search computes for the pair (cell, row). *)
Definition search_distance (cb : t) (data : BinarySparseMatrix)
    (effective_input_dim row cell : nat) : R :=
  dual_distance data effective_input_dim
    (dual_w cb effective_input_dim cell)
    (vec_squared (dual_w cb effective_input_dim cell) effective_input_dim)
    row.

(** The row does not pass the two guards of the search. *)
Definition skipped (data : BinarySparseMatrix) (effective_input_dim row : nat)
    : bool :=
  (num_indices_in_row data row =? 0)
  || (effective_input_dim <=? indices_in_row data row 0).

(** One (cell, row) step on the state of that row. *)
Definition row_step (cb : t) (data : BinarySparseMatrix)
    (effective_input_dim row : nat) (s : RowState) (cell : nat) : RowState :=
  let '(b, d, n, nd) := s in
  if skipped data effective_input_dim row then s
  else if Rlt_dec (search_distance cb data effective_input_dim row cell) d
       then (cell,
             Rmax 0 (search_distance cb data effective_input_dim row cell),
             b, d)
       else s.

(** The four arrays of a search state all have [n] slots. *)
Definition sized (n : nat) (st : BmuState) : Prop :=
  length (best_matching_units st) = n /\ length (distances st) = n
  /\ length (next_best_matching_units st) = n
  /\ length (next_distances st) = n.

(** [b] is the first cell among the first [k] that minimises [dist]. *)
Definition first_argmin (dist : nat -> R) (k b : nat) : Prop :=
  b < k /\ (forall c, c < k -> (dist b <= dist c)%R)
  /\ (forall c, c < b -> (dist b < dist c)%R).

End DualSearchSpec.

(** ** Specification-side definitions: the single search and the Euclidean
    distance *)

Module SearchSpec.

Import Data Codebook CodebookSpec DualSearchSpec.

(** The distance the single search computes for the pair (cell, row):
    the surrogate without the squared norm of the row. *)
Definition single_distance (cb : t) (data : BinarySparseMatrix)
    (effective_input_dim row cell : nat) : R :=
  let w := ptr_at (array cb) (cell * input_dim cb) in
  let w_squared := vec_squared w (input_dim cb) in
  if has_weights data
  then (w_squared
        - 2 * product_with_weights (indices_in_row data row)
                (num_indices_in_row data row) w (weights_in_row data row)
                effective_input_dim)%R
  else (w_squared
        - 2 * product (indices_in_row data row) (num_indices_in_row data row)
                w effective_input_dim)%R.

(** One (cell, row) step of the single search on the pair (best cell,
    distance) of that row. *)
Definition single_row_step (cb : t) (data : BinarySparseMatrix)
    (effective_input_dim row : nat) (s : nat * R) (cell : nat) : nat * R :=
  if skipped data effective_input_dim row then s
  else if Rlt_dec (single_distance cb data effective_input_dim row cell)
                  (snd s)
       then (cell, single_distance cb data effective_input_dim row cell)
       else s.

(** Entry [d] of the row as a dense 0/1 vector. *)
Definition indicator (data : BinarySparseMatrix) (row d : nat) : R :=
  if existsb (Nat.eqb d) (row_indices data row) then 1%R else 0%R.

(** The squared Euclidean distance between the prototype of cell [c] and
    the row as a dense 0/1 vector. *)
Definition euclid_squared (cb : t) (data : BinarySparseMatrix)
    (row c : nat) : R :=
  sum_R (map (fun d => squared (prototype cb c d - indicator data row d))
             (seq 0 (input_dim cb))).

End SearchSpec.

(** ** A weighted corpus with heavy weights *)

Module CorpusExamples.

(** One row holding the terms 0 and 1 with the weights 16 and 32. *)
Definition heavy_row : Data.BinarySparseMatrix :=
  {| Data.indices := [0; 1];
     Data.index_pointers := [0; 2];
     Data.weights := [16; 32];
     Data.num_rows := 1;
     Data.num_cols := 2;
     Data.num_non_zero := 2;
     Data._sum_of_squares := [];
     Data._has_weights := true |}.

End CorpusExamples.

(** ** A command line used to exercise the option parser *)

Module ArgParserExamples.

Import String.StringSyntax.

Delimit Scope string_scope with string.

(** [smap create data.bin 64 48 --name demo --name other --directory] *)
Definition argv : list String.string :=
  ["smap"%string; "create"%string; "data.bin"%string; "64"%string;
   "48"%string; "--name"%string; "demo"%string; "--name"%string;
   "other"%string; "--directory"%string].

End ArgParserExamples.

(** * Verification

    ** Fixed-width arithmetic in range *)

Lemma u16_small z : (0 <= z < 65536)%Z -> u16 z = z.
Proof. intros; unfold u16; apply Z.mod_small; lia. Qed.

Lemma wrap_int_small z :
  (-2147483648 <= z < 2147483648)%Z -> wrap_int z = z.
Proof. intros; unfold wrap_int; rewrite Z.mod_small; lia. Qed.

Lemma u32n_small n : (Z.of_nat n < 4294967296)%Z -> u32n n = n.
Proof. intros H. unfold u32n. rewrite Z.mod_small by lia. lia. Qed.

(** ** Lattice distances *)

Module TopoFacts.
Import Topo.
#[local] Open Scope Z_scope.

Lemma half_row_nonneg row : 0 <= row -> half_row row = row / 2.
Proof.
  intros Hr. unfold half_row.
  change 1 with (Z.ones 1). rewrite Z.land_ones by lia.
  change (2 ^ 1) with 2.
  assert (row - row mod 2 = (row / 2) * 2) as ->
    by (pose proof (Z.div_mod row 2); lia).
  assert (0 <= row / 2) by (apply Z.div_pos; lia).
  rewrite Z.quot_div_nonneg by lia.
  apply Z.div_mul; lia.
Qed.

Lemma squared_int_small a : 0 <= a < 32768 -> squared_int a = a * a.
Proof.
  intros. unfold squared_int. apply wrap_int_small.
  assert (a * a <= 32767 * 32767) by (apply Z.mul_le_mono_nonneg; lia).
  assert (0 <= a * a) by (apply Z.square_nonneg). lia.
Qed.

(** Cauchy-Schwarz on two integer pairs, in the form the rounded-up
    Euclidean distances need. *)
Lemma ceil_sqrt_triangle a b a1 b1 a2 b2 :
  0 <= a -> 0 <= b -> 0 <= a1 -> 0 <= b1 -> 0 <= a2 -> 0 <= b2 ->
  a <= a1 + a2 -> b <= b1 + b2 ->
  ceil_sqrt (a * a + b * b)
    <= ceil_sqrt (a1 * a1 + b1 * b1) + ceil_sqrt (a2 * a2 + b2 * b2).
Proof.
  intros Ha Hb Ha1 Hb1 Ha2 Hb2 Hab Hbb. unfold ceil_sqrt.
  set (P := a1 * a1 + b1 * b1). set (Q := a2 * a2 + b2 * b2).
  pose proof (Z.sqrt_up_nonneg P) as HmP. pose proof (Z.sqrt_up_nonneg Q) as HnQ.
  assert (HP : P <= Z.sqrt_up P * Z.sqrt_up P)
    by (apply Z.sqrt_sqrt_up_spec; unfold P; nia).
  assert (HQ : Q <= Z.sqrt_up Q * Z.sqrt_up Q)
    by (apply Z.sqrt_sqrt_up_spec; unfold Q; nia).
  set (m := Z.sqrt_up P) in *. set (n := Z.sqrt_up Q) in *.
  apply Z.sqrt_up_le_square; [nia | lia |].
  assert (Hcs : (a1 * a2 + b1 * b2) * (a1 * a2 + b1 * b2) <= P * Q).
  { unfold P, Q.
    pose proof (Z.square_nonneg (a1 * b2 - a2 * b1)) as Hsq.
    replace ((a1 * a1 + b1 * b1) * (a2 * a2 + b2 * b2))
      with ((a1 * a2 + b1 * b2) * (a1 * a2 + b1 * b2)
            + (a1 * b2 - a2 * b1) * (a1 * b2 - a2 * b1)) by ring.
    lia. }
  assert (Hx : a1 * a2 + b1 * b2 <= m * n).
  { assert (P * Q <= (m * n) * (m * n)).
    { assert (0 <= P) by (unfold P; nia). assert (0 <= Q) by (unfold Q; nia).
      transitivity (m * m * Q); [nia|]. nia. }
    assert (0 <= a1 * a2 + b1 * b2) by nia. assert (0 <= m * n) by nia.
    nia. }
  assert (a * a <= (a1 + a2) * (a1 + a2)) by nia.
  assert (b * b <= (b1 + b2) * (b1 + b2)) by nia.
  unfold P, Q in *. nia.
Qed.

Lemma ceil_sqrt_le_sum a b : 0 <= a -> 0 <= b -> ceil_sqrt (a * a + b * b) <= a + b.
Proof. intros. unfold ceil_sqrt. apply Z.sqrt_up_le_square; nia. Qed.

Lemma ceil_sqrt_nonneg n : 0 <= ceil_sqrt n.
Proof. apply Z.sqrt_up_nonneg. Qed.

(** The distance along one wrapped axis of length [n]. *)
Lemma axis_torus_bounds n a b :
  0 <= a < n -> 0 <= b < n ->
  0 <= Z.min (Z.abs (b - a)) (n - Z.abs (b - a)) < n.
Proof. lia. Qed.

Lemma axis_torus_diag n a :
  0 <= a < n -> Z.min (Z.abs (a - a)) (n - Z.abs (a - a)) = 0.
Proof. lia. Qed.

Lemma axis_torus_sym n a b :
  Z.min (Z.abs (b - a)) (n - Z.abs (b - a))
  = Z.min (Z.abs (a - b)) (n - Z.abs (a - b)).
Proof. lia. Qed.

Lemma axis_torus_triangle n a b c :
  0 <= a < n -> 0 <= b < n -> 0 <= c < n ->
  Z.min (Z.abs (c - a)) (n - Z.abs (c - a))
  <= Z.min (Z.abs (b - a)) (n - Z.abs (b - a))
     + Z.min (Z.abs (c - b)) (n - Z.abs (c - b)).
Proof. lia. Qed.

Lemma max3_ub a b c :
  a <= Z.max (Z.max a b) c /\ b <= Z.max (Z.max a b) c
  /\ c <= Z.max (Z.max a b) c.
Proof. lia. Qed.

(** The hexagonal norm on axial coordinates is subadditive. *)
Lemma hex_norm_triangle r1 r2 r3 c1 c2 c3 h1 h2 h3 :
  Z.max (Z.max (Z.abs (r1 - r3)) (Z.abs (c1 - c3 - h1 + h3)))
        (Z.abs (c1 - c3 + r1 - r3 - h1 + h3))
  <= Z.max (Z.max (Z.abs (r1 - r2)) (Z.abs (c1 - c2 - h1 + h2)))
           (Z.abs (c1 - c2 + r1 - r2 - h1 + h2))
     + Z.max (Z.max (Z.abs (r2 - r3)) (Z.abs (c2 - c3 - h2 + h3)))
             (Z.abs (c2 - c3 + r2 - r3 - h2 + h3)).
Proof.
  set (a1 := r1 - r2). set (a2 := r2 - r3).
  set (b1 := c1 - c2 - h1 + h2). set (b2 := c2 - c3 - h2 + h3).
  replace (r1 - r3) with (a1 + a2) by (unfold a1, a2; ring).
  replace (c1 - c3 - h1 + h3) with (b1 + b2) by (unfold b1, b2; ring).
  replace (c1 - c3 + r1 - r3 - h1 + h3) with ((a1 + b1) + (a2 + b2))
    by (unfold a1, a2, b1, b2; ring).
  replace (c1 - c2 + r1 - r2 - h1 + h2) with (a1 + b1)
    by (unfold a1, b1; ring).
  replace (c2 - c3 + r2 - r3 - h2 + h3) with (a2 + b2)
    by (unfold a2, b2; ring).
  clearbody a1 a2 b1 b2.
  destruct (max3_ub (Z.abs a1) (Z.abs b1) (Z.abs (a1 + b1))) as (?&?&?).
  destruct (max3_ub (Z.abs a2) (Z.abs b2) (Z.abs (a2 + b2))) as (?&?&?).
  set (m1 := Z.max (Z.max (Z.abs a1) _) _) in *.
  set (m2 := Z.max (Z.max (Z.abs a2) _) _) in *.
  clearbody m1 m2.
  pose proof (Z.abs_triangle a1 a2). pose proof (Z.abs_triangle b1 b2).
  pose proof (Z.abs_triangle (a1 + b1) (a2 + b2)).
  repeat apply Z.max_lub; lia.
Qed.

Section SmallLattice.
Variables H W : Z.
Hypothesis HH : 0 < H <= 32768.
Hypothesis HW : 0 < W <= 32768.

Lemma dist_rect_plane_metric : is_metric_on dist_rect_plane H W.
Proof.
  intros [y1 x1] [y2 x2] [y3 x3] [? ?] [? ?] [? ?]; simpl in *.
  unfold dist_rect_plane. rewrite !u16_small by lia. repeat split; lia.
Qed.

Lemma dist_rect_torus_metric : is_metric_on dist_rect_torus H W.
Proof.
  intros [y1 x1] [y2 x2] [y3 x3] [? ?] [? ?] [? ?]; simpl in *.
  unfold dist_rect_torus.
  pose proof (axis_torus_bounds W x1 x2). pose proof (axis_torus_bounds H y1 y2).
  pose proof (axis_torus_bounds W x2 x3). pose proof (axis_torus_bounds H y2 y3).
  pose proof (axis_torus_bounds W x1 x3). pose proof (axis_torus_bounds H y1 y3).
  pose proof (axis_torus_triangle W x1 x2 x3).
  pose proof (axis_torus_triangle H y1 y2 y3).
  rewrite (axis_torus_diag W x1), (axis_torus_diag H y1) by lia.
  rewrite (axis_torus_sym W x2 x1), (axis_torus_sym H y2 y1).
  set (dx12 := Z.min (Z.abs (x2 - x1)) _) in *.
  set (dy12 := Z.min (Z.abs (y2 - y1)) _) in *.
  set (dx23 := Z.min (Z.abs (x3 - x2)) _) in *.
  set (dy23 := Z.min (Z.abs (y3 - y2)) _) in *.
  set (dx13 := Z.min (Z.abs (x3 - x1)) _) in *.
  set (dy13 := Z.min (Z.abs (y3 - y1)) _) in *.
  clearbody dx12 dy12 dx23 dy23 dx13 dy13.
  rewrite !u16_small by lia. repeat split; lia.
Qed.

Lemma dist_hexa_plane_metric : is_metric_on dist_hexa_plane H W.
Proof.
  intros [y1 x1] [y2 x2] [y3 x3] [? ?] [? ?] [? ?]; simpl in *.
  unfold dist_hexa_plane. rewrite !half_row_nonneg by lia.
  assert (0 <= y1 / 2 <= y1) by (split; [apply Z.div_pos|apply Z.div_le_upper_bound]; lia).
  assert (0 <= y2 / 2 <= y2) by (split; [apply Z.div_pos|apply Z.div_le_upper_bound]; lia).
  assert (0 <= y3 / 2 <= y3) by (split; [apply Z.div_pos|apply Z.div_le_upper_bound]; lia).
  set (h1 := y1 / 2) in *. set (h2 := y2 / 2) in *. set (h3 := y3 / 2) in *.
  clearbody h1 h2 h3.
  rewrite !u16_small by lia.
  split; [lia|]. split; [lia|]. split; [lia|].
  apply hex_norm_triangle.
Qed.

Lemma circle_value a b :
  0 <= a < 32768 -> 0 <= b < 32768 ->
  u16 (ceil_sqrt (wrap_int (squared_int a + squared_int b)))
  = ceil_sqrt (a * a + b * b).
Proof.
  intros Ha Hb. rewrite !squared_int_small by lia.
  assert (a * a <= 32767 * 32767) by (apply Z.mul_le_mono_nonneg; lia).
  assert (b * b <= 32767 * 32767) by (apply Z.mul_le_mono_nonneg; lia).
  pose proof (Z.square_nonneg a). pose proof (Z.square_nonneg b).
  rewrite wrap_int_small by lia.
  apply u16_small. pose proof (ceil_sqrt_le_sum a b). 
  pose proof (ceil_sqrt_nonneg (a * a + b * b)). lia.
Qed.

Lemma dist_circle_plane_metric : is_metric_on dist_circle_plane H W.
Proof.
  intros [y1 x1] [y2 x2] [y3 x3] [? ?] [? ?] [? ?]; simpl in *.
  unfold dist_circle_plane. rewrite !circle_value by lia.
  split; [apply ceil_sqrt_nonneg|]. split.
  { rewrite !Z.sub_diag. reflexivity. }
  split.
  { f_equal. assert (Z.abs (y2 - y1) = Z.abs (y1 - y2)) as -> by lia.
    assert (Z.abs (x2 - x1) = Z.abs (x1 - x2)) as -> by lia. reflexivity. }
  apply ceil_sqrt_triangle; lia.
Qed.

Lemma dist_circle_torus_metric : is_metric_on dist_circle_torus H W.
Proof.
  intros [y1 x1] [y2 x2] [y3 x3] [? ?] [? ?] [? ?]; simpl in *.
  unfold dist_circle_torus.
  pose proof (axis_torus_bounds W x1 x2). pose proof (axis_torus_bounds H y1 y2).
  pose proof (axis_torus_bounds W x2 x3). pose proof (axis_torus_bounds H y2 y3).
  pose proof (axis_torus_bounds W x1 x3). pose proof (axis_torus_bounds H y1 y3).
  pose proof (axis_torus_triangle W x1 x2 x3).
  pose proof (axis_torus_triangle H y1 y2 y3).
  rewrite (axis_torus_diag W x1), (axis_torus_diag H y1) by lia.
  rewrite (axis_torus_sym W x2 x1), (axis_torus_sym H y2 y1).
  set (dx12 := Z.min (Z.abs (x2 - x1)) _) in *.
  set (dy12 := Z.min (Z.abs (y2 - y1)) _) in *.
  set (dx23 := Z.min (Z.abs (x3 - x2)) _) in *.
  set (dy23 := Z.min (Z.abs (y3 - y2)) _) in *.
  set (dx13 := Z.min (Z.abs (x3 - x1)) _) in *.
  set (dy13 := Z.min (Z.abs (y3 - y1)) _) in *.
  clearbody dx12 dy12 dx23 dy23 dx13 dy13.
  rewrite !circle_value by lia.
  split; [apply ceil_sqrt_nonneg|]. split; [reflexivity|].
  split; [reflexivity|].
  apply ceil_sqrt_triangle; lia.
Qed.

End SmallLattice.

(** C8, failing input.  On the 4 x 4 torus of hexagonal cells the points
    (0,3), (0,0) and (3,0) have pairwise distances 1, 1 and 3 under
    [dist_hexa_torus]: the triangle inequality fails, because the minimum
    is taken over wrap-around offsets of equal sign only.  The five other
    distance functions are metrics (lemmas above). *)
Theorem dist_hexa_torus_triangle_fails :
  on_lattice 4 4 (0, 3) /\ on_lattice 4 4 (0, 0) /\ on_lattice 4 4 (3, 0) /\
  dist_hexa_torus 0 3 3 0 4 4 = 3 /\
  dist_hexa_torus 0 3 0 0 4 4 = 1 /\
  dist_hexa_torus 0 0 3 0 4 4 = 1 /\
  ~ is_metric_on dist_hexa_torus 4 4.
Proof.
  assert (L1 : on_lattice 4 4 (0, 3)) by (unfold on_lattice; simpl; lia).
  assert (L2 : on_lattice 4 4 (0, 0)) by (unfold on_lattice; simpl; lia).
  assert (L3 : on_lattice 4 4 (3, 0)) by (unfold on_lattice; simpl; lia).
  repeat split; try (simpl; lia); try reflexivity.
  intros M. destruct (M (0, 3) (0, 0) (3, 0) L1 L2 L3) as (_ & _ & _ & Ht).
  vm_compute in Ht. apply Ht. reflexivity.
Qed.
End TopoFacts.

(** ** Neighbourhood *)

Module NeighbourhoodFacts.

Import Topo Neighbourhood NeighbourhoodSpec.

Lemma discontinuities_counted nb (bmus nexts : list nat) rows acc :
  length
    (fold_left
       (fun discontinuities row =>
          let cell1 := bmus !!! row in
          let cell2 := nexts !!! row in
          let distance := lattice_distance nb cell1 cell2 in
          if (1 <? distance)%Z
          then discontinuities ++ [TopographicDiscontinuity.mk cell1 cell2 distance]
          else discontinuities)
       rows acc)
  = (length acc
     + length (List.filter
                 (fun row => (1 <? steps_apart nb (bmus !!! row)
                                                  (nexts !!! row))%Z)
                 rows))%nat.
Proof.
  revert acc. induction rows as [|row rows IH]; intros acc.
  - simpl. lia.
  - cbn [fold_left List.filter]. rewrite IH.
    change (lattice_distance nb (bmus !!! row) (nexts !!! row))
      with (steps_apart nb (bmus !!! row) (nexts !!! row)).
    destruct (1 <? steps_apart nb (bmus !!! row) (nexts !!! row))%Z.
    + rewrite length_app. cbn [length]. lia.
    + lia.
Qed.

(** C3. [update] returns (k + 1) / N, k being the number of rows whose
    best and next-best cells are more than one lattice step apart, the
    steps counted by the distance of the topology between the cells'
    (row, column) points on the height x width map; with no such row the
    value is 1 / N. *)
Theorem update_returns_topographic_error nb (bmus nexts : list nat) N respect :
  snd (update nb bmus nexts N respect)
  = (R_of_nat (discontinuity_count nb bmus nexts N + 1) / R_of_nat N)%R
  /\ (discontinuity_count nb bmus nexts N = 0%nat ->
      snd (update nb bmus nexts N respect) = (1 / R_of_nat N)%R).
Proof.
  assert (E : snd (update nb bmus nexts N respect)
    = (R_of_nat (discontinuity_count nb bmus nexts N + 1) / R_of_nat N)%R).
  { unfold update, topographic_discontinuities, discontinuity_count.
    cbn [snd]. rewrite discontinuities_counted. reflexivity. }
  split; [exact E|]. intros Hz. rewrite E, Hz. reflexivity.
Qed.

Lemma update_returns_topographic_error_witness :
  match construct 2 2 PLANE RECT 1 2 with
  | Some nb => snd (update nb [0; 1] [1; 0] 2 true) = (1 / R_of_nat 2)%R
  | None => False
  end
  /\ match construct 1 5 PLANE RECT 1 3 with
     | Some nb =>
         discontinuity_count nb [0; 1; 4] [4; 2; 0] 3 = 2
         /\ snd (update nb [0; 1; 4] [4; 2; 0] 3 true)
            = (R_of_nat (2 + 1) / R_of_nat 3)%R
     | None => False
     end.
Proof.
  lazy beta iota delta [construct distance_function]. split.
  - apply (proj2 (update_returns_topographic_error _ [0; 1]%nat [1; 0]%nat
                    2 true)).
    reflexivity.
  - split; [reflexivity|].
    rewrite (proj1 (update_returns_topographic_error _ [0; 1; 4]%nat
                      [4; 2; 0]%nat 3 true)).
    reflexivity.
Defined.

(** *** The radius invariant *)

Lemma std_pow_ge_1 v a : (1 <= v)%R -> (0 < a)%R -> (1 <= std_pow v a)%R.
Proof.
  intros Hv Ha. unfold std_pow.
  destruct (Req_dec_T v 0) as [E|_]; [lra|].
  unfold Rpower.
  assert (Hln : (0 <= ln v)%R).
  { destruct (Rle_lt_or_eq_dec 1 v Hv) as [Hlt|Heq].
    - left. rewrite <- ln_1. apply ln_increasing; lra.
    - subst v. rewrite ln_1. lra. }
  assert (Hx : (0 <= a * ln v)%R) by (apply Rmult_le_pos; lra).
  destruct Hx as [Hx|Hx].
  - assert (Hne : (a * ln v)%R <> 0%R) by lra.
    pose proof (exp_ineq1 _ Hne). lra.
  - rewrite <- Hx, exp_0. lra.
Qed.

Lemma radius_lower_bound_ge_1 nb discontinuities cell_index :
  (1 <= radius_lower_bound nb discontinuities cell_index)%R.
Proof.
  unfold radius_lower_bound.
  assert (G : forall l lb, (1 <= lb)%R ->
    (1 <= fold_left
            (fun lb discontinuity =>
               Rmax lb (IZR (radius_from_discontinuity nb cell_index
                                                       discontinuity)))
            l lb)%R).
  { induction l as [|d l IH]; intros lb Hlb; simpl; [exact Hlb|].
    apply IH. eapply Rle_trans; [exact Hlb|apply Rmax_l]. }
  apply G. lra.
Qed.

Lemma update_cell_radii_ok respect discontinuities nb cell_index :
  radii_ok nb -> radii_ok (update_cell respect discontinuities nb cell_index).
Proof.
  intros [Ha Hv]. unfold radii_ok, update_cell. simpl. split; [exact Ha|].
  destruct (Nat.lt_ge_cases cell_index (length (values nb))) as [Hlt|Hge].
  - apply Forall_insert; [exact Hv|].
    assert (Hc : (1 <= values nb !!! cell_index)%R).
    { destruct (lookup_lt_is_Some_2 _ _ Hlt) as [v Hl].
      rewrite (list_lookup_total_correct _ _ _ Hl).
      eapply Forall_lookup_1; eauto. }
    destruct respect.
    + eapply Rle_trans; [apply radius_lower_bound_ge_1|apply Rmax_l].
    + apply std_pow_ge_1; assumption.
  - rewrite list_insert_ge by lia. exact Hv.
Qed.

Lemma update_radii_ok nb (bmus nexts : list nat) N respect :
  radii_ok nb -> radii_ok (fst (update nb bmus nexts N respect)).
Proof.
  intros H. unfold update. simpl.
  set (ds := topographic_discontinuities nb bmus nexts N). clearbody ds.
  assert (G : forall cells nb0, radii_ok nb0 ->
            radii_ok (fold_left (update_cell respect ds) cells nb0)).
  { induction cells as [|c cells IH]; intros nb0 H0; simpl; [exact H0|].
    apply IH. apply update_cell_radii_ok. exact H0. }
  apply G. exact H.
Qed.

(** C5. A neighbourhood constructed with an initial radius of at least 1
    and an update exponent in (0, 1] has every radius at least 1 after any
    sequence of updates, with or without the lower bound. *)
Theorem radius_never_below_one height width global_topology local_topology
    update_exponent initial_radius nb calls :
  construct height width global_topology local_topology update_exponent
            initial_radius = Some nb ->
  (1 <= initial_radius)%nat ->
  (0 < update_exponent <= 1)%R ->
  Forall (fun v => (1 <= v)%R) (values (run_updates nb calls))
  /\ forall cell, (cell < length (values (run_updates nb calls)))%nat ->
       (1 <= values (run_updates nb calls) !!! cell)%R.
Proof.
  intros Hc Hr Ha.
  assert (H0 : radii_ok nb).
  { unfold construct in Hc.
    destruct (distance_function global_topology local_topology); [|discriminate].
    injection Hc as <-. unfold radii_ok; simpl. split; [lra|].
    apply Forall_replicate. unfold R_of_nat. apply IZR_le. lia. }
  assert (G : radii_ok (run_updates nb calls)).
  { unfold run_updates. clear Hc. revert nb H0.
    induction calls as [|c calls IH]; intros nb H0; simpl; [exact H0|].
    apply IH. apply update_radii_ok. exact H0. }
  destruct G as [_ G]. split; [exact G|].
  intros cell Hlt.
  destruct (lookup_lt_is_Some_2 _ _ Hlt) as [v Hl].
  rewrite (list_lookup_total_correct _ _ _ Hl).
  eapply Forall_lookup_1; eauto.
Qed.

Lemma radius_never_below_one_witness :
  match construct 2 2 TORUS CIRC (1 / 2) 2 with
  | Some nb =>
      Forall (fun v => (1 <= v)%R)
        (values (run_updates nb
           [{| call_best := [0; 3]; call_next := [3; 0]; call_num_rows := 2;
               call_respect_lower_bound := false |};
            {| call_best := [0; 3]; call_next := [3; 0]; call_num_rows := 2;
               call_respect_lower_bound := true |}]))
  | None => False
  end.
Proof.
  lazy beta iota delta [construct distance_function].
  refine (proj1 (radius_never_below_one 2 2 TORUS CIRC (1 / 2) 2 _ _
                   eq_refl _ _)).
  - lia.
  - lra.
Defined.

(** *** The influence function *)

Lemma sqrt_e_gt_1 : (1 < sqrt (exp 1))%R.
Proof.
  rewrite <- sqrt_1 at 1. apply sqrt_lt_1_alt.
  assert (Hne : 1%R <> 0%R) by lra.
  pose proof (exp_ineq1 1 Hne). lra.
Qed.

(** C4, failing input.  On a torus map of height 2 and width 5 with
    rectangular cells and radius 2, cells 0 and 4 are one lattice step
    apart, but [influence] passes (width, height) where the distance
    functions expect (height, width): it computes d = 0 and returns 1/2,
    which is not the value of the specified formula at d = 1. *)
Theorem influence_swaps_height_and_width :
  match construct 2 5 TORUS RECT 1 2 with
  | Some nb =>
      lattice_distance nb 0 4 = 1%Z
      /\ influence_distance nb 0 4 = 0%Z
      /\ influence nb 0 4 = (1 / 2)%R
      /\ influence nb 0 4
         <> influence_formula (lattice_distance nb 0 4) (values nb !!! 4%nat)
  | None => False
  end.
Proof.
  destruct (construct 2 5 TORUS RECT 1 2) as [nb|] eqn:E; [|discriminate E].
  lazy beta iota delta [construct distance_function] in E. injection E as E.
  assert (Hd : lattice_distance nb 0 4 = 1%Z) by (rewrite <- E; reflexivity).
  assert (Hi : influence_distance nb 0 4 = 0%Z) by (rewrite <- E; reflexivity).
  assert (Hr : values nb !!! 4%nat = 2%R) by (rewrite <- E; reflexivity).
  clear E.
  assert (Hv : influence nb 0 4 = (1 / 2)%R).
  { unfold influence. rewrite Hi, Hr.
    destruct (Rlt_dec 0 2) as [_|Hn]; [|lra].
    change (squared_u16 0) with 0%Z. unfold squared.
    replace (-0.5 * 0 / (2 * 2))%R with 0%R by lra.
    rewrite exp_0.
    assert (Hs : (1 < SQRT_E)%R) by (unfold SQRT_E; lra).
    field. lra. }
  repeat split; try assumption.
  rewrite Hv, Hd, Hr. unfold influence_formula.
  destruct (Rlt_dec 1 2) as [_|Hn]; [|lra].
  pose proof sqrt_e_gt_1 as Hs. set (s := sqrt (exp 1)) in *.
  assert (He : (exp (- (1 * 1) / (2 * (2 * 2))) < 1)%R).
  { assert (Hlt : (exp (- (1 * 1) / (2 * (2 * 2))) < exp 0)%R)
      by (apply exp_increasing; lra).
    rewrite exp_0 in Hlt. exact Hlt. }
  intros Heq.
  set (e := exp (- (1 * 1) / (2 * (2 * 2)))) in *.
  assert (Hx : ((1 - s * e) / (2 * (1 - s)) * (2 * (1 - s))
                = 1 - s * e)%R) by (field; lra).
  rewrite <- Heq in Hx.
  assert (s * (1 - e) = 0)%R by lra.
  assert (0 < s * (1 - e))%R by (apply Rmult_lt_0_compat; lra).
  lra.
Qed.

End NeighbourhoodFacts.

(** ** Count tensor *)

Module SemanticMapFacts.

Import Data SemanticMap SemanticMapSpec.

Lemma count_row_as_list indices num_cells bmu k i counts :
  count_row indices num_cells bmu k i counts
  = count_list (map (fun j => count_index num_cells (indices j) bmu) (seq i k))
               counts.
Proof.
  revert i counts. induction k as [|k IH]; intros i counts; simpl.
  - reflexivity.
  - destruct (_ <=? _)%N; [reflexivity|]. apply IH.
Qed.

Lemma count_list_app ps qs counts :
  count_list (ps ++ qs) counts
  = match count_list ps counts with
    | None => None
    | Some c => count_list qs c
    end.
Proof.
  revert counts. induction ps as [|p ps IH]; intros counts; simpl.
  - reflexivity.
  - destruct (_ <=? _)%N; [reflexivity|]. apply IH.
Qed.

Lemma count_rows_as_list data m rows acc :
  fold_left (count_rows_step data m) rows acc
  = match acc with
    | None => None
    | Some c => count_list (flat_map (row_targets data m) rows) c
    end.
Proof.
  revert acc. induction rows as [|row rows IH]; intros acc; simpl.
  - destruct acc; reflexivity.
  - rewrite IH. destruct acc as [c|]; simpl; [|reflexivity].
    rewrite count_row_as_list. fold (row_targets data m row).
    rewrite count_list_app. reflexivity.
Qed.

Lemma count_list_completes ps (counts : list N) :
  Forall (fun p => p < length counts) ps ->
  (forall p, p < length counts -> 0 < count_occ Nat.eq_dec ps p ->
     (counts !!! p + N.of_nat (count_occ Nat.eq_dec ps p) <= MAX_COUNT - 1)%N) ->
  exists c, count_list ps counts = Some c /\ length c = length counts
    /\ forall p, p < length counts ->
         c !!! p = (counts !!! p + N.of_nat (count_occ Nat.eq_dec ps p))%N.
Proof.
  revert counts. induction ps as [|q ps IH]; intros counts Hr Hb; simpl.
  - exists counts. repeat split. intros p _. lia.
  - inversion Hr as [|? ? Hq Hr']; subst.
    pose proof (Hb q Hq) as Hbq. simpl in Hbq.
    destruct (Nat.eq_dec q q) as [_|]; [|congruence].
    specialize (Hbq ltac:(lia)).
    destruct (N.leb_spec (MAX_COUNT - 1) (counts !!! q)) as [Hle|Hlt]; [lia|].
    destruct (IH (<[q := (counts !!! q + 1)%N]> counts)) as (c & Hc & Hlen & Hv).
    + rewrite length_insert. exact Hr'.
    + rewrite length_insert. intros p Hp Hpos. specialize (Hb p Hp).
      simpl in Hb.
      destruct (Nat.eq_dec q p) as [->|Hne].
      * rewrite list_lookup_total_insert_eq by exact Hp.
        specialize (Hb ltac:(lia)). lia.
      * rewrite list_lookup_total_insert_ne by exact Hne.
        specialize (Hb Hpos). lia.
    + exists c. rewrite length_insert in *. repeat split; try assumption.
      intros p Hp. rewrite (Hv p Hp).
      destruct (Nat.eq_dec q p) as [->|Hne].
      * rewrite list_lookup_total_insert_eq by exact Hp. lia.
      * rewrite list_lookup_total_insert_ne by exact Hne. lia.
Qed.

Lemma count_list_aborts ps (counts : list N) p :
  Forall (fun p => p < length counts) ps ->
  p < length counts ->
  (counts !!! p <= MAX_COUNT - 1)%N ->
  (MAX_COUNT - 1 < counts !!! p + N.of_nat (count_occ Nat.eq_dec ps p))%N ->
  count_list ps counts = None.
Proof.
  revert counts. induction ps as [|q ps IH]; intros counts Hr Hp Hle Hgt; simpl.
  - simpl in Hgt. lia.
  - inversion Hr as [|? ? Hq Hr']; subst.
    destruct (N.leb_spec (MAX_COUNT - 1) (counts !!! q)) as [_|Hlt];
      [reflexivity|].
    apply IH.
    + rewrite length_insert. exact Hr'.
    + rewrite length_insert. exact Hp.
    + destruct (Nat.eq_dec q p) as [->|Hne].
      * rewrite list_lookup_total_insert_eq by exact Hp. lia.
      * rewrite list_lookup_total_insert_ne by exact Hne. lia.
    + simpl in Hgt. destruct (Nat.eq_dec q p) as [->|Hne].
      * rewrite list_lookup_total_insert_eq by exact Hp. lia.
      * rewrite list_lookup_total_insert_ne by exact Hne. lia.
Qed.

Lemma targets_in_range data m :
  in_range data m ->
  Forall (fun p => p < u32n (num_cells m * vocabulary_size m)) (targets data m).
Proof.
  intros (Hsz & Hb & Hi). rewrite u32n_small by lia.
  unfold targets. apply Forall_flat_map. apply Forall_forall.
  intros row Hrow. apply elem_of_seq in Hrow.
  unfold row_targets. apply Forall_map. apply Forall_forall.
  intros i Hin. apply elem_of_seq in Hin. simpl.
  specialize (Hb row ltac:(lia)). specialize (Hi row i ltac:(lia) ltac:(lia)).
  unfold count_index. rewrite u32n_small by nia. nia.
Qed.

Lemma initial_counts (old : option (list N)) n :
  let counts0 := match old with
                 | None => replicate n 0%N
                 | Some c => replicate n 0%N ++ drop n c
                 end in
  n <= length counts0 /\ forall p, p < n -> counts0 !!! p = 0%N.
Proof.
  destruct old as [c|]; simpl.
  - rewrite length_app, length_replicate. split; [lia|].
    intros p Hp. rewrite lookup_total_app_l by (rewrite length_replicate; lia).
    apply lookup_total_replicate_2. exact Hp.
  - rewrite length_replicate. split; [lia|].
    intros p Hp. apply lookup_total_replicate_2. exact Hp.
Qed.

(** The outcome of [build_counts] in terms of the count cells the loop
    touches. *)
Lemma build_counts_by_hits data m :
  in_range data m ->
  best_matching_units (build_counts data m) = best_matching_units m
  /\ ((exists p, (MAX_COUNT - 1 < hits data m p)%N) ->
      counts (build_counts data m) = None)
  /\ ((forall p, (hits data m p <= MAX_COUNT - 1)%N) ->
      exists c, counts (build_counts data m) = Some c
        /\ forall p, p < num_cells m * vocabulary_size m ->
             c !!! p = hits data m p).
Proof.
  intros Hin. pose proof (targets_in_range data m Hin) as Ht.
  destruct Hin as (Hsz & _ & _).
  unfold build_counts; simpl.
  set (n := u32n (num_cells m * vocabulary_size m)) in *.
  destruct (initial_counts (counts m) n) as [Hlen Hzero].
  set (counts0 := match counts m with
                  | None => replicate n 0%N
                  | Some c => replicate n 0%N ++ drop n c
                  end) in *.
  rewrite count_rows_as_list. fold (targets data m).
  assert (Hr : Forall (fun p => p < length counts0) (targets data m)).
  { eapply Forall_impl; [exact Ht|]. simpl. intros p Hp. lia. }
  split; [reflexivity|]. split.
  - intros [p Hp]. unfold hits in Hp.
    assert (Hpn : p < n).
    { assert (Hocc : count_occ Nat.eq_dec (targets data m) p > 0)
        by (unfold MAX_COUNT in Hp; lia).
      apply count_occ_In in Hocc. rewrite Forall_forall in Ht.
      apply Ht. apply list_elem_of_In. exact Hocc. }
    apply (count_list_aborts _ _ p); try assumption.
    + lia.
    + rewrite (Hzero p Hpn). unfold MAX_COUNT. lia.
    + rewrite (Hzero p Hpn). lia.
  - intros Hcap.
    destruct (count_list_completes (targets data m) counts0 Hr)
      as (c & Hc & _ & Hv).
    + intros p Hp Hpos.
      assert (Hpn : p < n).
      { apply count_occ_In in Hpos. rewrite Forall_forall in Ht.
        apply Ht. apply list_elem_of_In. exact Hpos. }
      rewrite (Hzero p Hpn). apply (Hcap p).
    + exists c. split; [exact Hc|].
      intros p Hp. unfold n in *. rewrite u32n_small in * by lia.
      rewrite (Hv p ltac:(lia)), (Hzero p Hp). reflexivity.
Qed.

Lemma example_in_range : in_range Examples.corpus Examples.smap.
Proof.
  unfold in_range. split; [simpl; lia|]. split.
  - intros row Hrow. simpl in Hrow.
    destruct row as [|[|[|row]]]; try lia; vm_compute; lia.
  - intros row i Hrow Hi. simpl in Hrow.
    destruct row as [|[|[|row]]]; try lia;
      (destruct i as [|[|i]];
       [vm_compute; lia | vm_compute in Hi |- *; lia
       | exfalso; vm_compute in Hi; lia]).
Qed.

Lemma targets_as_entries data m :
  targets data m
  = map (fun e => count_index (num_cells m)
                    (indices_in_row data (fst e) (snd e))
                    (best_matching_units m !!! fst e))
        (entries data).
Proof.
  unfold targets, entries.
  induction (seq 0 (num_rows data)) as [|row rows IH]; [reflexivity|].
  cbn [flat_map]. rewrite map_app, IH. f_equal.
  unfold row_targets. rewrite map_map. reflexivity.
Qed.

Lemma count_occ_map_filter {A} (f : A -> nat) (l : list A) p :
  count_occ Nat.eq_dec (map f l) p
  = length (List.filter (fun x => f x =? p) l).
Proof.
  induction l as [|x l IH]; [reflexivity|].
  cbn [map count_occ List.filter].
  destruct (Nat.eq_dec (f x) p) as [E|E].
  - rewrite (proj2 (Nat.eqb_eq _ _) E). cbn [length]. rewrite IH. reflexivity.
  - rewrite (proj2 (Nat.eqb_neq _ _) E). exact IH.
Qed.

Lemma entries_in_range data e :
  In e (entries data) ->
  fst e < num_rows data /\ snd e < num_indices_in_row data (fst e).
Proof.
  unfold entries. intros Hin. apply in_flat_map in Hin.
  destruct Hin as (row & Hrow & Hin). apply in_map_iff in Hin.
  destruct Hin as (i & <- & Hi). apply in_seq in Hrow. apply in_seq in Hi.
  cbn [fst snd]. lia.
Qed.

(** With the subscripts in range, the count cell [num_cells * v + b] is
    hit by exactly the entries with index [v] and best-matching unit [b]. *)
Lemma hits_at_cell data m v b :
  in_range data m -> b < num_cells m ->
  hits data m (num_cells m * v + b) = pair_count data m v b.
Proof.
  intros (Hsz & Hb & Hi) Hcell. unfold hits, pair_count. f_equal.
  rewrite targets_as_entries, count_occ_map_filter. f_equal.
  apply List.filter_ext_in. intros e He.
  destruct (entries_in_range data e He) as [Hrow Hpos].
  specialize (Hb _ Hrow). specialize (Hi _ _ Hrow Hpos).
  unfold count_index. rewrite u32n_small by nia.
  set (x := indices_in_row data (fst e) (snd e)) in *.
  set (u := best_matching_units m !!! fst e) in *.
  destruct (Nat.eqb_spec u b) as [Eu|Eu];
  destruct (Nat.eqb_spec x v) as [Ex|Ex];
  destruct (Nat.eqb_spec (num_cells m * x + u) (num_cells m * v + b))
    as [Ep|Ep]; cbn [andb]; try reflexivity; exfalso.
  - apply Ep. subst. reflexivity.
  - apply Ex. subst u. nia.
  - apply Eu.
    assert (Hm : (num_cells m * x + u) mod num_cells m
                 = (num_cells m * v + b) mod num_cells m) by (rewrite Ep; reflexivity).
    rewrite !(Nat.add_comm (num_cells m * _)), !(Nat.mul_comm (num_cells m)),
            !Nat.Div0.mod_add, !Nat.mod_small in Hm by assumption.
    exact Hm.
  - apply Eu.
    assert (Hm : (num_cells m * x + u) mod num_cells m
                 = (num_cells m * v + b) mod num_cells m) by (rewrite Ep; reflexivity).
    rewrite !(Nat.add_comm (num_cells m * _)), !(Nat.mul_comm (num_cells m)),
            !Nat.Div0.mod_add, !Nat.mod_small in Hm by assumption.
    exact Hm.
Qed.

(** A count cell that is hit is the cell of some vocabulary entry and
    some best-matching unit. *)
Lemma hit_cell_decomposes data m p :
  in_range data m -> (0 < hits data m p)%N ->
  exists v b, b < num_cells m /\ p = num_cells m * v + b.
Proof.
  intros Hin Hpos. pose proof Hin as (Hsz & Hb & Hi). unfold hits in Hpos.
  assert (Hocc : count_occ Nat.eq_dec (targets data m) p > 0) by lia.
  apply count_occ_In in Hocc. rewrite targets_as_entries in Hocc.
  apply in_map_iff in Hocc. destruct Hocc as (e & <- & He).
  destruct (entries_in_range data e He) as [Hrow Hpos'].
  specialize (Hb _ Hrow). specialize (Hi _ _ Hrow Hpos').
  exists (indices_in_row data (fst e) (snd e)),
         (best_matching_units m !!! fst e).
  split; [exact Hb|]. unfold count_index. apply u32n_small. nia.
Qed.

(** A positive pair count names a best-matching unit of some row. *)
Lemma counted_unit_is_cell data m v b :
  in_range data m -> (0 < pair_count data m v b)%N -> b < num_cells m.
Proof.
  intros (Hsz & Hb & Hi) Hpos. unfold pair_count in Hpos.
  destruct (List.filter _ (entries data)) as [|e l] eqn:Ef;
    [simpl in Hpos; lia|].
  assert (He : In e (List.filter
                (fun e => (best_matching_units m !!! fst e =? b)
                          && (indices_in_row data (fst e) (snd e) =? v))
                (entries data))) by (rewrite Ef; left; reflexivity).
  apply filter_In in He. destruct He as [He Hp].
  apply andb_prop in Hp. destruct Hp as [Hu _]. apply Nat.eqb_eq in Hu.
  destruct (entries_in_range data e He) as [Hrow _].
  rewrite <- Hu. apply Hb. exact Hrow.
Qed.

(** C9. With the subscripts in range, [build_counts] leaves the
    best-matching units as they are; it drops the count tensor exactly
    when, for some vocabulary entry v and cell b, more than 2^32 - 2
    entries of the corpus have sparse index v in a row with best-matching
    unit b, and otherwise counts[num_cells * v + b] holds the number of
    these entries, each having added one. *)
Theorem build_counts_capacity data m :
  in_range data m ->
  best_matching_units (build_counts data m) = best_matching_units m
  /\ ((exists v b, (MAX_COUNT - 1 < pair_count data m v b)%N) ->
      counts (build_counts data m) = None)
  /\ ((forall v b, (pair_count data m v b <= MAX_COUNT - 1)%N) ->
      exists c, counts (build_counts data m) = Some c
        /\ forall v b, v < vocabulary_size m -> b < num_cells m ->
             c !!! (num_cells m * v + b) = pair_count data m v b).
Proof.
  intros Hin.
  destruct (build_counts_by_hits data m Hin)
    as (Hbmu & Habort & Hdone).
  split; [exact Hbmu|]. split.
  - intros (v & b & Hgt). apply Habort.
    exists (num_cells m * v + b).
    rewrite hits_at_cell; [exact Hgt|exact Hin|].
    apply (counted_unit_is_cell data m v b Hin). unfold MAX_COUNT in Hgt. lia.
  - intros Hcap. destruct Hdone as (c & Hc & Hv).
    + intros p. destruct (N.eq_dec (hits data m p) 0%N) as [Hz|Hnz].
      * rewrite Hz. unfold MAX_COUNT. lia.
      * destruct (hit_cell_decomposes data m p Hin ltac:(lia))
          as (v & b & Hb & ->).
        rewrite hits_at_cell by assumption. apply Hcap.
    + exists c. split; [exact Hc|]. intros v b Hv' Hb.
      rewrite Hv by nia. apply hits_at_cell; assumption.
Qed.

Lemma build_counts_capacity_witness :
  exists c, counts (build_counts Examples.corpus Examples.smap) = Some c
    /\ forall v b, v < 3 -> b < 2 ->
         c !!! (2 * v + b) = pair_count Examples.corpus Examples.smap v b.
Proof.
  refine (proj2 (proj2 (build_counts_capacity Examples.corpus Examples.smap
                          example_in_range)) _).
  intros v b. unfold pair_count.
  pose proof (List.filter_length_le
                (fun e => (best_matching_units Examples.smap !!! fst e =? b)
                          && (indices_in_row Examples.corpus (fst e) (snd e)
                              =? v))
                (entries Examples.corpus)) as Hle.
  change (length (entries Examples.corpus)) with 5 in Hle.
  unfold MAX_COUNT. lia.
Defined.

End SemanticMapFacts.

(** ** Best-matching-unit search *)

Module CodebookFacts.
Import Data Codebook CodebookSpec.

(** *** The dual search, one (cell, row) pair at a time *)

Lemma dual_row_step_improves data eff cell w w_squared st row :
  num_indices_in_row data row <> 0 ->
  indices_in_row data row 0 < eff ->
  (dual_distance data eff w w_squared row < distances st !!! row)%R ->
  dual_row_step data eff cell w w_squared st row
  = {| next_best_matching_units :=
         <[row := best_matching_units st !!! row]> (next_best_matching_units st);
       next_distances := <[row := distances st !!! row]> (next_distances st);
       best_matching_units := <[row := cell]> (best_matching_units st);
       distances :=
         <[row := Rmax 0 (dual_distance data eff w w_squared row)]>
           (distances st) |}.
Proof.
  intros Hn Hi Hd. unfold dual_row_step.
  destruct (Nat.eqb_spec (num_indices_in_row data row) 0) as [|_]; [tauto|].
  destruct (Nat.leb_spec eff (indices_in_row data row 0)) as [|_]; [lia|].
  destruct (Rlt_dec _ _) as [_|Hc]; [reflexivity|tauto].
Qed.

Lemma dual_row_step_keeps data eff cell w w_squared st row :
  ~ (dual_distance data eff w w_squared row < distances st !!! row)%R ->
  dual_row_step data eff cell w w_squared st row = st.
Proof.
  intros Hd. unfold dual_row_step.
  destruct (_ =? _); [reflexivity|]. destruct (_ <=? _); [reflexivity|].
  destruct (Rlt_dec _ _) as [Hc|_]; [tauto|reflexivity].
Qed.

(** Closed subscripts are computed; what remains is real arithmetic. *)
Ltac eval_nat :=
  repeat match goal with
  | |- context [u32n ?n] =>
      let v := eval vm_compute in (u32n n) in
      progress change (u32n n) with v
  | |- context [num_indices_in_row ?m ?r] =>
      let v := eval vm_compute in (num_indices_in_row m r) in
      progress change (num_indices_in_row m r) with v
  | |- context [indices_in_row ?m ?r ?i] =>
      let v := eval vm_compute in (indices_in_row m r i) in
      progress change (indices_in_row m r i) with v
  | |- context [weights_in_row ?m ?r ?i] =>
      let v := eval vm_compute in (weights_in_row m r i) in
      progress change (weights_in_row m r i) with v
  | |- context [Z.of_nat ?n] =>
      let v := eval vm_compute in (Z.of_nat n) in
      progress change (Z.of_nat n) with v
  end.

Ltac eval_distance :=
  unfold dual_distance, product, product_with_weights, vec_squared, dual_w,
         ptr_at, squared, R_of_nat;
  repeat (eval_nat; cbn); try lra.

Lemma next_best_example_distances :
  let d c := dual_distance CodebookExamples.one_row 1
               (dual_w CodebookExamples.three_cells 1 c)
               (vec_squared (dual_w CodebookExamples.three_cells 1 c) 1) 0 in
  d 0 = 0%R /\ d 1 = 1%R /\ d 2 = (1 / 4)%R.
Proof. repeat split; eval_distance. Qed.

Ltac eval_surrogate :=
  unfold surrogate, norm_squared, inner_product, prototype, squared, R_of_nat;
  repeat (eval_nat; cbn); try lra.

Lemma next_best_example_surrogates :
  let s := surrogate CodebookExamples.three_cells CodebookExamples.one_row 1 0 in
  s 0 = 0%R /\ s 1 = 1%R /\ s 2 = (1 / 4)%R.
Proof. repeat split; eval_surrogate. Qed.

(** C2, failing input.  Three cells with prototypes 1, 0, 1/2 and one row
    holding term 0: the surrogate distances are 0, 1 and 1/4.  Cell 0 is
    the best-matching unit and cell 2 the best among the others, but the
    search only records a runner-up when the best cell changes: it
    returns cell 0, the best-matching unit itself, as next-best. *)
Theorem next_best_is_not_argmin_excluding_best :
  let found := find_best_and_next_best_matching_units
                 CodebookExamples.three_cells CodebookExamples.one_row 0 in
  best_matching_units found = [0]
  /\ next_best_matching_units found = [0]
  /\ distances found = [0%R]
  /\ next_distances found = [MAX_REAL_DISTANCE]
  /\ is_next_best CodebookExamples.three_cells CodebookExamples.one_row
                  1 0 0 2.
Proof.
  destruct next_best_example_distances as (D0 & D1 & D2).
  destruct next_best_example_surrogates as (S0 & S1 & S2).
  assert (E : find_best_and_next_best_matching_units
                CodebookExamples.three_cells CodebookExamples.one_row 0
              = {| best_matching_units := [0];
                   distances := [0%R];
                   next_best_matching_units := [0];
                   next_distances := [MAX_REAL_DISTANCE] |}).
  { unfold find_best_and_next_best_matching_units.
    change (0 <? 0) with false. cbv iota.
    change (Codebook.input_dim CodebookExamples.three_cells) with 1.
    change (Codebook.num_cells CodebookExamples.three_cells) with 3.
    change (num_rows CodebookExamples.one_row) with 1.
    change (seq 0 3) with [0; 1; 2]. change (replicate 1 0) with [0].
    change (replicate 1 MAX_REAL_DISTANCE) with [MAX_REAL_DISTANCE].
    cbn [fold_left]. unfold dual_cell_step.
    change (num_rows CodebookExamples.one_row) with 1.
    change (seq 0 1) with [0]. cbn [fold_left].
    rewrite (dual_row_step_improves _ _ 0);
      [| vm_compute; lia | vm_compute; lia
       | rewrite D0; cbn; unfold MAX_REAL_DISTANCE; lra].
    rewrite D0, (Rmax_left 0 0) by lra.
    rewrite (dual_row_step_keeps _ _ 1) by (rewrite D1; cbn; lra).
    rewrite (dual_row_step_keeps _ _ 2) by (rewrite D2; cbn; lra).
    reflexivity. }
  cbv zeta. rewrite E. unfold is_next_best.
  change (Codebook.num_cells CodebookExamples.three_cells) with 3.
  cbn [best_matching_units next_best_matching_units distances next_distances].
  repeat split; try lia.
  - intros c' Hc Hne. rewrite S2.
    destruct c' as [|[|[|c']]]; try lia; [rewrite S1|rewrite S2]; lra.
  - intros c' Hc Hne. rewrite S2.
    destruct c' as [|[|c']]; try lia. rewrite S1. lra.
Qed.

Lemma stride_example_distances :
  let d c := dual_distance CodebookExamples.one_row_two_terms 1
               (dual_w CodebookExamples.two_cells 1 c)
               (vec_squared (dual_w CodebookExamples.two_cells 1 c) 1) 0 in
  d 0 = (1 / 4)%R /\ d 1 = (1 / 16)%R.
Proof. repeat split; eval_distance. Qed.

Lemma stride_example_surrogates :
  let s := surrogate CodebookExamples.two_cells
                     CodebookExamples.one_row_two_terms 1 0 in
  s 0 = (13 / 16)%R /\ s 1 = 2%R.
Proof. repeat split; eval_surrogate. Qed.

(** The weighted product multiplies by [weights[idx]], the entry of the
    row's weight array at the vocabulary index, whatever the position of
    the index in the row. *)
Lemma product_with_weights_single indices values weights eff :
  indices 0 < eff ->
  product_with_weights indices 1 values weights eff
  = (0 + values (indices 0%nat) * R_of_nat (weights (indices 0%nat)))%R.
Proof.
  intros H. unfold product_with_weights. simpl.
  destruct (Nat.ltb_spec (indices 0) eff); [reflexivity|lia].
Qed.

(** On [weighted_rows], row 0 stores weight 3 with its term, and the
    product uses 5, the weight stored with row 1. *)
Lemma product_with_weights_reads_other_weight values :
  weights_in_row CodebookExamples.weighted_rows 0 0 = 3
  /\ product_with_weights
       (indices_in_row CodebookExamples.weighted_rows 0)
       (num_indices_in_row CodebookExamples.weighted_rows 0)
       values (weights_in_row CodebookExamples.weighted_rows 0) 2
     = (0 + values 1%nat * 5)%R.
Proof.
  split; [reflexivity|].
  change (num_indices_in_row CodebookExamples.weighted_rows 0) with 1.
  rewrite product_with_weights_single by (vm_compute; lia).
  reflexivity.
Qed.

(** C1, failing input.  Two cells with prototypes (1/2, 3/4) and (0, 1),
    one row holding term 0, cutoff 1.  The dual search places the
    prototype of cell 1 at [array + 1 * cutoff], which is the second entry
    of cell 0: it computes 1/16 for cell 1 and returns cell 1, while the
    surrogate distance over the prototype vectors is 13/16 for cell 0 and
    2 for cell 1. *)
Theorem dual_search_reads_wrong_prototype :
  let found := find_best_and_next_best_matching_units
                 CodebookExamples.two_cells
                 CodebookExamples.one_row_two_terms 1 in
  dual_w CodebookExamples.two_cells 1 1 0
    = prototype CodebookExamples.two_cells 0 1
  /\ best_matching_units found = [1]
  /\ distances found = [(1 / 16)%R]
  /\ surrogate CodebookExamples.two_cells
               CodebookExamples.one_row_two_terms 1 0 0 = (13 / 16)%R
  /\ surrogate CodebookExamples.two_cells
               CodebookExamples.one_row_two_terms 1 0 1 = 2%R.
Proof.
  destruct stride_example_distances as (D0 & D1).
  destruct stride_example_surrogates as (S0 & S1).
  assert (E : find_best_and_next_best_matching_units
                CodebookExamples.two_cells
                CodebookExamples.one_row_two_terms 1
              = {| best_matching_units := [1];
                   distances := [(1 / 16)%R];
                   next_best_matching_units := [0];
                   next_distances := [(1 / 4)%R] |}).
  { unfold find_best_and_next_best_matching_units.
    change (0 <? 1) with true. cbv iota.
    change (Codebook.num_cells CodebookExamples.two_cells) with 2.
    change (num_rows CodebookExamples.one_row_two_terms) with 1.
    change (seq 0 2) with [0; 1]. change (replicate 1 0) with [0].
    change (replicate 1 MAX_REAL_DISTANCE) with [MAX_REAL_DISTANCE].
    cbn [fold_left]. unfold dual_cell_step.
    change (num_rows CodebookExamples.one_row_two_terms) with 1.
    change (seq 0 1) with [0]. cbn [fold_left].
    rewrite (dual_row_step_improves _ _ 0);
      [| vm_compute; lia | vm_compute; lia
       | rewrite D0; cbn; unfold MAX_REAL_DISTANCE; lra].
    rewrite D0, (Rmax_right 0 (1 / 4)) by lra.
    rewrite (dual_row_step_improves _ _ 1);
      [| vm_compute; lia | vm_compute; lia | rewrite D1; cbn; lra].
    rewrite D1, (Rmax_right 0 (1 / 16)) by lra.
    reflexivity. }
  cbv zeta. rewrite E.
  cbn [best_matching_units distances].
  repeat split; try assumption.
Qed.

End CodebookFacts.

(** ** Batch update *)

Module BatchFacts.
Import Data Codebook CodebookSpec.

Lemma numerator_loop_length indices eff lr k i (num : list R) :
  length (numerator_loop indices eff lr k i num) = length num.
Proof.
  revert i num. induction k as [|k IH]; intros i num; simpl; [reflexivity|].
  destruct (_ <=? _); [reflexivity|]. rewrite IH. apply length_insert.
Qed.

Lemma numerator_loop_lookup indices eff lr k i (num : list R) d :
  d < length num ->
  numerator_loop indices eff lr k i num !!! d
  = (num !!! d + INR (touch_count indices eff k i d) * lr)%R.
Proof.
  revert i num. induction k as [|k IH]; intros i num Hd; simpl.
  - lra.
  - destruct (eff <=? indices i); [simpl; lra|].
    rewrite IH by (rewrite length_insert; exact Hd).
    destruct (Nat.eqb_spec (indices i) d) as [->|Hne].
    + rewrite list_lookup_total_insert_eq by exact Hd.
      rewrite plus_INR. simpl. lra.
    + rewrite list_lookup_total_insert_ne by exact Hne.
      simpl. lra.
Qed.

Lemma touch_count_absent indices eff k i d :
  (forall j, i <= j < i + k -> indices j <> d) ->
  touch_count indices eff k i d = 0.
Proof.
  revert i. induction k as [|k IH]; intros i H; simpl; [reflexivity|].
  destruct (_ <=? _); [reflexivity|].
  destruct (Nat.eqb_spec (indices i) d) as [E|_].
  - exfalso. apply (H i); [lia|exact E].
  - rewrite IH; [reflexivity|]. intros j Hj. apply H. lia.
Qed.

Lemma existsb_absent d indices i k :
  (forall j, i <= j < i + k -> indices j <> d) ->
  existsb (Nat.eqb d) (map indices (seq i k)) = false.
Proof.
  revert i. induction k as [|k IH]; intros i H; simpl; [reflexivity|].
  destruct (Nat.eqb_spec d (indices i)) as [E|_].
  - exfalso. apply (H i); [lia|congruence].
  - apply IH. intros j Hj. apply H. lia.
Qed.

(** On an ascending run of indices the loop touches slot [d] once if the
    run holds [d] and [d] is below the cutoff, and never otherwise. *)
Lemma touch_count_ascending indices eff k i d :
  (forall j1 j2, i <= j1 -> j1 < j2 -> j2 < i + k -> indices j1 < indices j2) ->
  touch_count indices eff k i d
  = if (d <? eff) && existsb (Nat.eqb d) (map indices (seq i k))
    then 1 else 0.
Proof.
  revert i. induction k as [|k IH]; intros i Hasc; simpl.
  - rewrite andb_false_r. reflexivity.
  - assert (Hlater : forall j, S i <= j < S i + k -> indices i < indices j).
    { intros j Hj. apply Hasc; lia. }
    destruct (Nat.leb_spec eff (indices i)) as [Hge|Hlt].
    + destruct (Nat.ltb_spec d eff) as [Hd|Hd]; [|reflexivity]. simpl.
      destruct (Nat.eqb_spec d (indices i)) as [E|_]; [lia|]. simpl.
      rewrite existsb_absent; [reflexivity|].
      intros j Hj. specialize (Hlater j Hj). lia.
    + destruct (Nat.eqb_spec (indices i) d) as [E|Hne].
      * subst d. rewrite Nat.eqb_refl. simpl.
        destruct (Nat.ltb_spec (indices i) eff) as [_|]; [|lia]. simpl.
        rewrite touch_count_absent; [reflexivity|].
        intros j Hj. specialize (Hlater j Hj). lia.
      * destruct (Nat.eqb_spec d (indices i)) as [E|_]; [congruence|]. simpl.
        apply IH. intros j1 j2 H1 H2 H3. apply Hasc; lia.
Qed.

Lemma row_touch_count data eff row d :
  row_ascending data row ->
  touch_count (indices_in_row data row) eff (num_indices_in_row data row) 0 d
  = if row_has data eff d row then 1 else 0.
Proof.
  intros Hasc. unfold row_has, row_indices.
  apply touch_count_ascending. intros j1 j2 _ H1 H2. apply Hasc; lia.
Qed.

Lemma batch_row_step_cases data nb (bmus : list nat) eff c st row :
  batch_row_step data nb bmus eff c st row
  = if positive_rate nb bmus c row
    then ((fst st + learning_rate nb bmus c row)%R,
          numerator_loop (indices_in_row data row) eff
            (learning_rate nb bmus c row) (num_indices_in_row data row) 0
            (snd st))
    else st.
Proof.
  unfold batch_row_step, positive_rate. fold (learning_rate nb bmus c row).
  destruct (Rle_dec _ 0), (Rlt_dec 0 _); try reflexivity; lra.
Qed.

Lemma batch_rows_fold data nb (bmus : list nat) eff c rows den0 (num0 : list R) :
  (forall row, In row rows -> row_ascending data row) ->
  let st := fold_left (batch_row_step data nb bmus eff c) rows (den0, num0) in
  fst st = (den0 + sum_R (map (learning_rate nb bmus c)
                              (List.filter (positive_rate nb bmus c) rows)))%R
  /\ length (snd st) = length num0
  /\ forall d, d < length num0 ->
       snd st !!! d
       = (num0 !!! d
          + sum_R (map (learning_rate nb bmus c)
                       (List.filter (row_has data eff d)
                          (List.filter (positive_rate nb bmus c) rows))))%R.
Proof.
  revert den0 num0. induction rows as [|row rows IH]; intros den0 num0 Hasc.
  - simpl. repeat split; try lra. intros d _. lra.
  - cbn [fold_left List.filter]. cbv zeta in IH |- *.
    rewrite batch_row_step_cases.
    assert (Hrest : forall r, In r rows -> row_ascending data r)
      by (intros r Hr; apply Hasc; right; exact Hr).
    destruct (positive_rate nb bmus c row).
    + cbn [fst snd].
      destruct (IH (den0 + learning_rate nb bmus c row)%R
                   (numerator_loop (indices_in_row data row) eff
                      (learning_rate nb bmus c row)
                      (num_indices_in_row data row) 0 num0) Hrest)
        as (Hden & Hlen & Hnum).
      rewrite numerator_loop_length in Hlen, Hnum.
      split; [rewrite Hden; simpl; lra|]. split; [exact Hlen|].
      intros d Hd. rewrite (Hnum d Hd).
      rewrite numerator_loop_lookup by exact Hd.
      rewrite row_touch_count by (apply Hasc; left; reflexivity).
      cbn [List.filter]. destruct (row_has data eff d row); simpl; lra.
    + apply IH. exact Hrest.
Qed.

Lemma batch_sums_spec cb data nb (bmus : list nat) eff c :
  (forall row, row < num_rows data -> row_ascending data row) ->
  let sums := batch_sums cb data nb bmus eff c in
  fst sums = denominator data nb bmus c
  /\ length (snd sums) = input_dim cb
  /\ forall d, d < input_dim cb ->
       snd sums !!! d = numerator data nb bmus eff c d.
Proof.
  intros Hasc. unfold batch_sums.
  destruct (batch_rows_fold data nb bmus eff c (seq 0 (num_rows data)) 0%R
              (replicate (input_dim cb) 0%R)) as (Hden & Hlen & Hnum).
  { intros row Hin. apply Hasc. apply in_seq in Hin. lia. }
  rewrite length_replicate in Hlen, Hnum.
  split; [rewrite Hden; unfold denominator, contributing_rows; lra|].
  split; [exact Hlen|].
  intros d Hd. rewrite (Hnum d Hd).
  rewrite lookup_total_replicate_2 by exact Hd.
  unfold numerator, contributing_rows. lra.
Qed.

(** Every term of the numerator is a term of the denominator. *)
Lemma sum_R_filter_bounds (f : nat -> R) (p : nat -> bool) rows :
  (forall row, In row rows -> (0 < f row)%R) ->
  (0 <= sum_R (map f (List.filter p rows)) <= sum_R (map f rows))%R.
Proof.
  induction rows as [|row rows IH]; intros Hpos; simpl; [lra|].
  assert (Hr : (0 < f row)%R) by (apply Hpos; left; reflexivity).
  assert (Hrest : (0 <= sum_R (map f (List.filter p rows))
                   <= sum_R (map f rows))%R)
    by (apply IH; intros r Hin; apply Hpos; right; exact Hin).
  destruct (p row); simpl; lra.
Qed.

Lemma numerator_bounds data nb (bmus : list nat) eff c d :
  (0 <= numerator data nb bmus eff c d <= denominator data nb bmus c)%R.
Proof.
  unfold numerator, denominator. apply sum_R_filter_bounds.
  intros row Hin. unfold contributing_rows in Hin.
  apply filter_In in Hin. destruct Hin as [_ Hp]. unfold positive_rate in Hp.
  destruct (Rlt_dec 0 (learning_rate nb bmus c row)); [assumption|discriminate].
Qed.

(** *** The write-back and the loop over the target cells *)

Lemma write_fold_length (f : nat -> R) off l (a : list R) :
  length (fold_left (fun a i => <[(off + i)%nat := f i]> a) l a) = length a.
Proof.
  revert a. induction l as [|i l IH]; intros a; simpl; [reflexivity|].
  rewrite IH. apply length_insert.
Qed.

Lemma write_fold_lookup (f : nat -> R) off s n (a : list R) p :
  p < length a ->
  fold_left (fun a i => <[(off + i)%nat := f i]> a) (seq s n) a !!! p
  = if (off + s <=? p) && (p <? off + s + n) then f (p - off) else a !!! p.
Proof.
  revert s a. induction n as [|n IH]; intros s a Hp; simpl.
  - destruct (off + s <=? p) eqn:E1, (p <? off + s + 0) eqn:E2;
      try reflexivity.
    apply Nat.leb_le in E1. apply Nat.ltb_lt in E2. lia.
  - rewrite IH by (rewrite length_insert; exact Hp).
    destruct (Nat.leb_spec (off + S s) p), (Nat.ltb_spec p (off + S s + n));
      destruct (Nat.leb_spec (off + s) p), (Nat.ltb_spec p (off + s + S n));
      simpl; try lia; try reflexivity;
      try (rewrite list_lookup_total_insert_ne by lia; reflexivity).
    assert (p = off + s) as -> by lia.
    rewrite list_lookup_total_insert_eq by lia. f_equal. lia.
Qed.

Lemma write_cell_lookup cb c0 den (num : list R) (a : list R) c d :
  (Z.of_nat (c0 * input_dim cb) < 4294967296)%Z ->
  d < input_dim cb -> c * input_dim cb + d < length a ->
  write_cell cb c0 den num a !!! (c * input_dim cb + d)
  = if c =? c0 then (num !!! d / den)%R else a !!! (c * input_dim cb + d).
Proof.
  intros Hfit Hd Hp. unfold write_cell.
  rewrite u32n_small by exact Hfit.
  rewrite (write_fold_lookup (fun i => (num !!! i / den)%R)) by exact Hp.
  destruct (Nat.eqb_spec c c0) as [->|Hne].
  - destruct (Nat.leb_spec (c0 * input_dim cb + 0) (c0 * input_dim cb + d)),
      (Nat.ltb_spec (c0 * input_dim cb + d) (c0 * input_dim cb + 0 + input_dim cb));
      simpl; try lia. f_equal. f_equal. lia.
  - destruct (Nat.leb_spec (c0 * input_dim cb + 0) (c * input_dim cb + d)),
      (Nat.ltb_spec (c * input_dim cb + d) (c0 * input_dim cb + 0 + input_dim cb));
      simpl; try reflexivity. exfalso. nia.
Qed.

Lemma batch_cell_step_shape data nb (bmus : list nat) eff cb c0 :
  let cb' := batch_cell_step data nb bmus eff cb c0 in
  input_dim cb' = input_dim cb /\ num_cells cb' = num_cells cb
  /\ length (array cb') = length (array cb).
Proof.
  unfold batch_cell_step. destruct (Req_dec_T _ 0); simpl.
  - repeat split.
  - repeat split. unfold write_cell. apply write_fold_length.
Qed.

Lemma batch_cell_step_entry data nb (bmus : list nat) eff cb c0 c d :
  (forall row, row < num_rows data -> row_ascending data row) ->
  (Z.of_nat (c0 * input_dim cb) < 4294967296)%Z ->
  d < input_dim cb -> c * input_dim cb + d < length (array cb) ->
  prototype (batch_cell_step data nb bmus eff cb c0) c d
  = if c =? c0 then updated_entry data nb bmus eff c d (prototype cb c d)
    else prototype cb c d.
Proof.
  intros Hasc Hfit Hd Hp.
  destruct (batch_sums_spec cb data nb bmus eff c0 Hasc) as (Hden & Hlen & Hnum).
  unfold batch_cell_step, prototype, updated_entry.
  rewrite Hden.
  destruct (Nat.eqb_spec c c0) as [->|Hne].
  - destruct (Req_dec_T (denominator data nb bmus c0) 0); [reflexivity|].
    simpl. rewrite write_cell_lookup by assumption.
    rewrite Nat.eqb_refl, (Hnum d Hd). reflexivity.
  - destruct (Req_dec_T (denominator data nb bmus c0) 0); [reflexivity|].
    simpl. rewrite write_cell_lookup by assumption.
    destruct (Nat.eqb_spec c c0); [contradiction|reflexivity].
Qed.

Lemma batch_cells_fold data nb (bmus : list nat) eff cs cb c d :
  (forall row, row < num_rows data -> row_ascending data row) ->
  (forall c0, In c0 cs -> (Z.of_nat (c0 * input_dim cb) < 4294967296)%Z) ->
  d < input_dim cb -> c * input_dim cb + d < length (array cb) ->
  let cb' := fold_left (batch_cell_step data nb bmus eff) cs cb in
  input_dim cb' = input_dim cb /\ num_cells cb' = num_cells cb
  /\ length (array cb') = length (array cb)
  /\ prototype cb' c d
     = if existsb (Nat.eqb c) cs
       then updated_entry data nb bmus eff c d (prototype cb c d)
       else prototype cb c d.
Proof.
  intros Hasc. revert cb. induction cs as [|c0 cs IH]; intros cb Hfit Hd Hp.
  - simpl. repeat split.
  - cbn [fold_left existsb]. cbv zeta in IH |- *.
    destruct (batch_cell_step_shape data nb bmus eff cb c0) as (E1 & E2 & E3).
    destruct (IH (batch_cell_step data nb bmus eff cb c0)) as (F1 & F2 & F3 & F4).
    + intros c1 Hin. rewrite E1. apply Hfit. right. exact Hin.
    + rewrite E1. exact Hd.
    + rewrite E1, E3. exact Hp.
    + rewrite F1, F2, F3, F4, E1, E2, E3. repeat split.
      rewrite batch_cell_step_entry; try assumption;
        [|apply Hfit; left; reflexivity].
      destruct (Nat.eqb_spec c c0) as [->|Hne]; simpl.
      * unfold updated_entry.
        destruct (existsb (Nat.eqb c0) cs), (Req_dec_T _ 0); reflexivity.
      * reflexivity.
Qed.

Lemma existsb_seq c n : c < n -> existsb (Nat.eqb c) (seq 0 n) = true.
Proof.
  intros H. apply existsb_exists. exists c. split.
  - apply in_seq. lia.
  - apply Nat.eqb_refl.
Qed.

Lemma ratio_in_unit_interval n d :
  (0 <= n <= d)%R -> d <> 0%R -> unit_interval (n / d).
Proof.
  intros [Hn Hd] Hne. assert (Hpos : (0 < d)%R) by lra.
  unfold unit_interval. split.
  - apply Rmult_le_pos; [exact Hn|]. left. apply Rinv_0_lt_compat. exact Hpos.
  - apply (Rmult_le_reg_r d); [exact Hpos|].
    unfold Rdiv. rewrite Rmult_assoc, Rinv_l by exact Hne. lra.
Qed.

Lemma init_in_unit_interval uniform cb :
  (forall i, unit_interval (uniform i)) ->
  Forall unit_interval (array (init uniform cb)).
Proof.
  intros H. unfold init. simpl. apply Forall_map. apply Forall_forall.
  intros i _. apply H.
Qed.

(** C6. After [init] every entry is a draw of the unit-interval
    distribution.  On a corpus with ascending rows, the batch update
    leaves at entry [d] of cell [c] the ratio numerator / denominator of
    the specification when the denominator is not zero, with
    0 <= numerator <= denominator, and the previous value otherwise; so
    entries in [0, 1] stay in [0, 1]. *)
Theorem batch_update_keeps_unit_interval cb data nb (bmus : list nat)
    cutoff uniform :
  Data.well_formed data ->
  well_shaped cb ->
  ((forall i, unit_interval (uniform i)) ->
   Forall unit_interval (array (init uniform cb)))
  /\ forall c d, c < num_cells cb -> d < input_dim cb ->
       let eff := if 0 <? cutoff then cutoff else input_dim cb in
       let cb' := apply_batch_som_update cb data nb bmus cutoff in
       let num := numerator data nb bmus eff c d in
       let den := denominator data nb bmus c in
       (0 <= num <= den)%R
       /\ (den <> 0%R -> prototype cb' c d = (num / den)%R)
       /\ (den = 0%R -> prototype cb' c d = prototype cb c d)
       /\ (unit_interval (prototype cb c d) ->
           unit_interval (prototype cb' c d)).
Proof.
  intros (_ & _ & _ & Hasc & _) (Hlen & Hfit).
  split; [apply init_in_unit_interval|].
  intros c d Hc Hd eff cb' num den.
  pose proof (numerator_bounds data nb bmus eff c d) as Hb.
  fold num den in Hb.
  assert (Hp : c * input_dim cb + d < length (array cb)) by (rewrite Hlen; nia).
  destruct (batch_cells_fold data nb bmus eff (seq 0 (num_cells cb)) cb c d
              Hasc) as (_ & _ & _ & He); try assumption.
  { intros c0 Hin. apply in_seq in Hin. nia. }
  rewrite existsb_seq in He by exact Hc.
  assert (He' : prototype cb' c d
                = if Req_dec_T den 0 then prototype cb c d else (num / den)%R)
    by exact He.
  clear He. rename He' into He.
  split; [exact Hb|].
  destruct (Req_dec_T den 0) as [Hz|Hnz].
  - split; [intros Hne; contradiction|]. split; [intros _; exact He|].
    rewrite He. tauto.
  - split; [intros _; exact He|]. split; [intros Hz; contradiction|].
    intros _. rewrite He. apply ratio_in_unit_interval; assumption.
Qed.

Lemma one_row_two_terms_well_formed :
  Data.well_formed CodebookExamples.one_row_two_terms.
Proof.
  unfold Data.well_formed. split; [reflexivity|]. split.
  { intros row Hrow. change (row < 1) in Hrow.
    destruct row as [|row]; [vm_compute; lia|lia]. }
  split; [vm_compute; reflexivity|]. split.
  { intros row Hrow. change (row < 1) in Hrow.
    destruct row as [|row]; [|lia]. intros i j Hij Hj.
    change (j < 1) in Hj. lia. }
  intros row i Hrow Hi. change (row < 1) in Hrow.
  destruct row as [|row]; [|lia]. change (i < 1) in Hi.
  destruct i as [|i]; [vm_compute; lia|lia].
Qed.

Lemma two_cells_well_shaped : well_shaped CodebookExamples.two_cells.
Proof. unfold well_shaped. split; [reflexivity|vm_compute; reflexivity]. Qed.

Lemma batch_update_keeps_unit_interval_witness :
  Data.well_formed CodebookExamples.one_row_two_terms
  /\ well_shaped CodebookExamples.two_cells
  /\ unit_interval
       (prototype
          (apply_batch_som_update CodebookExamples.two_cells
             CodebookExamples.one_row_two_terms
             CodebookExamples.neighbourhood [0] 0)
          0 0).
Proof.
  split; [exact one_row_two_terms_well_formed|].
  split; [exact two_cells_well_shaped|].
  refine (proj2 (proj2 (proj2
            (proj2 (batch_update_keeps_unit_interval
                      CodebookExamples.two_cells
                      CodebookExamples.one_row_two_terms
                      CodebookExamples.neighbourhood [0] 0
                      (fun _ => (1 / 2)%R)
                      one_row_two_terms_well_formed two_cells_well_shaped)
                   0 0 _ _))) _).
  - simpl. lia.
  - simpl. lia.
  - unfold unit_interval, prototype. cbn. lra.
Defined.

End BatchFacts.

(** ** Dead-cell reassignment *)

Module DeadCellFacts.
Import Codebook DeadCellSpec.

(** *** Lists read through their subscripts *)

Lemma map_lookup_seq {A} `{Inhabited A} (l : list A) :
  map (fun c => l !!! c) (seq 0 (length l)) = l.
Proof.
  induction l as [|x l IH]; [reflexivity|].
  cbn [length seq map]. f_equal. rewrite <- seq_shift, map_map. exact IH.
Qed.

Lemma take_as_map {A} `{Inhabited A} (l : list A) n :
  n <= length l -> take n l = map (fun c => l !!! c) (seq 0 n).
Proof.
  intros Hn. rewrite <- (map_lookup_seq (take n l)).
  rewrite length_take, Nat.min_l by exact Hn.
  apply map_ext_in. intros c Hc. apply in_seq in Hc.
  apply lookup_total_take_lt. lia.
Qed.

Lemma filter_map_length {A B} (f : A -> B) (p : B -> bool) l :
  length (List.filter p (map f l))
  = length (List.filter (fun x => p (f x)) l).
Proof.
  induction l as [|x l IH]; simpl; [reflexivity|].
  destruct (p (f x)); simpl; rewrite IH; reflexivity.
Qed.

Lemma filter_length_app {A} (p : A -> bool) l1 l2 :
  length (List.filter p (l1 ++ l2))
  = length (List.filter p l1) + length (List.filter p l2).
Proof. rewrite List.filter_app, length_app. reflexivity. Qed.

Lemma filter_all {A} (p : A -> bool) l :
  (forall x, In x l -> p x = true) -> List.filter p l = l.
Proof.
  induction l as [|x l IH]; intros H; simpl; [reflexivity|].
  rewrite (H x) by (left; reflexivity). f_equal. apply IH.
  intros y Hy. apply H. right. exact Hy.
Qed.

Lemma filter_none {A} (p : A -> bool) l :
  (forall x, In x l -> p x = false) -> List.filter p l = [].
Proof.
  induction l as [|x l IH]; intros H; simpl; [reflexivity|].
  rewrite (H x) by (left; reflexivity). apply IH.
  intros y Hy. apply H. right. exact Hy.
Qed.

Lemma filter_length_perm {A} (p : A -> bool) l1 l2 :
  Permutation l1 l2 ->
  length (List.filter p l1) = length (List.filter p l2).
Proof.
  induction 1 as [|x l1 l2 _ IH|x y l|l1 l2 l3 _ IH1 _ IH2]; simpl.
  - reflexivity.
  - destruct (p x); simpl; rewrite IH; reflexivity.
  - destruct (p x), (p y); reflexivity.
  - rewrite IH1. exact IH2.
Qed.

(** *** The threshold of the partial sort *)

Lemma RGreater_leb_ge x y : RGreater.leb x y = true <-> (y <= x)%R.
Proof.
  unfold RGreater.leb. destruct (Rle_dec y x); split; intros; try assumption;
    try reflexivity; try discriminate; contradiction.
Qed.

Lemma sort_descending l :
  StronglySorted (fun x y => (y <= x)%R) (RSort.sort l).
Proof.
  assert (S : StronglySorted (fun x y => is_true (RGreater.leb x y))
                             (RSort.sort l)).
  { apply RSort.StronglySorted_sort. intros x y z Hxy Hyz.
    apply RGreater_leb_ge in Hxy, Hyz. apply RGreater_leb_ge. lra. }
  induction S as [|x s _ IH Hx]; constructor; [exact IH|].
  eapply Forall_impl; [exact Hx|]. intros y Hy. apply RGreater_leb_ge. exact Hy.
Qed.

Lemma sorted_split_bounds (s : list R) j :
  StronglySorted (fun x y => (y <= x)%R) s -> j < length s ->
  (forall x, In x (take (S j) s) -> (s !!! j <= x)%R)
  /\ (forall x, In x (drop j s) -> (x <= s !!! j)%R).
Proof.
  intros Hs. revert j. induction Hs as [|a s Hs IH Ha]; intros j Hj.
  - simpl in Hj. lia.
  - destruct j as [|j].
    + simpl. split.
      * intros x [<-|[]]. lra.
      * intros x [<-|Hin]; [lra|]. rewrite Forall_forall in Ha.
        apply Ha. apply list_elem_of_In. exact Hin.
    + simpl in Hj. destruct (IH j ltac:(lia)) as [H1 H2].
      change ((a :: s) !!! S j) with (s !!! j). split.
      * intros x [<-|Hin]; [|apply H1; exact Hin].
        rewrite Forall_forall in Ha. apply Ha.
        apply list_elem_of_lookup_total_2. lia.
      * exact H2.
Qed.

(** With [thr] the k-th largest of [l]: at least [k] elements reach
    [thr], and fewer than [k] elements exceed any value that reaches it. *)
Lemma threshold_counts (l : list R) k :
  0 < k <= length l ->
  let thr := take k (RSort.sort l) !!! (k - 1) in
  k <= length (List.filter (at_least thr) l)
  /\ forall v, (thr <= v)%R -> length (List.filter (above v) l) < k.
Proof.
  intros Hk thr.
  pose proof (RSort.Permuted_sort l) as Hperm.
  pose proof (sort_descending l) as Hs.
  set (s := RSort.sort l) in *.
  assert (Hlen : length s = length l)
    by (symmetry; apply Permutation_length; exact Hperm).
  assert (Hthr : thr = s !!! (k - 1))
    by (unfold thr; apply lookup_total_take_lt; lia).
  destruct (sorted_split_bounds s (k - 1) Hs ltac:(lia)) as [Hhi Hlo].
  replace (S (k - 1)) with k in Hhi by lia. rewrite <- Hthr in Hhi, Hlo.
  split.
  - rewrite (filter_length_perm _ _ _ Hperm).
    rewrite <- (take_drop k s) at 1. rewrite filter_length_app.
    rewrite (filter_all _ (take k s)).
    + rewrite length_take. lia.
    + intros x Hx. unfold at_least.
      destruct (Rle_dec thr x) as [|Hn]; [reflexivity|].
      exfalso. apply Hn. apply Hhi. exact Hx.
  - intros v Hv. rewrite (filter_length_perm _ _ _ Hperm).
    rewrite <- (take_drop (k - 1) s). rewrite filter_length_app.
    rewrite (filter_none _ (drop (k - 1) s)).
    + pose proof (filter_length_le (above v) (take (k - 1) s)) as Hle.
      rewrite length_take in Hle. simpl. lia.
    + intros x Hx. unfold above.
      destruct (Rlt_dec v x) as [Hlt|]; [|reflexivity].
      specialize (Hlo x Hx). lra.
Qed.

(** *** The marking loop *)

Lemma count_true_le l : count_true l <= length l.
Proof. apply filter_length_le. Qed.

Lemma count_true_insert (l : list bool) c :
  c < length l -> l !!! c = false ->
  count_true (<[c := true]> l) = S (count_true l).
Proof.
  unfold count_true. revert c. induction l as [|b l IH]; intros c Hc Hf.
  - simpl in Hc. lia.
  - destruct c as [|c].
    + change ((b :: l) !!! 0) with b in Hf. subst b. reflexivity.
    + change ((b :: l) !!! S c) with (l !!! c) in Hf.
      change (<[S c := true]> (b :: l)) with (b :: <[c := true]> l).
      simpl in Hc. cbn [List.filter].
      destruct b; cbn [length]; rewrite IH by (assumption || lia); reflexivity.
Qed.

Lemma count_true_full (l : list bool) c :
  count_true l = length l -> c < length l -> l !!! c = true.
Proof.
  unfold count_true. revert c. induction l as [|b l IH]; intros c Hfull Hc.
  - simpl in Hc. lia.
  - cbn [List.filter length] in Hfull.
    pose proof (filter_length_le (fun b : bool => b) l) as Hle.
    destruct b; cbn [length] in Hfull; [|lia].
    destruct c as [|c]; [reflexivity|].
    change ((true :: l) !!! S c) with (l !!! c). apply IH; simpl in Hc; lia.
Qed.

Lemma mark_row_marked n (bmus : list nat) processed st r :
  bmus !!! r < n -> marked n bmus processed st ->
  marked n bmus (processed ++ [r]) (mark_row n bmus st r).
Proof.
  intros Hb (Hlen & Hused & Hiff). unfold mark_row.
  destruct (Nat.ltb_spec (snd st) n) as [Hlt|Hge].
  - destruct (fst st !!! (bmus !!! r)) eqn:Hm.
    + split; [exact Hlen|]. split; [exact Hused|].
      intros c Hc. rewrite (Hiff c Hc). split.
      * intros (r' & Hin & E). exists r'. split; [|exact E].
        apply in_or_app. left. exact Hin.
      * intros (r' & Hin & E). apply in_app_or in Hin.
        destruct Hin as [Hin|[<-|[]]]; [exists r'; tauto|].
        apply Hiff; [lia|]. rewrite <- E. exact Hm.
    + unfold marked. cbn [fst snd]. rewrite length_insert.
      split; [exact Hlen|].
      split; [rewrite count_true_insert by (assumption || lia); lia|].
      intros c Hc. destruct (Nat.eq_dec (bmus !!! r) c) as [E|Hne].
      * subst c. rewrite list_lookup_total_insert_eq by lia.
        split; [|reflexivity]. intros _. exists r. split; [|reflexivity].
        apply in_or_app. right. left. reflexivity.
      * rewrite list_lookup_total_insert_ne by exact Hne.
        rewrite (Hiff c Hc). split.
        -- intros (r' & Hin & E). exists r'. split; [|exact E].
           apply in_or_app. left. exact Hin.
        -- intros (r' & Hin & E). apply in_app_or in Hin.
           destruct Hin as [Hin|[<-|[]]]; [exists r'; tauto|contradiction].
  - assert (Hfull : count_true (fst st) = length (fst st)).
    { pose proof (count_true_le (fst st)). lia. }
    split; [exact Hlen|]. split; [exact Hused|].
    intros c Hc. split.
    + intros Ht. apply (Hiff c Hc) in Ht. destruct Ht as (r' & Hin & E).
      exists r'. split; [|exact E]. apply in_or_app. left. exact Hin.
    + intros _. apply count_true_full; [exact Hfull|lia].
Qed.

Lemma mark_fold_marked n (bmus : list nat) rows processed st :
  (forall r, In r rows -> bmus !!! r < n) ->
  marked n bmus processed st ->
  marked n bmus (processed ++ rows) (fold_left (mark_row n bmus) rows st).
Proof.
  revert processed st. induction rows as [|r rows IH]; intros processed st Hb Hm.
  - rewrite app_nil_r. exact Hm.
  - cbn [fold_left].
    replace (processed ++ r :: rows) with ((processed ++ [r]) ++ rows)
      by (rewrite <- app_assoc; reflexivity).
    apply IH.
    + intros r' Hin. apply Hb. right. exact Hin.
    + apply mark_row_marked; [|exact Hm]. apply Hb. left. reflexivity.
Qed.

Lemma count_true_replicate n : count_true (replicate n false) = 0.
Proof. unfold count_true. induction n; simpl; assumption || reflexivity. Qed.

Lemma mark_cells_in_use_marked n (bmus : list nat) N :
  (forall r, r < N -> bmus !!! r < n) ->
  marked n bmus (seq 0 N) (mark_cells_in_use n bmus N).
Proof.
  intros Hb. unfold mark_cells_in_use.
  apply (mark_fold_marked n bmus (seq 0 N) []).
  - intros r Hin. apply Hb. apply in_seq in Hin. lia.
  - unfold marked. cbn [fst snd]. rewrite length_replicate, count_true_replicate.
    repeat split; try reflexivity.
    + intros Ht. rewrite lookup_total_replicate_2 in Ht by assumption.
      discriminate.
    + intros (r & [] & _).
Qed.

Lemma filter_negb_length (l : list bool) :
  length (List.filter negb l) + count_true l = length l.
Proof.
  unfold count_true. induction l as [|b l IH]; [reflexivity|].
  destruct b; simpl; lia.
Qed.

Lemma unused_by_marks n (bmus : list nat) N st :
  N <= length bmus -> marked n bmus (seq 0 N) st ->
  unused_cells n bmus N
  = List.filter (fun c => negb (fst st !!! c)) (seq 0 n)
  /\ length (unused_cells n bmus N) = n - snd st.
Proof.
  intros HN (Hlen & Hused & Hiff).
  assert (E : unused_cells n bmus N
              = List.filter (fun c => negb (fst st !!! c)) (seq 0 n)).
  { unfold unused_cells. apply filter_ext_in. intros c Hc.
    apply in_seq in Hc. f_equal.
    destruct (fst st !!! c) eqn:Hm.
    - apply (Hiff c ltac:(lia)) in Hm. destruct Hm as (r & Hin & Er).
      apply existsb_exists. exists c. split; [|apply Nat.eqb_refl].
      rewrite (take_as_map bmus N HN). apply in_map_iff. exists r. tauto.
    - apply not_true_iff_false. intros Hex. apply existsb_exists in Hex.
      destruct Hex as (x & Hin & Ex). apply Nat.eqb_eq in Ex. subst x.
      rewrite (take_as_map bmus N HN) in Hin. apply in_map_iff in Hin.
      destruct Hin as (r & Er & Hin).
      assert (Ht : fst st !!! c = true) by (apply Hiff; [lia|exists r; tauto]).
      congruence. }
  split; [exact E|]. rewrite E.
  rewrite <- (filter_map_length (fun c => fst st !!! c) negb).
  rewrite <- Hlen, map_lookup_seq.
  pose proof (filter_negb_length (fst st)). lia.
Qed.

(** *** The two assignment loops *)

Lemma collect_worst_fold (dists : list R) thr k rows acc :
  length acc <= k ->
  fold_left (collect_worst dists thr k) rows acc
  = take k (acc ++ List.filter (fun r => at_least thr (dists !!! r)) rows).
Proof.
  revert acc. induction rows as [|r rows IH]; intros acc Hacc.
  - simpl. rewrite app_nil_r, take_ge by lia. reflexivity.
  - cbn [fold_left List.filter].
    assert (Estep : collect_worst dists thr k acc r
                    = if length acc <? k
                      then if at_least thr (dists !!! r)
                           then acc ++ [r] else acc
                      else acc).
    { unfold collect_worst, at_least.
      destruct (length acc <? k), (Rle_dec thr (dists !!! r)); reflexivity. }
    rewrite Estep.
    destruct (Nat.ltb_spec (length acc) k) as [Hlt|Hge].
    + destruct (at_least thr (dists !!! r)).
      * rewrite IH by (rewrite length_app; simpl; lia).
        rewrite <- app_assoc. reflexivity.
      * apply IH. exact Hacc.
    + rewrite IH by exact Hacc.
      rewrite !take_app_le by lia. reflexivity.
Qed.

Lemma assign_cell_fold (ciu : list bool) worst k cells i (b : list nat) :
  i + length (List.filter (fun c => negb (ciu !!! c)) cells) <= k ->
  fold_left (assign_cell ciu worst k) cells (i, b)
  = (i + length (List.filter (fun c => negb (ciu !!! c)) cells),
     assign_list worst i (List.filter (fun c => negb (ciu !!! c)) cells) b).
Proof.
  revert i b. induction cells as [|c cells IH]; intros i b Hk.
  - simpl. f_equal. lia.
  - cbn [fold_left List.filter] in *. unfold assign_cell at 2. cbn [fst snd].
    destruct (ciu !!! c) eqn:Hm; cbn [negb] in *.
    + destruct (i <? k); apply IH; exact Hk.
    + cbn [length] in Hk.
      destruct (Nat.ltb_spec i k) as [_|]; [|lia].
      rewrite IH by lia. cbn [length assign_list]. f_equal. lia.
Qed.

Lemma assign_list_length worst i cells (b : list nat) :
  length (assign_list worst i cells b) = length b.
Proof.
  revert i b. induction cells as [|c cells IH]; intros i b; simpl;
    [reflexivity|].
  rewrite IH. apply length_insert.
Qed.

Lemma assign_list_other (worst : list nat) i cells (b : list nat) row :
  (forall j, j < length cells -> worst !!! (i + j) <> row) ->
  assign_list worst i cells b !!! row = b !!! row.
Proof.
  revert i b. induction cells as [|c cells IH]; intros i b Hne; simpl;
    [reflexivity|].
  rewrite IH.
  - apply list_lookup_total_insert_ne.
    specialize (Hne 0 ltac:(simpl; lia)). rewrite Nat.add_0_r in Hne. exact Hne.
  - intros j Hj. specialize (Hne (S j) ltac:(simpl; lia)).
    replace (S i + j) with (i + S j) by lia. exact Hne.
Qed.

Lemma assign_list_assigned (worst : list nat) i cells (b : list nat) j :
  (forall j1 j2, j1 < length cells -> j2 < length cells ->
     worst !!! (i + j1) = worst !!! (i + j2) -> j1 = j2) ->
  (forall j, j < length cells -> worst !!! (i + j) < length b) ->
  j < length cells ->
  assign_list worst i cells b !!! (worst !!! (i + j)) = cells !!! j.
Proof.
  revert i b j. induction cells as [|c cells IH]; intros i b j Hinj Hin Hj.
  - simpl in Hj. lia.
  - cbn [assign_list]. destruct j as [|j].
    + rewrite Nat.add_0_r. rewrite assign_list_other.
      * apply list_lookup_total_insert_eq.
        specialize (Hin 0 ltac:(simpl; lia)). rewrite Nat.add_0_r in Hin.
        exact Hin.
      * intros j' Hj' E.
        specialize (Hinj (S j') 0 ltac:(simpl; lia) ltac:(simpl; lia)).
        rewrite Nat.add_0_r in Hinj.
        replace (i + S j') with (S i + j') in Hinj by lia.
        specialize (Hinj E). discriminate.
    + replace (i + S j) with (S i + j) by lia.
      change ((c :: cells) !!! S j) with (cells !!! j).
      apply IH.
      * intros j1 j2 H1 H2 E.
        specialize (Hinj (S j1) (S j2) ltac:(simpl; lia) ltac:(simpl; lia)).
        replace (i + S j1) with (S i + j1) in Hinj by lia.
        replace (i + S j2) with (S i + j2) in Hinj by lia.
        specialize (Hinj E). lia.
      * intros j' Hj'. rewrite length_insert.
        specialize (Hin (S j') ltac:(simpl; lia)).
        replace (i + S j') with (S i + j') in Hin by lia. exact Hin.
      * simpl in Hj. lia.
Qed.

Lemma NoDup_lookup_total_inj (l : list nat) j1 j2 :
  List.NoDup l -> j1 < length l -> j2 < length l ->
  l !!! j1 = l !!! j2 -> j1 = j2.
Proof.
  intros Hnd. revert j1 j2.
  induction Hnd as [|x l Hx Hnd IH]; intros j1 j2 H1 H2 E.
  - simpl in H1. lia.
  - simpl in H1, H2. destruct j1 as [|j1], j2 as [|j2]; try reflexivity.
    + exfalso. apply Hx. change ((x :: l) !!! 0) with x in E.
      change ((x :: l) !!! S j2) with (l !!! j2) in E. rewrite E.
      apply list_elem_of_In. apply list_elem_of_lookup_total_2. lia.
    + exfalso. apply Hx. change ((x :: l) !!! 0) with x in E.
      change ((x :: l) !!! S j1) with (l !!! j1) in E. rewrite <- E.
      apply list_elem_of_In. apply list_elem_of_lookup_total_2. lia.
    + f_equal. apply IH; try lia. exact E.
Qed.

Lemma NoDup_take_list (l : list nat) k : List.NoDup l -> List.NoDup (take k l).
Proof.
  intros H. rewrite <- (take_drop k l) in H.
  apply NoDup_app_remove_r in H. exact H.
Qed.

Lemma In_take_list (l : list nat) k x : In x (take k l) -> In x l.
Proof.
  intros H. rewrite <- (take_drop k l). apply in_or_app. left. exact H.
Qed.

(** C7. With every best-matching unit a cell of the map: when no cell or
    more cells than rows are unused the arrays are returned as they came,
    with 0; otherwise the k unused cells, in cell-index order, become the
    best-matching units of k different rows, each of which has fewer than
    k rows with a strictly larger distance, every other row keeps its
    best-matching unit, and the result is k / num_cells. *)
Theorem assign_dead_cells_reassigns cb (bmus : list nat) (dists : list R) N :
  N <= length bmus -> N <= length dists ->
  (forall row, row < N -> bmus !!! row < num_cells cb) ->
  let unused := unused_cells (num_cells cb) bmus N in
  let k := length unused in
  let res := assign_dead_cells cb bmus dists N in
  (k = 0 \/ N < k -> res = (bmus, dists, 0%R))
  /\ (0 < k <= N ->
      snd res = (R_of_nat k / R_of_nat (num_cells cb))%R
      /\ exists rows,
           length rows = k /\ List.NoDup rows
           /\ (forall i, i < k ->
                 rows !!! i < N
                 /\ fst (fst res) !!! (rows !!! i) = unused !!! i
                 /\ rows_above dists N (rows !!! i) < k)
           /\ (forall row, ~ In row rows ->
                 fst (fst res) !!! row = bmus !!! row)).
Proof.
  intros HNb HNd Hcells unused k res.
  pose proof (mark_cells_in_use_marked (num_cells cb) bmus N Hcells) as Hm.
  destruct (unused_by_marks (num_cells cb) bmus N _ HNb Hm) as [Eun Hk].
  fold unused in Eun, Hk. fold k in Hk.
  unfold res, assign_dead_cells.
  set (st := mark_cells_in_use (num_cells cb) bmus N) in *.
  cbv zeta. rewrite <- Hk.
  split.
  - intros [Hz|Hgt].
    + rewrite Hz. reflexivity.
    + destruct (k =? 0); [reflexivity|].
      destruct (Nat.ltb_spec N k) as [_|]; [reflexivity|lia].
  - intros [Hpos HkN].
    destruct (Nat.eqb_spec k 0) as [|_]; [lia|].
    destruct (Nat.ltb_spec N k) as [|_]; [lia|]. cbn [orb fst snd].
    split; [reflexivity|].
    unfold largest_distances.
    destruct (threshold_counts (take N dists) k) as [T1 T2].
    { rewrite length_take. lia. }
    set (thr := take k (RSort.sort (take N dists)) !!! (k - 1)) in *.
    rewrite collect_worst_fold by (simpl; lia). rewrite app_nil_l.
    set (cand := List.filter (fun r => at_least thr (dists !!! r)) (seq 0 N)).
    assert (Hcand : k <= length cand).
    { unfold cand. rewrite <- filter_map_length, <- take_as_map by exact HNd.
      exact T1. }
    rewrite assign_cell_fold; rewrite <- Eun; [|fold k; lia].
    cbn [snd].
    exists (take k cand).
    assert (Hlen : length (take k cand) = k) by (rewrite length_take; lia).
    assert (Hnd : List.NoDup (take k cand)).
    { apply NoDup_take_list. unfold cand. apply List.NoDup_filter.
      apply List.seq_NoDup. }
    assert (Hrow : forall r, In r (take k cand) ->
                     r < N /\ rows_above dists N r < k).
    { intros r Hin. apply In_take_list in Hin. unfold cand in Hin.
      apply filter_In in Hin. destruct Hin as [Hin Hge].
      apply in_seq in Hin. split; [lia|].
      unfold at_least in Hge.
      destruct (Rle_dec thr (dists !!! r)) as [Hle|]; [|discriminate].
      specialize (T2 _ Hle). unfold rows_above.
      rewrite (take_as_map dists N HNd), filter_map_length in T2. exact T2. }
    assert (Hmem : forall j, j < k -> In (take k cand !!! j) (take k cand)).
    { intros j Hj. apply list_elem_of_In.
      apply list_elem_of_lookup_total_2. lia. }
    split; [exact Hlen|]. split; [exact Hnd|]. split.
    + intros i Hi. destruct (Hrow _ (Hmem i Hi)) as [HrN Habove].
      split; [exact HrN|]. split; [|exact Habove].
      apply (assign_list_assigned (take k cand) 0 unused bmus i).
      * intros j1 j2 H1 H2 E. cbn [Nat.add] in E.
        apply (NoDup_lookup_total_inj (take k cand)); try assumption; lia.
      * intros j Hj. cbn [Nat.add].
        destruct (Hrow _ (Hmem j Hj)) as [HjN _]. lia.
      * exact Hi.
    + intros row Hnot. apply assign_list_other.
      intros j Hj E. cbn [Nat.add] in E. apply Hnot. rewrite <- E.
      apply Hmem. exact Hj.
Qed.

Lemma assign_dead_cells_reassigns_witness :
  snd (assign_dead_cells CodebookExamples.three_cells [0; 0; 1]
                         [1; 3; 2]%R 3)
  = (R_of_nat 1 / R_of_nat 3)%R
  /\ exists rows,
       length rows = 1 /\ List.NoDup rows
       /\ (forall i, i < 1 ->
             rows !!! i < 3
             /\ fst (fst (assign_dead_cells CodebookExamples.three_cells
                                            [0; 0; 1] [1; 3; 2]%R 3))
                !!! (rows !!! i) = [2] !!! i
             /\ rows_above [1; 3; 2]%R 3 (rows !!! i) < 1)
       /\ (forall row, ~ In row rows ->
             fst (fst (assign_dead_cells CodebookExamples.three_cells
                                         [0; 0; 1] [1; 3; 2]%R 3)) !!! row
             = [0; 0; 1] !!! row).
Proof.
  refine (proj2 (assign_dead_cells_reassigns CodebookExamples.three_cells
                   [0; 0; 1] [1; 3; 2]%R 3 _ _ _) _).
  - simpl. lia.
  - simpl. lia.
  - intros row Hrow. change (num_cells CodebookExamples.three_cells) with 3.
    destruct row as [|[|[|row]]]; [vm_compute; lia..|lia].
  - vm_compute. lia.
Defined.

(** *** The frame of the dead-cell reassignment *)

(** C10. [assign_dead_cells] returns the distances as it received them;
    in an epoch of the training loop the batch update starts from the
    codebook the search ran on, and the quantization error that is logged
    is computed from the distances of the search, whether or not dead
    cells were reassigned. *)
Theorem assign_dead_cells_writes_only_bmus :
  (forall cb (bmus : list nat) (dists : list R) N,
     snd (fst (assign_dead_cells cb bmus dists N)) = dists)
  /\ forall data num_epochs respect cutoff strides st epoch,
       let found := find_best_and_next_best_matching_units
                      (Train.codebook st) data cutoff in
       let st' := Train.train_epoch data num_epochs respect cutoff strides
                                    st epoch in
       Train.distances st' = distances found
       /\ Train.codebook st'
          = apply_batch_som_update (Train.codebook st) data
              (Train.neighbourhood st) (Train.best_matching_units st')
              (if epoch <? num_epochs then cutoff else 0)
       /\ exists entry,
            Train.convergence_log st' = Train.convergence_log st ++ [entry]
            /\ Train.log_quantization_error entry
               = quantization_error (distances found) (Data.num_rows data).
Proof.
  assert (F : forall cb (bmus : list nat) (dists : list R) N,
            snd (fst (assign_dead_cells cb bmus dists N)) = dists).
  { intros cb bmus dists N. unfold assign_dead_cells.
    destruct (_ || _); reflexivity. }
  split; [exact F|].
  intros data num_epochs respect cutoff strides st epoch found st'.
  assert (D : Train.distances st' = distances found).
  { unfold st', Train.train_epoch. cbn [Train.distances].
    unfold Train.dead_cell_step. fold found.
    destruct (_ && _); [apply F|reflexivity]. }
  split; [exact D|]. split.
  - unfold st', Train.train_epoch. cbn [Train.codebook Train.best_matching_units].
    destruct (epoch <? num_epochs); reflexivity.
  - eexists. split.
    + unfold st', Train.train_epoch. cbn [Train.convergence_log]. reflexivity.
    + cbn [Train.log_quantization_error].
      unfold Train.dead_cell_step. fold found.
      destruct (_ && _); [rewrite F|]; reflexivity.
Qed.

End DeadCellFacts.

(** ** Lattice distances: metrics and neighbours *)

Module TopoExtra.
Import Topo TopoSpec TopoFacts.
#[local] Open Scope Z_scope.

(** X1. On a lattice of at most 32768 rows and columns, the rectangular
    and the circular distances, on the plane and on the torus, and the
    hexagonal distance on the plane are metrics: non-negative, zero on
    equal points, symmetric, and they satisfy the triangle inequality. *)
Theorem five_distances_are_metrics H W :
  0 < H <= 32768 -> 0 < W <= 32768 ->
  is_metric_on dist_rect_plane H W /\ is_metric_on dist_rect_torus H W
  /\ is_metric_on dist_circle_plane H W /\ is_metric_on dist_circle_torus H W
  /\ is_metric_on dist_hexa_plane H W.
Proof.
  intros HH HW.
  split; [apply dist_rect_plane_metric; assumption|].
  split; [apply dist_rect_torus_metric; assumption|].
  split; [apply dist_circle_plane_metric; assumption|].
  split; [apply dist_circle_torus_metric; assumption|].
  apply dist_hexa_plane_metric; assumption.
Qed.

Lemma five_distances_are_metrics_witness :
  is_metric_on dist_rect_plane 4 5 /\ is_metric_on dist_rect_torus 4 5
  /\ is_metric_on dist_circle_plane 4 5 /\ is_metric_on dist_circle_torus 4 5
  /\ is_metric_on dist_hexa_plane 4 5.
Proof. apply five_distances_are_metrics; lia. Defined.

Lemma div2_of_double m k : 0 <= k < 2 -> (2 * m + k) / 2 = m.
Proof.
  intros Hk. pose proof (Z.div_mod (2 * m + k) 2 ltac:(lia)).
  pose proof (Z.mod_pos_bound (2 * m + k) 2 ltac:(lia)). lia.
Qed.

Lemma half_row_even row : 0 <= row -> Z.even row = true ->
  half_row (row + 1) = half_row row
  /\ (1 <= row -> half_row (row - 1) = half_row row - 1).
Proof.
  intros Hr He. apply Z.even_spec in He. destruct He as [m ->].
  split; [|intros H1]; rewrite !half_row_nonneg by lia.
  - rewrite (div2_of_double m 1) by lia.
    replace (2 * m) with (2 * m + 0) by ring.
    rewrite (div2_of_double m 0) by lia. reflexivity.
  - replace (2 * m - 1) with (2 * (m - 1) + 1) by ring.
    rewrite (div2_of_double (m - 1) 1) by lia.
    replace (2 * m) with (2 * m + 0) by ring.
    rewrite (div2_of_double m 0) by lia. reflexivity.
Qed.

Lemma half_row_odd row : 0 <= row -> Z.even row = false ->
  half_row (row + 1) = half_row row + 1 /\ half_row (row - 1) = half_row row.
Proof.
  intros Hr He. rewrite <- Z.negb_odd in He. apply negb_false_iff in He.
  apply Z.odd_spec in He. destruct He as [m ->].
  rewrite !half_row_nonneg by lia.
  replace (2 * m + 1 + 1) with (2 * (m + 1) + 0) by ring.
  replace (2 * m + 1 - 1) with (2 * m + 0) by ring.
  rewrite (div2_of_double (m + 1) 0), (div2_of_double m 0),
          (div2_of_double m 1) by lia.
  split; reflexivity.
Qed.

(** X2. On the hexagonal plane every one of the six neighbours of a cell
    in a row of index at least 1 is at distance exactly 1, for even and
    odd rows. *)
Theorem hex_neighbours_at_distance_one row col h w q :
  1 <= row -> In q (hex_neighbours row col) ->
  dist_hexa_plane row col (fst q) (snd q) h w = 1.
Proof.
  intros Hr Hin. unfold hex_neighbours in Hin. unfold dist_hexa_plane.
  destruct (Z.even row) eqn:He.
  - destruct (half_row_even row ltac:(lia) He) as [Hup Hdown].
    specialize (Hdown Hr). set (k := half_row row) in *.
    simpl in Hin.
    destruct Hin as [<-|[<-|[<-|[<-|[<-|[<-|[]]]]]]]; cbn [fst snd];
      rewrite ?Hup, ?Hdown; fold k;
      rewrite !u16_small by lia; lia.
  - destruct (half_row_odd row ltac:(lia) He) as [Hup Hdown].
    set (k := half_row row) in *.
    simpl in Hin.
    destruct Hin as [<-|[<-|[<-|[<-|[<-|[<-|[]]]]]]]; cbn [fst snd];
      rewrite ?Hup, ?Hdown; fold k;
      rewrite !u16_small by lia; lia.
Qed.

Lemma hex_neighbours_at_distance_one_witness :
  dist_hexa_plane 2 2 1 1 10 10 = 1.
Proof.
  apply (hex_neighbours_at_distance_one 2 2 10 10 (1, 1)).
  - lia.
  - simpl. left. reflexivity.
Defined.

End TopoExtra.

(** ** The radius update and the influence *)

Module NeighbourhoodExtra.
Import Topo Neighbourhood NeighbourhoodSpec NeighbourhoodUpdateSpec.


Lemma same_map_lower_bound a b ds c :
  same_map a b -> radius_lower_bound a ds c = radius_lower_bound b ds c.
Proof.
  intros (Hh & Hw & _ & Hd & _). unfold radius_lower_bound.
  assert (E : forall d, radius_from_discontinuity a c d
                        = radius_from_discontinuity b c d).
  { intros d. unfold radius_from_discontinuity. rewrite Hh, Hw, Hd.
    reflexivity. }
  generalize 1%R. induction ds as [|d ds IH]; intros lb; simpl; [reflexivity|].
  rewrite E. apply IH.
Qed.

Lemma update_cell_same_map respect ds acc c :
  same_map (update_cell respect ds acc c) acc.
Proof. unfold same_map, update_cell. simpl. tauto. Qed.

(** The loop over the cells: every listed cell is rewritten once, from
    the radius it had. *)
Lemma update_cells_fold respect ds nb cells acc :
  List.NoDup cells -> same_map acc nb ->
  let res := fold_left (update_cell respect ds) cells acc in
  same_map res nb
  /\ length (values res) = length (values acc)
  /\ (forall c, c < length (values acc) ->
        values res !!! c
        = if existsb (Nat.eqb c) cells
          then new_radius nb respect ds c (values acc !!! c)
          else values acc !!! c).
Proof.
  intros Hnd. revert acc.
  induction Hnd as [|c0 cells Hnot Hnd IH]; intros acc Hsame.
  - simpl. repeat split; try apply Hsame; try lra; try contradiction.
  - cbn [fold_left]. cbv zeta in IH |- *.
    set (acc1 := update_cell respect ds acc c0).
    assert (Hsame1 : same_map acc1 nb).
    { destruct (update_cell_same_map respect ds acc c0)
        as (A1 & A2 & A3 & A4 & A5 & A6).
      destruct Hsame as (B1 & B2 & B3 & B4 & B5 & B6).
      unfold same_map. fold acc1 in A1, A2, A3, A4, A5, A6.
      rewrite A1, A2, A3, A4, A5, A6. tauto. }
    assert (Hv1 : values acc1
                  = <[c0 := new_radius nb respect ds c0 (values acc !!! c0)]>
                      (values acc)).
    { unfold acc1, update_cell, new_radius. simpl.
      rewrite (same_map_lower_bound acc nb ds c0 Hsame).
      destruct Hsame as (_ & _ & _ & _ & -> & _). reflexivity. }
    destruct (IH acc1 Hsame1) as (I1 & I2 & I3).
    assert (Hlen1 : length (values acc1) = length (values acc))
      by (rewrite Hv1; apply length_insert).
    assert (Hother : forall c, c <> c0 -> values acc1 !!! c = values acc !!! c).
    { intros c Hne. rewrite Hv1. apply list_lookup_total_insert_ne. congruence. }
    split; [exact I1|]. split; [lia|].
    intros c Hc. rewrite I3 by lia. cbn [existsb].
    destruct (Nat.eqb_spec c c0) as [->|Hne]; cbn [orb].
    + destruct (existsb (Nat.eqb c0) cells) eqn:Hex.
      * exfalso. apply Hnot. apply existsb_exists in Hex.
        destruct Hex as (x & Hin & Ex). apply Nat.eqb_eq in Ex. subst x.
        exact Hin.
      * rewrite Hv1. apply list_lookup_total_insert_eq. exact Hc.
    + rewrite (Hother c Hne). reflexivity.
Qed.

Lemma existsb_seq_lt c n : c < n -> existsb (Nat.eqb c) (seq 0 n) = true.
Proof.
  intros H. apply existsb_exists. exists c. split.
  - apply in_seq. lia.
  - apply Nat.eqb_refl.
Qed.

Lemma existsb_seq_ge c n : n <= c -> existsb (Nat.eqb c) (seq 0 n) = false.
Proof.
  intros H. apply not_true_iff_false. intros Hex.
  apply existsb_exists in Hex. destruct Hex as (x & Hin & E).
  apply Nat.eqb_eq in E. subst x. apply in_seq in Hin. lia.
Qed.

Lemma update_values nb (bmus nexts : list nat) N respect :
  num_cells nb <= length (values nb) ->
  let ds := topographic_discontinuities nb bmus nexts N in
  let nb' := fst (update nb bmus nexts N respect) in
  same_map nb' nb
  /\ length (values nb') = length (values nb)
  /\ (forall c, c < num_cells nb ->
        values nb' !!! c = new_radius nb respect ds c (values nb !!! c))
  /\ (forall c, num_cells nb <= c -> values nb' !!! c = values nb !!! c).
Proof.
  intros Hlen ds nb'.
  destruct (update_cells_fold respect ds nb (seq 0 (num_cells nb))
              (set_radii nb MAX_REAL_DISTANCE 0 (values nb)))
    as (H1 & H2 & H3).
  { apply List.seq_NoDup. }
  { unfold same_map, set_radii. simpl. tauto. }
  cbn [values set_radii] in H2, H3.
  change (fold_left (update_cell respect ds) (seq 0 (num_cells nb))
            (set_radii nb MAX_REAL_DISTANCE 0 (values nb))) with nb' in *.
  split; [exact H1|]. split; [exact H2|]. split.
  - intros c Hc.
    rewrite H3 by lia. rewrite existsb_seq_lt by exact Hc. reflexivity.
  - intros c Hc. destruct (Nat.lt_ge_cases c (length (values nb))) as [Hl|Hg].
    + rewrite H3 by exact Hl. rewrite existsb_seq_ge by exact Hc. reflexivity.
    + rewrite !list_lookup_total_alt.
      rewrite !lookup_ge_None_2 by lia. reflexivity.
Qed.

Lemma discontinuity_recorded nb (bmus nexts : list nat) rows acc row :
  In row rows ->
  (1 < lattice_distance nb (bmus !!! row) (nexts !!! row))%Z ->
  In (TopographicDiscontinuity.mk (bmus !!! row) (nexts !!! row)
        (lattice_distance nb (bmus !!! row) (nexts !!! row)))
     (fold_left
        (fun discontinuities row =>
           let cell1 := bmus !!! row in
           let cell2 := nexts !!! row in
           let distance := lattice_distance nb cell1 cell2 in
           if (1 <? distance)%Z
           then discontinuities
                ++ [TopographicDiscontinuity.mk cell1 cell2 distance]
           else discontinuities)
        rows acc).
Proof.
  intros Hin HD.
  assert (Keep : forall rows acc x, In x acc ->
    In x (fold_left
            (fun discontinuities row =>
               let cell1 := bmus !!! row in
               let cell2 := nexts !!! row in
               let distance := lattice_distance nb cell1 cell2 in
               if (1 <? distance)%Z
               then discontinuities
                    ++ [TopographicDiscontinuity.mk cell1 cell2 distance]
               else discontinuities)
            rows acc)).
  { clear. induction rows as [|r rows IH]; intros acc x Hx; simpl; [exact Hx|].
    apply IH. destruct (1 <? _)%Z; [apply in_or_app; left|]; exact Hx. }
  revert acc. induction rows as [|r rows IH]; intros acc; [destruct Hin|].
  simpl. destruct Hin as [->|Hin].
  - apply Keep. apply Z.ltb_lt in HD. rewrite HD.
    apply in_or_app. right. left. reflexivity.
  - apply IH. exact Hin.
Qed.

Lemma lower_bound_dominates nb ds c d :
  In d ds ->
  (IZR (radius_from_discontinuity nb c d) <= radius_lower_bound nb ds c)%R.
Proof.
  unfold radius_lower_bound. generalize 1%R.
  induction ds as [|d0 ds IH]; intros lb Hin; [destruct Hin|].
  simpl.
  assert (Mono : forall l a b, (a <= b)%R ->
    (a <= fold_left
            (fun lb discontinuity =>
               Rmax lb (IZR (radius_from_discontinuity nb c discontinuity)))
            l b)%R).
  { clear. induction l as [|x l IH]; intros a b Hab; simpl; [exact Hab|].
    apply IH. eapply Rle_trans; [exact Hab|apply Rmax_l]. }
  destruct Hin as [->|Hin].
  - apply Mono. apply Rmax_r.
  - apply IH. exact Hin.
Qed.

(** X5. With the lower bound respected, a cell that lies within lattice
    distance D of both ends of a discontinuity of size D (a row whose best
    and next-best cells are D > 1 steps apart) has radius at least D
    after the update. *)
Theorem radius_covers_discontinuity nb (bmus nexts : list nat) N row c :
  num_cells nb <= length (values nb) ->
  row < N -> c < num_cells nb ->
  (1 < lattice_distance nb (bmus !!! row) (nexts !!! row))%Z ->
  (lattice_distance nb c (bmus !!! row)
   <= lattice_distance nb (bmus !!! row) (nexts !!! row))%Z ->
  (lattice_distance nb c (nexts !!! row)
   <= lattice_distance nb (bmus !!! row) (nexts !!! row))%Z ->
  (IZR (lattice_distance nb (bmus !!! row) (nexts !!! row))
   <= values (fst (update nb bmus nexts N true)) !!! c)%R.
Proof.
  intros Hlen Hrow Hc HD H1 H2.
  destruct (update_values nb bmus nexts N true Hlen) as (_ & _ & H3 & _).
  pose proof (H3 c Hc) as E. rewrite E. unfold new_radius.
  set (D := lattice_distance nb (bmus !!! row) (nexts !!! row)) in *.
  set (d := TopographicDiscontinuity.mk (bmus !!! row) (nexts !!! row) D).
  assert (Hin : In d (topographic_discontinuities nb bmus nexts N)).
  { unfold topographic_discontinuities. apply discontinuity_recorded.
    - apply in_seq. lia.
    - exact HD. }
  assert (Hr : radius_from_discontinuity nb c d = D).
  { unfold radius_from_discontinuity, d. cbn [TopographicDiscontinuity.cell1
      TopographicDiscontinuity.cell2 TopographicDiscontinuity.distance].
    unfold lattice_distance in H1, H2.
    destruct (Z.leb_spec (Z.max
      (distance nb (cell_row (width nb) c) (cell_col (width nb) c)
         (cell_row (width nb) (bmus !!! row))
         (cell_col (width nb) (bmus !!! row))
         (Z.of_nat (height nb)) (Z.of_nat (width nb)))
      (distance nb (cell_row (width nb) c) (cell_col (width nb) c)
         (cell_row (width nb) (nexts !!! row))
         (cell_col (width nb) (nexts !!! row))
         (Z.of_nat (height nb)) (Z.of_nat (width nb)))) D) as [_|Hgt];
      [reflexivity|lia]. }
  pose proof (lower_bound_dominates nb _ c d Hin) as Hlb. rewrite Hr in Hlb.
  eapply Rle_trans; [exact Hlb|apply Rmax_l].
Qed.

Lemma radius_covers_discontinuity_witness :
  (IZR (lattice_distance NeighbourhoodExamples.line5 0 4)
   <= values (fst (update NeighbourhoodExamples.line5 [0%nat] [4%nat] 1%nat true))
      !!! 2%nat)%R.
Proof.
  refine (radius_covers_discontinuity NeighbourhoodExamples.line5
            [0%nat] [4%nat] 1%nat 0%nat 2%nat _ _ _ _ _ _).
  - simpl. lia.
  - lia.
  - simpl. lia.
  - vm_compute. reflexivity.
  - vm_compute. discriminate.
  - vm_compute. discriminate.
Defined.

Lemma std_pow_le_base v a : (1 <= v)%R -> (0 < a <= 1)%R -> (std_pow v a <= v)%R.
Proof.
  intros Hv Ha. unfold std_pow.
  destruct (Req_dec_T v 0) as [E|_]; [lra|].
  unfold Rpower.
  assert (Hln : (0 <= ln v)%R).
  { destruct (Rle_lt_or_eq_dec 1 v Hv) as [Hlt|Heq].
    - left. rewrite <- ln_1. apply ln_increasing; lra.
    - subst v. rewrite ln_1. lra. }
  assert (Hx : (a * ln v <= ln v)%R) by nra.
  rewrite <- (exp_ln v) at 2 by lra.
  destruct Hx as [Hx|Hx].
  - left. apply exp_increasing. exact Hx.
  - rewrite Hx. lra.
Qed.

(** X6. Without the lower bound, [update] replaces the radius r of every
    cell by r ^ exponent; for r >= 1 and an exponent in (0, 1] the new
    radius lies between 1 and r: the radius never grows. *)
Theorem non_adaptive_update_shrinks nb (bmus nexts : list nat) N c :
  num_cells nb <= length (values nb) -> c < num_cells nb ->
  let v := values nb !!! c in
  let v' := values (fst (update nb bmus nexts N false)) !!! c in
  v' = std_pow v (update_exponent nb)
  /\ ((1 <= v)%R -> (0 < update_exponent nb <= 1)%R -> (1 <= v' <= v)%R).
Proof.
  intros Hlen Hc v v'.
  destruct (update_values nb bmus nexts N false Hlen) as (_ & _ & H3 & _).
  pose proof (H3 c Hc) as E. unfold new_radius in E. fold v v' in E.
  split; [exact E|]. intros Hv Ha. rewrite E. split.
  - apply NeighbourhoodFacts.std_pow_ge_1; lra.
  - apply std_pow_le_base; assumption.
Qed.

Lemma non_adaptive_update_shrinks_witness :
  values (fst (update NeighbourhoodExamples.line5 [0%nat] [4%nat] 1%nat false)) !!! 2
  = std_pow (values NeighbourhoodExamples.line5 !!! 2)
            (update_exponent NeighbourhoodExamples.line5).
Proof.
  refine (proj1 (non_adaptive_update_shrinks NeighbourhoodExamples.line5
                   [0%nat] [4%nat] 1%nat 2%nat _ _)).
  - simpl. lia.
  - simpl. lia.
Defined.

(** *** The influence of a cell on itself *)

Lemma distance_to_self g l T y x h w :
  distance_function g l = Some T -> (0 <= h)%Z -> (0 <= w)%Z ->
  T y x y x h w = 0%Z.
Proof.
  intros HT Hh Hw.
  assert (P : forall a b, dist_hexa_plane a b a b 0 0 = 0%Z).
  { intros a b. unfold dist_hexa_plane.
    replace (a - a)%Z with 0%Z by lia.
    replace (b - b - half_row a + half_row a)%Z with 0%Z by lia.
    replace (b - b + a - a - half_row a + half_row a)%Z with 0%Z by lia.
    reflexivity. }
  destruct g, l; simpl in HT; try discriminate; injection HT as <-.
  - unfold dist_rect_torus. rewrite !Z.sub_diag. simpl Z.abs.
    rewrite !Z.min_l by lia. reflexivity.
  - unfold dist_hexa_torus. rewrite P.
    assert (Q : forall a b c d, (0 <= dist_hexa_plane a b c d 0 0)%Z).
    { intros a b c d. unfold dist_hexa_plane, u16.
      pose proof (Z.mod_pos_bound (Z.abs (a - c)) 65536 ltac:(lia)).
      lia. }
    pose proof (Q y x (y + h)%Z x). pose proof (Q y x y (x + w)%Z).
    pose proof (Q y x (y + h)%Z (x + w)%Z). pose proof (Q (y + h)%Z x y x).
    pose proof (Q y (x + w)%Z y x). pose proof (Q (y + h)%Z (x + w)%Z y x).
    lia.
  - unfold dist_circle_torus. rewrite !Z.sub_diag. simpl Z.abs.
    rewrite !Z.min_l by lia. reflexivity.
  - unfold dist_rect_plane. rewrite !Z.sub_diag. reflexivity.
  - change (dist_hexa_plane y x y x 0 0 = 0%Z). apply P.
  - unfold dist_circle_plane. rewrite !Z.sub_diag. reflexivity.
Qed.

(** At lattice distance 0 the kernel of the influence is 1 / r. *)
Lemma influence_at_distance_zero nb source target :
  influence_distance nb source target = 0%Z ->
  (0 < values nb !!! target)%R ->
  influence nb source target = (1 / values nb !!! target)%R.
Proof.
  intros Hd Hr. unfold influence. rewrite Hd.
  destruct (Rlt_dec 0 (values nb !!! target)) as [_|Hn]; [|contradiction].
  change (squared_u16 0) with 0%Z.
  replace (-0.5 * 0 / squared (values nb !!! target))%R with 0%R
    by (unfold Rdiv; ring).
  rewrite exp_0.
  assert (Hs : (1 < SQRT_E)%R) by (unfold SQRT_E; lra).
  field. lra.
Qed.

(** X8. For every implemented topology, where the asserts of the
    distance function hold at the call, the influence of a cell on itself
    is 1 / r, r > 0 being the radius of the cell. *)
Theorem influence_on_own_cell g l nb c :
  distance_function g l = Some (distance nb) ->
  influence_asserts g l nb c ->
  (0 < values nb !!! c)%R ->
  influence nb c c = (1 / values nb !!! c)%R.
Proof.
  intros HT _ Hr. apply influence_at_distance_zero; [|exact Hr].
  unfold influence_distance.
  apply (distance_to_self g l _ _ _ _ _ HT); lia.
Qed.

Lemma influence_on_own_cell_witness :
  influence NeighbourhoodExamples.torus_pair 1 1
  = (1 / values NeighbourhoodExamples.torus_pair !!! 1%nat)%R.
Proof.
  refine (influence_on_own_cell TORUS CIRC NeighbourhoodExamples.torus_pair 1
            eq_refl _ _).
  - intros _ _. vm_compute. repeat split; discriminate.
  - cbn. lra.
Defined.

End NeighbourhoodExtra.

(** ** The dual search, row by row *)

Module DualSearchExtra.
Import Data Codebook DualSearchSpec.

Lemma dual_row_step_sized data eff c w wsq st row n :
  sized n st -> sized n (dual_row_step data eff c w wsq st row).
Proof.
  intros (H1 & H2 & H3 & H4). unfold dual_row_step.
  destruct (_ =? 0); [repeat split; assumption|].
  destruct (_ <=? _); [repeat split; assumption|].
  destruct (Rlt_dec _ _); [|repeat split; assumption].
  unfold sized. simpl. rewrite !length_insert. tauto.
Qed.

Lemma dual_row_step_pointwise cb data eff c st row' row n :
  sized n st -> row < n ->
  row_state (dual_row_step data eff c (dual_w cb eff c)
               (vec_squared (dual_w cb eff c) eff) st row') row
  = if row =? row' then row_step cb data eff row (row_state st row) c
    else row_state st row.
Proof.
  intros (H1 & H2 & H3 & H4) Hrow.
  unfold dual_row_step, row_step, row_state, skipped.
  fold (search_distance cb data eff row' c).
  destruct (Nat.eqb_spec row row') as [<-|Hne].
  - destruct (num_indices_in_row data row =? 0); [reflexivity|].
    destruct (eff <=? indices_in_row data row 0); [reflexivity|]. cbn [orb].
    destruct (Rlt_dec _ _); [|reflexivity]. simpl.
    rewrite !list_lookup_total_insert_eq by lia. reflexivity.
  - destruct (num_indices_in_row data row' =? 0); [reflexivity|].
    destruct (eff <=? indices_in_row data row' 0); [reflexivity|].
    destruct (Rlt_dec _ _); [|reflexivity]. simpl.
    rewrite !list_lookup_total_insert_ne by congruence. reflexivity.
Qed.

Lemma dual_rows_fold cb data eff c rows st row n :
  List.NoDup rows -> sized n st -> row < n ->
  let st' := fold_left (dual_row_step data eff c (dual_w cb eff c)
                          (vec_squared (dual_w cb eff c) eff)) rows st in
  sized n st'
  /\ row_state st' row
     = if existsb (Nat.eqb row) rows
       then row_step cb data eff row (row_state st row) c
       else row_state st row.
Proof.
  intros Hnd. revert st.
  induction Hnd as [|r rows Hnot Hnd IH]; intros st Hs Hrow.
  - simpl. split; [exact Hs|reflexivity].
  - cbn [fold_left existsb]. cbv zeta in IH |- *.
    pose proof (dual_row_step_sized data eff c (dual_w cb eff c)
                  (vec_squared (dual_w cb eff c) eff) st r n Hs) as Hs1.
    destruct (IH _ Hs1 Hrow) as [I1 I2]. split; [exact I1|].
    rewrite I2, (dual_row_step_pointwise cb data eff c st r row n Hs Hrow).
    destruct (Nat.eqb_spec row r) as [->|Hne]; cbn [orb].
    + destruct (existsb (Nat.eqb r) rows) eqn:Hex; [|reflexivity].
      exfalso. apply Hnot. apply existsb_exists in Hex.
      destruct Hex as (x & Hin & Ex). apply Nat.eqb_eq in Ex. subst x.
      exact Hin.
    + reflexivity.
Qed.

(** The search, seen from one row: the row's state is folded over the
    cells. *)
Lemma dual_search_by_row cb data cutoff row :
  row < num_rows data ->
  let eff := if 0 <? cutoff then cutoff else input_dim cb in
  let found := find_best_and_next_best_matching_units cb data cutoff in
  sized (num_rows data) found
  /\ row_state found row
     = fold_left (row_step cb data eff row) (seq 0 (num_cells cb))
                 initial_row_state.
Proof.
  intros Hrow eff found. unfold found, find_best_and_next_best_matching_units.
  fold eff.
  set (st0 := {| best_matching_units := replicate (num_rows data) 0;
                 next_best_matching_units := replicate (num_rows data) 0;
                 distances := replicate (num_rows data) MAX_REAL_DISTANCE;
                 next_distances :=
                   replicate (num_rows data) MAX_REAL_DISTANCE |}).
  assert (Hs0 : sized (num_rows data) st0).
  { unfold sized, st0. simpl. rewrite !length_replicate. tauto. }
  assert (Hr0 : row_state st0 row = initial_row_state).
  { unfold row_state, st0, initial_row_state. simpl.
    rewrite !lookup_total_replicate_2 by exact Hrow. reflexivity. }
  rewrite <- Hr0. generalize Hs0. generalize st0. clear Hs0 Hr0 st0.
  induction (seq 0 (num_cells cb)) as [|c cells IH]; intros st Hs.
  - simpl. split; [exact Hs|reflexivity].
  - cbn [fold_left]. unfold dual_cell_step at 2 4.
    destruct (dual_rows_fold cb data eff c (seq 0 (num_rows data)) st row
                (num_rows data) (List.seq_NoDup _ _) Hs Hrow) as [S1 E1].
    cbv zeta in S1, E1.
    assert (Hex : existsb (Nat.eqb row) (seq 0 (num_rows data)) = true).
    { apply existsb_exists. exists row. split; [apply in_seq; lia|].
      apply Nat.eqb_refl. }
    rewrite Hex in E1. rewrite <- E1. apply IH. exact S1.
Qed.

Lemma fold_seq_invariant {S : Type} (P : nat -> S -> Prop)
    (f : S -> nat -> S) n s0 :
  P 0 s0 -> (forall k s, k < n -> P k s -> P (Datatypes.S k) (f s k)) ->
  P n (fold_left f (seq 0 n) s0).
Proof.
  intros H0 Hstep.
  assert (G : forall m a s, a + m <= n -> P a s ->
                P (a + m) (fold_left f (seq a m) s)).
  { induction m as [|m IH]; intros a s Ha Hs.
    - rewrite Nat.add_0_r. exact Hs.
    - cbn [seq fold_left]. replace (a + Datatypes.S m) with (Datatypes.S a + m) by lia.
      apply IH; [lia|]. apply Hstep; [lia|exact Hs]. }
  apply (G n 0 s0); [lia|exact H0].
Qed.

(** X9. A row without sparse indices, or whose first index is not below
    the effective input dimension, keeps the initial answer of the dual
    search: cell 0 with the largest finite distance, for best and
    next-best alike. *)
Theorem dual_search_skips_row cb data cutoff row :
  row < num_rows data ->
  skipped data (if 0 <? cutoff then cutoff else input_dim cb) row = true ->
  row_state (find_best_and_next_best_matching_units cb data cutoff) row
  = initial_row_state.
Proof.
  intros Hrow Hskip.
  destruct (dual_search_by_row cb data cutoff row Hrow) as [_ E].
  cbv zeta in E. rewrite E. clear E.
  generalize initial_row_state.
  induction (seq 0 (num_cells cb)) as [|c cells IH]; intros s;
    [reflexivity|].
  cbn [fold_left]. rewrite IH. unfold row_step.
  destruct s as [[[b d] n] nd]. rewrite Hskip. reflexivity.
Qed.

(** The fold over the cells for one row that passes the guards: with all
    distances in [0, FLT_MAX) it ends on the first cell of minimal
    distance. *)
Lemma row_fold_first_argmin cb data eff row k :
  0 < k ->
  skipped data eff row = false ->
  (forall c, c < k ->
     (0 <= search_distance cb data eff row c < MAX_REAL_DISTANCE)%R) ->
  let '(b, d, _, _) :=
    fold_left (row_step cb data eff row) (seq 0 k) initial_row_state in
  first_argmin (search_distance cb data eff row) k b
  /\ d = search_distance cb data eff row b.
Proof.
  intros Hcells Hskip Hrange.
  set (dist := search_distance cb data eff row) in *.
  set (Inv := fun (k : nat) (s : RowState) =>
                let '(b, d, _, _) := s in
                (k = 0 /\ d = MAX_REAL_DISTANCE)
                \/ (first_argmin dist k b /\ d = dist b)).
  assert (HI : Inv k (fold_left (row_step cb data eff row)
                                (seq 0 k) initial_row_state)).
  { apply (fold_seq_invariant Inv).
    - unfold Inv, initial_row_state. left. split; reflexivity.
    - intros j [[[b d] n] nd] Hj HInv. unfold Inv in HInv |- *.
      unfold row_step. rewrite Hskip. fold dist.
      pose proof (Hrange j Hj) as Hdj.
      destruct (Rlt_dec (dist j) d) as [Hlt|Hge].
      + right. rewrite Rmax_right by lra. split; [|reflexivity].
        unfold first_argmin. split; [lia|].
        destruct HInv as [[-> ->]|[(Hb & Hmin & Hfirst) ->]].
        * split; intros c Hc; [|lia].
          assert (c = 0) as -> by lia. lra.
        * split; intros c Hc.
          -- destruct (Nat.eq_dec c j) as [->|Hne]; [lra|].
             specialize (Hmin c ltac:(lia)). lra.
          -- specialize (Hmin c Hc). lra.
      + right. destruct HInv as [[-> ->]|[(Hb & Hmin & Hfirst) ->]].
        * exfalso. apply Hge. lra.
        * split; [|reflexivity]. unfold first_argmin.
          split; [lia|]. split; [|exact Hfirst].
          intros c Hc. destruct (Nat.eq_dec c j) as [->|Hne]; [lra|].
          apply Hmin. lia. }
  unfold Inv in HI.
  destruct (fold_left _ _ _) as [[[b d] n] nd].
  destruct HI as [[Hz _]|HI]; [lia|exact HI].
Qed.

(** X10. For a row that passes the guards, on a codebook with at least
    one cell, if the distance of every cell lies in [0, FLT_MAX) then the
    best-matching unit returned by the dual search is the first cell of
    minimal distance, and the reported distance is that minimum. *)
Theorem dual_search_best_is_first_argmin cb data cutoff row :
  row < num_rows data -> 0 < num_cells cb ->
  let eff := if 0 <? cutoff then cutoff else input_dim cb in
  let dist := search_distance cb data eff row in
  let found := find_best_and_next_best_matching_units cb data cutoff in
  skipped data eff row = false ->
  (forall c, c < num_cells cb -> (0 <= dist c < MAX_REAL_DISTANCE)%R) ->
  first_argmin dist (num_cells cb) (best_matching_units found !!! row)
  /\ distances found !!! row = dist (best_matching_units found !!! row).
Proof.
  intros Hrow Hcells eff dist found Hskip Hrange.
  destruct (dual_search_by_row cb data cutoff row Hrow) as [_ E].
  cbv zeta in E. fold eff found in E.
  pose proof (row_fold_first_argmin cb data eff row (num_cells cb)
                Hcells Hskip Hrange) as HI.
  rewrite <- E in HI. exact HI.
Qed.

Lemma dual_search_skips_row_witness :
  row_state (find_best_and_next_best_matching_units
               CodebookExamples.two_cells Examples.corpus 1) 1
  = initial_row_state.
Proof.
  refine (dual_search_skips_row CodebookExamples.two_cells Examples.corpus
            1 1 _ _).
  - vm_compute. lia.
  - vm_compute. reflexivity.
Defined.

Lemma dual_search_best_is_first_argmin_witness :
  first_argmin
    (search_distance CodebookExamples.three_cells CodebookExamples.one_row 1 0)
    3
    (best_matching_units
       (find_best_and_next_best_matching_units CodebookExamples.three_cells
          CodebookExamples.one_row 0) !!! 0)
  /\ distances
       (find_best_and_next_best_matching_units CodebookExamples.three_cells
          CodebookExamples.one_row 0) !!! 0
     = search_distance CodebookExamples.three_cells CodebookExamples.one_row
         1 0
         (best_matching_units
            (find_best_and_next_best_matching_units
               CodebookExamples.three_cells CodebookExamples.one_row 0)
          !!! 0).
Proof.
  refine (dual_search_best_is_first_argmin CodebookExamples.three_cells
            CodebookExamples.one_row 0 0 _ _ _ _).
  - vm_compute. lia.
  - cbn. lia.
  - vm_compute. reflexivity.
  - intros c Hc. change (c < 3) in Hc.
    destruct CodebookFacts.next_best_example_distances as (D0 & D1 & D2).
    unfold search_distance.
    change (if 0 <? 0 then 0 else input_dim CodebookExamples.three_cells)
      with 1.
    destruct c as [|[|[|c]]]; [rewrite D0|rewrite D1|rewrite D2|lia];
      unfold MAX_REAL_DISTANCE; lra.
Defined.

End DualSearchExtra.

(** ** The searches and the Euclidean distance *)

Module SearchExtra.
Import Data Codebook CodebookSpec DualSearchSpec SearchSpec.

Lemma fold_left_sum (f : nat -> R) l a :
  fold_left (fun r i => (r + f i)%R) l a = (a + sum_R (map f l))%R.
Proof.
  revert a. induction l as [|x l IH]; intros a; simpl; [lra|].
  rewrite IH. lra.
Qed.

Lemma sum_R_plus (f g : nat -> R) l :
  sum_R (map (fun d => (f d + g d)%R) l)
  = (sum_R (map f l) + sum_R (map g l))%R.
Proof. induction l as [|x l IH]; simpl; [lra|]. rewrite IH. lra. Qed.

Lemma sum_R_ext (f g : nat -> R) l :
  (forall x, In x l -> f x = g x) -> sum_R (map f l) = sum_R (map g l).
Proof.
  induction l as [|x l IH]; intros H; simpl; [reflexivity|].
  rewrite (H x) by (left; reflexivity). rewrite IH; [reflexivity|].
  intros y Hy. apply H. right. exact Hy.
Qed.

Lemma sum_R_single a (v : R) s n :
  sum_R (map (fun d => if d =? a then v else 0%R) (seq s n))
  = if (s <=? a) && (a <? s + n) then v else 0%R.
Proof.
  revert s. induction n as [|n IH]; intros s.
  - simpl. destruct (s <=? a) eqn:E1; [|reflexivity].
    destruct (a <? s + 0) eqn:E2; [|reflexivity].
    apply Nat.leb_le in E1. apply Nat.ltb_lt in E2. lia.
  - cbn [seq map sum_R fold_right]. fold (sum_R (map (fun d => if d =? a then v else 0%R) (seq (S s) n))).
    rewrite IH.
    destruct (Nat.eqb_spec s a) as [->|Hne].
    + replace (S a <=? a) with false by (symmetry; apply Nat.leb_gt; lia).
      replace (a <=? a) with true by (symmetry; apply Nat.leb_le; lia).
      replace (a <? a + S n) with true by (symmetry; apply Nat.ltb_lt; lia).
      simpl. lra.
    + destruct (Nat.leb_spec (S s) a) as [H1|H1];
      destruct (Nat.leb_spec s a) as [H2|H2]; try lia; cbn [andb]; try lra.
      replace (a <? s + S n) with (a <? S s + n)
        by (apply eq_true_iff_eq; rewrite !Nat.ltb_lt; lia).
      lra.
Qed.

(** A sum over all dimensions that picks the entries of a duplicate-free
    index list is the sum over the list. *)
Lemma sum_indicator (f : nat -> R) l n :
  List.NoDup l -> (forall x, In x l -> x < n) ->
  sum_R (map (fun d => if existsb (Nat.eqb d) l then f d else 0%R) (seq 0 n))
  = sum_R (map f l).
Proof.
  intros Hnd. induction Hnd as [|a l Hnot Hnd IH]; intros Hlt.
  - simpl. induction (seq 0 n) as [|x xs IHx]; simpl; [reflexivity|].
    rewrite IHx. lra.
  - cbn [map sum_R fold_right]. fold (sum_R (map f l)).
    rewrite <- IH by (intros x Hx; apply Hlt; right; exact Hx).
    rewrite (sum_R_ext _
               (fun d => ((if d =? a then f a else 0)
                          + (if existsb (Nat.eqb d) l then f d else 0))%R)).
    + rewrite sum_R_plus, sum_R_single.
      assert (Ha : a < n) by (apply Hlt; left; reflexivity).
      replace (0 <=? a) with true by (symmetry; apply Nat.leb_le; lia).
      replace (a <? 0 + n) with true by (symmetry; apply Nat.ltb_lt; lia).
      reflexivity.
    + intros d _. cbn [existsb].
      destruct (Nat.eqb_spec d a) as [->|Hne]; cbn [orb].
      * destruct (existsb (Nat.eqb a) l) eqn:Hex; [|lra].
        exfalso. apply Hnot. apply existsb_exists in Hex.
        destruct Hex as (x & Hin & Ex). apply Nat.eqb_eq in Ex.
        subst x. exact Hin.
      * lra.
Qed.

(** Without a break the loop of [product] adds the values at all sparse
    indices. *)
Lemma product_loop_all indices values eff k it r :
  (forall j, it <= j < it + k -> indices j < eff) ->
  product_loop indices values eff k it r
  = (r + sum_R (map (fun j => values (indices j)) (seq it k)))%R.
Proof.
  revert it r. induction k as [|k IH]; intros it r H.
  - simpl. lra.
  - cbn [product_loop seq map sum_R fold_right].
    replace (eff <=? indices it) with false
      by (symmetry; apply Nat.leb_gt; apply H; lia).
    rewrite IH by (intros j Hj; apply H; lia).
    fold (sum_R (map (fun j => values (indices j)) (seq (S it) k))). lra.
Qed.

Lemma map_seq_lookup_total {A} `{Inhabited A} (f : nat -> A) s n i :
  i < n -> map f (seq s n) !!! i = f (s + i).
Proof.
  revert s i. induction n as [|n IH]; intros s i Hi; [lia|].
  destruct i as [|i]; cbn [seq map].
  - rewrite Nat.add_0_r. reflexivity.
  - change ((f s :: map f (seq (S s) n)) !!! S i)
      with (map f (seq (S s) n) !!! i).
    rewrite IH by lia. f_equal. lia.
Qed.

Lemma row_indices_NoDup m row :
  row_ascending m row -> List.NoDup (row_indices m row).
Proof.
  intros Hasc. unfold row_indices.
  assert (G : forall n s, s + n <= num_indices_in_row m row ->
            List.NoDup (map (indices_in_row m row) (seq s n))
            /\ forall x, In x (map (indices_in_row m row) (seq s n)) ->
                 exists j, s <= j < s + n /\ x = indices_in_row m row j).
  { induction n as [|n IH]; intros s Hs.
    - simpl. split; [constructor|intros x []].
    - cbn [seq map]. destruct (IH (S s) ltac:(lia)) as [N1 N2]. split.
      + constructor; [|exact N1]. intros Hin.
        destruct (N2 _ Hin) as (j & Hj & Ej).
        pose proof (Hasc s j ltac:(lia) ltac:(lia)). lia.
      + intros x [<-|Hin].
        * exists s. split; [lia|reflexivity].
        * destruct (N2 _ Hin) as (j & Hj & Ej). exists j. split; [lia|exact Ej]. }
  apply (G _ 0). lia.
Qed.

(** The distance of the dual search, written out: the squared norm of
    the prototype, minus twice its entries at the sparse indices of the
    row, plus the number of these indices. *)
Lemma search_distance_expanded cb m row c :
  well_formed m -> has_weights m = false ->
  well_shaped cb -> num_cols m <= input_dim cb ->
  row < num_rows m -> c < num_cells cb ->
  search_distance cb (init_sum_of_squares m) (input_dim cb) row c
  = (sum_R (map (fun d => squared (prototype cb c d)) (seq 0 (input_dim cb)))
     - 2 * sum_R (map (fun j => prototype cb c (indices_in_row m row j))
                      (seq 0 (num_indices_in_row m row)))
     + R_of_nat (num_indices_in_row m row))%R.
Proof.
  intros (Hlen & Hptr & Hsize & Hasc & Hcols) Hw (Hshape & Hfit) Hdim Hrow Hc.
  unfold search_distance, dual_distance.
  change (has_weights (init_sum_of_squares m)) with (has_weights m).
  rewrite Hw.
  change (indices_in_row (init_sum_of_squares m) row)
    with (indices_in_row m row).
  change (num_indices_in_row (init_sum_of_squares m) row)
    with (num_indices_in_row m row).
  assert (Hsos : _sum_of_squares (init_sum_of_squares m) !!! row
                 = num_indices_in_row m row).
  { unfold init_sum_of_squares. cbn [_sum_of_squares set_sum_of_squares].
    rewrite map_seq_lookup_total by exact Hrow. rewrite Hw. reflexivity. }
  rewrite Hsos.
  assert (Hwc : forall i, dual_w cb (input_dim cb) c i = prototype cb c i).
  { intros i. unfold dual_w, ptr_at, prototype.
    rewrite u32n_small; [reflexivity|]. nia. }
  unfold vec_squared, product. rewrite fold_left_sum.
  rewrite product_loop_all
    by (intros j Hj; specialize (Hcols row j Hrow ltac:(lia)); lia).
  rewrite (sum_R_ext (fun i => squared (dual_w cb (input_dim cb) c i))
                     (fun i => squared (prototype cb c i)))
    by (intros i _; rewrite Hwc; reflexivity).
  rewrite (sum_R_ext (fun j => dual_w cb (input_dim cb) c (indices_in_row m row j))
                     (fun j => prototype cb c (indices_in_row m row j)))
    by (intros j _; apply Hwc).
  lra.
Qed.

(** The squared Euclidean distance to a well-formed row, written out in
    the same way. *)
Lemma euclid_squared_expanded cb m row c :
  well_formed m -> num_cols m <= input_dim cb -> row < num_rows m ->
  euclid_squared cb m row c
  = (sum_R (map (fun d => squared (prototype cb c d)) (seq 0 (input_dim cb)))
     - 2 * sum_R (map (fun j => prototype cb c (indices_in_row m row j))
                      (seq 0 (num_indices_in_row m row)))
     + R_of_nat (num_indices_in_row m row))%R.
Proof.
  intros (Hlen & Hptr & Hsize & Hasc & Hcols) Hdim Hrow.
  unfold euclid_squared.
  rewrite (sum_R_ext
     (fun d => squared (prototype cb c d - indicator m row d))
     (fun d => (squared (prototype cb c d)
                + (if existsb (Nat.eqb d) (row_indices m row)
                   then (-2 * prototype cb c d + 1) else 0))%R)).
  2:{ intros d _. unfold indicator.
      destruct (existsb (Nat.eqb d) (row_indices m row));
        unfold squared; lra. }
  rewrite sum_R_plus.
  rewrite (sum_indicator (fun d => (-2 * prototype cb c d + 1)%R)).
  2:{ apply row_indices_NoDup. apply Hasc. exact Hrow. }
  2:{ intros x Hx. unfold row_indices in Hx. apply in_map_iff in Hx.
      destruct Hx as (j & <- & Hj). apply in_seq in Hj.
      specialize (Hcols row j Hrow ltac:(lia)). lia. }
  unfold row_indices. rewrite map_map.
  rewrite sum_R_plus.
  assert (Hones : forall l : list nat,
            sum_R (map (fun _ => 1%R) l) = R_of_nat (length l)).
  { induction l as [|x l IH]; [reflexivity|].
    cbn [map sum_R fold_right length]. fold (sum_R (map (fun _ => 1%R) l)).
    rewrite IH. unfold R_of_nat. rewrite Nat2Z.inj_succ, succ_IZR. lra. }
  rewrite Hones, length_seq.
  assert (Hscale : forall (f : nat -> R) (l : list nat),
            sum_R (map (fun j => (-2 * f j)%R) l)
            = (-2 * sum_R (map f l))%R).
  { intros f l. induction l as [|x l IH]; simpl; [lra|].
    fold (sum_R (map (fun j => (-2 * f j)%R) l)) (sum_R (map f l)).
    rewrite IH. lra. }
  rewrite (Hscale (fun j => prototype cb c (indices_in_row m row j))).
  lra.
Qed.

(** X11. For an unweighted, well-formed corpus whose vocabulary fits the
    input dimension, and without a vocabulary cutoff, the distance the
    dual search computes for a (row, cell) pair is the squared Euclidean
    distance between the prototype of the cell and the row as a dense
    0/1 vector. *)
Theorem dual_distance_is_euclidean cb m row c :
  well_formed m -> has_weights m = false ->
  well_shaped cb -> num_cols m <= input_dim cb ->
  row < num_rows m -> c < num_cells cb ->
  search_distance cb (init_sum_of_squares m) (input_dim cb) row c
  = euclid_squared cb m row c.
Proof.
  intros Hwf Hw Hshape Hdim Hrow Hc.
  rewrite search_distance_expanded by assumption.
  rewrite euclid_squared_expanded by assumption.
  reflexivity.
Qed.

Lemma dual_distance_is_euclidean_witness :
  search_distance CodebookExamples.two_cells
    (init_sum_of_squares CodebookExamples.one_row_two_terms) 2 0 1
  = euclid_squared CodebookExamples.two_cells
      CodebookExamples.one_row_two_terms 0 1.
Proof.
  refine (dual_distance_is_euclidean CodebookExamples.two_cells
            CodebookExamples.one_row_two_terms 0 1 _ _ _ _ _ _).
  - exact BatchFacts.one_row_two_terms_well_formed.
  - reflexivity.
  - exact BatchFacts.two_cells_well_shaped.
  - cbn. lia.
  - cbn. lia.
  - cbn. lia.
Defined.


(** *** The single search, row by row *)

Lemma bmu_row_step_pointwise cb data eff c (st : list nat * list R) row' row n :
  length (fst st) = n -> length (snd st) = n -> row < n ->
  let st' := bmu_row_step cb data eff c (ptr_at (array cb) (c * input_dim cb))
               (vec_squared (ptr_at (array cb) (c * input_dim cb))
                            (input_dim cb)) st row' in
  length (fst st') = n /\ length (snd st') = n
  /\ (fst st' !!! row, snd st' !!! row)
     = if row =? row'
       then single_row_step cb data eff row (fst st !!! row, snd st !!! row) c
       else (fst st !!! row, snd st !!! row).
Proof.
  intros H1 H2 Hrow. cbv zeta.
  unfold bmu_row_step, single_row_step, skipped, single_distance.
  destruct (Nat.eqb_spec row row') as [<-|Hne].
  - destruct (num_indices_in_row data row =? 0); [tauto|].
    destruct (eff <=? indices_in_row data row 0); [tauto|]. cbn [orb snd].
    destruct (has_weights data).
    + destruct (Rlt_dec _ _); [|tauto]. cbn [fst snd].
      rewrite !length_insert, !list_lookup_total_insert_eq by lia. tauto.
    + destruct (Rlt_dec _ _); [|tauto]. cbn [fst snd].
      rewrite !length_insert, !list_lookup_total_insert_eq by lia. tauto.
  - destruct (num_indices_in_row data row' =? 0); [tauto|].
    destruct (eff <=? indices_in_row data row' 0); [tauto|].
    destruct (Rlt_dec _ _); [|tauto]. cbn [fst snd].
    rewrite !length_insert, !list_lookup_total_insert_ne by congruence. tauto.
Qed.

Lemma bmu_rows_fold cb data eff c rows (st : list nat * list R) row n :
  List.NoDup rows -> length (fst st) = n -> length (snd st) = n -> row < n ->
  let st' := fold_left
               (bmu_row_step cb data eff c (ptr_at (array cb) (c * input_dim cb))
                  (vec_squared (ptr_at (array cb) (c * input_dim cb))
                               (input_dim cb))) rows st in
  length (fst st') = n /\ length (snd st') = n
  /\ (fst st' !!! row, snd st' !!! row)
     = if existsb (Nat.eqb row) rows
       then single_row_step cb data eff row (fst st !!! row, snd st !!! row) c
       else (fst st !!! row, snd st !!! row).
Proof.
  intros Hnd. revert st.
  induction Hnd as [|r rows Hnot Hnd IH]; intros st H1 H2 Hrow.
  - simpl. tauto.
  - cbn [fold_left existsb]. cbv zeta in IH |- *.
    destruct (bmu_row_step_pointwise cb data eff c st r row n H1 H2 Hrow)
      as (S1 & S2 & E).
    destruct (IH _ S1 S2 Hrow) as (I1 & I2 & I3).
    split; [exact I1|]. split; [exact I2|].
    rewrite I3, E.
    destruct (Nat.eqb_spec row r) as [->|Hne]; cbn [orb]; [|reflexivity].
    destruct (existsb (Nat.eqb r) rows) eqn:Hex; [|reflexivity].
    exfalso. apply Hnot. apply existsb_exists in Hex.
    destruct Hex as (x & Hin & Ex). apply Nat.eqb_eq in Ex. subst x.
    exact Hin.
Qed.

Lemma single_search_by_row cb data cutoff need row :
  row < num_rows data ->
  let eff := if 0 <? cutoff then cutoff else num_cols data in
  let found := find_best_matching_units cb data cutoff need in
  (fst found !!! row, snd (find_best_matching_units cb data cutoff false) !!! row)
  = fold_left (single_row_step cb data eff row) (seq 0 (num_cells cb))
              (0, MAX_REAL_DISTANCE).
Proof.
  intros Hrow eff found.
  assert (Hfst : fst found = fst (find_best_matching_units cb data cutoff false)).
  { unfold found, find_best_matching_units. destruct need; reflexivity. }
  rewrite Hfst. clear Hfst found.
  unfold find_best_matching_units. fold eff.
  set (st0 := (replicate (num_rows data) 0,
               replicate (num_rows data) MAX_REAL_DISTANCE)).
  assert (H1 : length (fst st0) = num_rows data)
    by (unfold st0; simpl; apply length_replicate).
  assert (H2 : length (snd st0) = num_rows data)
    by (unfold st0; simpl; apply length_replicate).
  assert (Hr0 : (fst st0 !!! row, snd st0 !!! row) = (0, MAX_REAL_DISTANCE)).
  { unfold st0. simpl.
    rewrite !lookup_total_replicate_2 by exact Hrow. reflexivity. }
  rewrite <- Hr0. generalize H1 H2. generalize st0. clear H1 H2 Hr0 st0.
  induction (seq 0 (num_cells cb)) as [|c cells IH]; intros st H1 H2.
  - reflexivity.
  - cbn [fold_left].
    destruct (bmu_rows_fold cb data eff c (seq 0 (num_rows data)) st row
                (num_rows data) (List.seq_NoDup _ _) H1 H2 Hrow)
      as (S1 & S2 & E). cbv zeta in S1, S2, E.
    assert (Hex : existsb (Nat.eqb row) (seq 0 (num_rows data)) = true).
    { apply existsb_exists. exists row. split; [apply in_seq; lia|].
      apply Nat.eqb_refl. }
    rewrite Hex in E. rewrite <- E. apply IH; assumption.
Qed.

(** The fold of the single search over the cells, for a row that passes
    the guards and distances below FLT_MAX. *)
Lemma single_fold_first_argmin cb data eff row k :
  0 < k ->
  skipped data eff row = false ->
  (forall c, c < k ->
     (single_distance cb data eff row c < MAX_REAL_DISTANCE)%R) ->
  let s := fold_left (single_row_step cb data eff row) (seq 0 k)
                     (0, MAX_REAL_DISTANCE) in
  first_argmin (single_distance cb data eff row) k (fst s)
  /\ snd s = single_distance cb data eff row (fst s).
Proof.
  intros Hk Hskip Hrange.
  set (dist := single_distance cb data eff row) in *.
  set (Inv := fun (j : nat) (s : nat * R) =>
                (j = 0 /\ snd s = MAX_REAL_DISTANCE)
                \/ (first_argmin dist j (fst s) /\ snd s = dist (fst s))).
  assert (HI : Inv k (fold_left (single_row_step cb data eff row) (seq 0 k)
                                (0, MAX_REAL_DISTANCE))).
  { apply (DualSearchExtra.fold_seq_invariant Inv).
    - left. split; reflexivity.
    - intros j [b d] Hj HInv. unfold Inv in HInv |- *. cbn [fst snd] in *.
      unfold single_row_step. rewrite Hskip. fold dist. cbn [snd].
      pose proof (Hrange j Hj) as Hdj.
      destruct (Rlt_dec (dist j) d) as [Hlt|Hge]; cbn [fst snd].
      + right. split; [|reflexivity].
        unfold first_argmin. split; [lia|].
        destruct HInv as [[-> ->]|[(Hb & Hmin & Hfirst) ->]].
        * split; intros c Hc; [|lia].
          assert (c = 0) as -> by lia. lra.
        * split; intros c Hc.
          -- destruct (Nat.eq_dec c j) as [->|Hne]; [lra|].
             specialize (Hmin c ltac:(lia)). lra.
          -- specialize (Hmin c Hc). lra.
      + right. destruct HInv as [[-> ->]|[(Hb & Hmin & Hfirst) ->]].
        * exfalso. apply Hge. lra.
        * split; [|reflexivity]. unfold first_argmin.
          split; [lia|]. split; [|exact Hfirst].
          intros c Hc. destruct (Nat.eq_dec c j) as [->|Hne]; [lra|].
          apply Hmin. lia. }
  cbv zeta. destruct HI as [[Hz _]|HI]; [lia|exact HI].
Qed.

(** X12. For a row that passes the guards, on a codebook with at least
    one cell, if the distance the single search computes for every cell
    is below FLT_MAX then the best-matching unit it returns is the first
    cell of minimal computed distance; without the distance correction the
    reported distance is that minimum. *)
Theorem single_search_best_is_first_argmin cb data cutoff need row :
  row < num_rows data -> 0 < num_cells cb ->
  let eff := if 0 <? cutoff then cutoff else num_cols data in
  let dist := single_distance cb data eff row in
  let found := find_best_matching_units cb data cutoff need in
  skipped data eff row = false ->
  (forall c, c < num_cells cb -> (dist c < MAX_REAL_DISTANCE)%R) ->
  first_argmin dist (num_cells cb) (fst found !!! row)
  /\ (need = false -> snd found !!! row = dist (fst found !!! row)).
Proof.
  intros Hrow Hcells eff dist found Hskip Hrange.
  pose proof (single_search_by_row cb data cutoff need row Hrow) as E.
  cbv zeta in E. fold eff found in E.
  pose proof (single_fold_first_argmin cb data eff row (num_cells cb)
                Hcells Hskip Hrange) as HS.
  cbv zeta in HS. rewrite <- E in HS. cbn [fst snd] in HS.
  destruct HS as [HA HD]. split; [exact HA|].
  intros ->. exact HD.
Qed.

Lemma single_search_best_is_first_argmin_witness :
  first_argmin
    (single_distance CodebookExamples.three_cells CodebookExamples.one_row
                     1 0)
    3
    (fst (find_best_matching_units CodebookExamples.three_cells
            CodebookExamples.one_row 0 false) !!! 0).
Proof.
  refine (proj1 (single_search_best_is_first_argmin
                   CodebookExamples.three_cells CodebookExamples.one_row
                   0 false 0 _ _ _ _)).
  - vm_compute. lia.
  - cbn. lia.
  - vm_compute. reflexivity.
  - intros c Hc. change (c < 3) in Hc.
    change (if 0 <? 0 then 0 else num_cols CodebookExamples.one_row) with 1.
    unfold single_distance.
    change (has_weights CodebookExamples.one_row) with false.
    change (num_indices_in_row CodebookExamples.one_row 0) with 1.
    change (input_dim CodebookExamples.three_cells) with 1.
    unfold product, vec_squared, ptr_at, squared, MAX_REAL_DISTANCE.
    cbn [product_loop seq fold_left].
    change (indices_in_row CodebookExamples.one_row 0 0) with 0.
    cbn [Nat.leb].
    destruct c as [|[|[|c]]]; [| | |lia];
      cbn [Nat.mul Nat.add array CodebookExamples.three_cells];
      repeat match goal with
      | |- context [[?a; ?b; ?c] !!! ?i] =>
          let v := eval cbv [lookup_total list_lookup_total] in ([a; b; c] !!! i) in
          change ([a; b; c] !!! i) with v
      end; lra.
Defined.

End SearchExtra.

(** ** The corpus: leading zeros, squared norms; reading the codebook *)

Module CorpusExtra.
Import Data Corpus Driver DualSearchSpec.

(** The running maximum of the loop over the rows. *)
Lemma max_first_index_fold m rows a :
  let r := fold_left
             (fun max_first_word_index row =>
                let x := indices_in_row m row in
                if max_first_word_index <? x 0 then x 0
                else max_first_word_index) rows a in
  a <= r
  /\ (forall row, In row rows -> indices_in_row m row 0 <= r)
  /\ (r = a \/ exists row, In row rows /\ indices_in_row m row 0 = r).
Proof.
  revert a. induction rows as [|row rows IH]; intros a.
  - simpl. split; [lia|]. split; [intros ? []|left; reflexivity].
  - cbn [fold_left]. cbv zeta in IH |- *.
    set (a' := if a <? indices_in_row m row 0 then indices_in_row m row 0
               else a).
    destruct (IH a') as (I1 & I2 & I3).
    assert (Ha : a <= a' /\ indices_in_row m row 0 <= a'
                 /\ (a' = a \/ a' = indices_in_row m row 0)).
    { unfold a'. destruct (Nat.ltb_spec a (indices_in_row m row 0)); lia. }
    split; [lia|]. split.
    + intros r [<-|Hin]; [lia|apply I2; exact Hin].
    + destruct I3 as [E|(r & Hin & E)].
      * destruct Ha as (_ & _ & [Ea|Ea]).
        -- left. lia.
        -- right. exists row. split; [left; reflexivity|lia].
      * right. exists r. split; [right; exact Hin|exact E].
Qed.

(** X13. When the vocabulary cutoff is larger than
    [min_word_index_to_avoid_empty_row], no row that has sparse indices
    is skipped by the search guards. *)
Theorem cutoff_above_leading_zeros_keeps_rows m cutoff row :
  min_word_index_to_avoid_empty_row m < cutoff ->
  row < num_rows m -> 0 < num_indices_in_row m row ->
  skipped m cutoff row = false.
Proof.
  intros Hcut Hrow Hne.
  destruct (max_first_index_fold m (seq 0 (num_rows m)) 0) as (_ & Hub & _).
  specialize (Hub row ltac:(apply in_seq; lia)).
  change (indices_in_row m row 0 <= min_word_index_to_avoid_empty_row m)
    in Hub.
  unfold skipped. apply orb_false_intro.
  - apply Nat.eqb_neq. lia.
  - apply Nat.leb_gt. lia.
Qed.

Lemma cutoff_above_leading_zeros_keeps_rows_witness :
  skipped Examples.corpus 2 1 = false.
Proof.
  apply (cutoff_above_leading_zeros_keeps_rows Examples.corpus 2 1);
    vm_compute; lia.
Defined.



(** *** init_sum_of_squares *)


Lemma squared_u8_small w : w < 16 -> squared_u8 w = w * w.
Proof.
  intros H. unfold squared_u8, u8n. apply Nat.mod_small. nia.
Qed.

Lemma weighted_sum_fold (w : nat -> nat) n s acc :
  (forall i, s <= i < s + n -> w i < 16) ->
  (Z.of_nat acc + 225 * Z.of_nat n < 4294967296)%Z ->
  fold_left (fun acc i => u32n (acc + squared_u8 (w i))) (seq s n) acc
  = acc + list_sum (map (fun i => w i * w i) (seq s n)).
Proof.
  revert s acc. induction n as [|n IH]; intros s acc Hw Hfit.
  - simpl. lia.
  - cbn [seq fold_left map list_sum].
    pose proof (Hw s ltac:(lia)) as Hs.
    rewrite squared_u8_small by exact Hs.
    assert (Hsq : w s * w s <= 225) by nia.
    set (q := w s * w s) in *. clearbody q.
    rewrite u32n_small by lia.
    rewrite IH; [unfold list_sum; cbn [fold_right]; lia| |lia].
    intros i Hi. apply Hw. lia.
Qed.

(** X15. [init_sum_of_squares] stores, for every row, the number of its
    sparse indices when the corpus has no weights, and the sum of the
    squared weights when it has and every weight of the row is below 16
    (the square of a larger weight does not fit the 8-bit weight type)
    and the row has fewer than 2^24 entries. *)
Theorem init_sum_of_squares_exact m row :
  row < num_rows m ->
  (has_weights m = true ->
   (forall i, i < num_indices_in_row m row -> weights_in_row m row i < 16)
   /\ (Z.of_nat (num_indices_in_row m row) < 16777216)%Z) ->
  _sum_of_squares (init_sum_of_squares m) !!! row
  = if has_weights m
    then list_sum (map (fun i => weights_in_row m row i * weights_in_row m row i)
                       (seq 0 (num_indices_in_row m row)))
    else num_indices_in_row m row.
Proof.
  intros Hrow Hw. unfold init_sum_of_squares.
  cbn [_sum_of_squares set_sum_of_squares].
  rewrite SearchExtra.map_seq_lookup_total by exact Hrow. cbn [Nat.add].
  destruct (has_weights m); [|reflexivity].
  destruct (Hw eq_refl) as [Hsmall Hlen].
  rewrite weighted_sum_fold; [reflexivity| |lia].
  intros i Hi. apply Hsmall. lia.
Qed.

Lemma init_sum_of_squares_exact_witness :
  _sum_of_squares (init_sum_of_squares CodebookExamples.weighted_rows) !!! 1
  = list_sum
      (map (fun i => weights_in_row CodebookExamples.weighted_rows 1 i
                     * weights_in_row CodebookExamples.weighted_rows 1 i)
           (seq 0 (num_indices_in_row CodebookExamples.weighted_rows 1))).
Proof.
  refine (init_sum_of_squares_exact CodebookExamples.weighted_rows 1 _ _).
  - vm_compute. lia.
  - intros _. split.
    + intros i Hi. change (i < 1) in Hi.
      assert (i = 0) as -> by lia. vm_compute. lia.
    + vm_compute. reflexivity.
Defined.

(** X16. Weights that are multiples of 16 leave no trace in the squared
    norm of their row: each square is reduced to the 8-bit weight type
    before it is added. *)
Theorem weights_multiple_of_16_are_lost m row :
  row < num_rows m -> has_weights m = true ->
  (forall i, i < num_indices_in_row m row ->
     weights_in_row m row i mod 16 = 0) ->
  _sum_of_squares (init_sum_of_squares m) !!! row = 0.
Proof.
  intros Hrow Hw Hall. unfold init_sum_of_squares.
  cbn [_sum_of_squares set_sum_of_squares].
  rewrite SearchExtra.map_seq_lookup_total by exact Hrow. cbn [Nat.add]. rewrite Hw.
  assert (Hsq : forall w, w mod 16 = 0 -> squared_u8 w = 0).
  { intros w Hmod. unfold squared_u8, u8n.
    pose proof (Nat.div_mod_eq w 16) as Hw16. rewrite Hmod in Hw16.
    rewrite Nat.add_0_r in Hw16. set (k := w / 16) in *. clearbody k.
    subst w. replace (16 * k * (16 * k)) with (k * k * 256) by lia.
    apply Nat.Div0.mod_mul. }
  assert (G : forall n s, s + n <= num_indices_in_row m row ->
            fold_left (fun acc i => u32n (acc + squared_u8 (weights_in_row m row i)))
                      (seq s n) 0 = 0).
  { induction n as [|n IH]; intros s Hs; [reflexivity|].
    cbn [seq fold_left]. rewrite (Hsq _ (Hall s ltac:(lia))).
    change (u32n (0 + 0)) with 0. apply IH. lia. }
  apply (G _ 0). lia.
Qed.

Lemma weights_multiple_of_16_are_lost_witness :
  _sum_of_squares (init_sum_of_squares CorpusExamples.heavy_row) !!! 0 = 0.
Proof.
  refine (weights_multiple_of_16_are_lost CorpusExamples.heavy_row 0 _ _ _).
  - vm_compute. lia.
  - reflexivity.
  - intros i Hi. change (i < 2) in Hi.
    destruct i as [|[|i]]; [reflexivity|reflexivity|lia].
Defined.

(** *** Reading the codebook back *)

(** X17. A codebook constructed for a map of fewer than 65536 cells whose
    array fits 32-bit subscripts, once initialised, reads back the value
    drawn for every index below height * width * input_dim; [get_value]
    raises for every other index. *)
Theorem get_value_after_init height width input_dim g l cb uniform index :
  Codebook.construct height width input_dim g l = Some cb ->
  (Z.of_nat (height * width) < 65536)%Z ->
  (Z.of_nat (height * width * input_dim) < 4294967296)%Z ->
  Codebook.get_value (Codebook.init uniform cb) index
  = if index <? height * width * input_dim then Some (uniform index)
    else None.
Proof.
  intros Hcb Hcells Hsize. unfold Codebook.construct in Hcb.
  destruct (Topo.distance_function g l) as [d|]; [|discriminate].
  injection Hcb as <-.
  unfold Codebook.get_value, Codebook.init.
  cbn [Codebook.size Codebook.array Codebook.set_array].
  assert (E16 : u16n (height * width) = height * width).
  { unfold u16n. rewrite Z.mod_small by lia. lia. }
  rewrite E16, u32n_small by exact Hsize.
  destruct (Nat.ltb_spec index (height * width * input_dim)) as [Hlt|Hge];
    [|reflexivity].
  rewrite SearchExtra.map_seq_lookup_total by exact Hlt. reflexivity.
Qed.

Lemma get_value_after_init_witness :
  match Codebook.construct 2 3 4 Topo.TORUS Topo.HEXA with
  | Some cb =>
      Codebook.get_value (Codebook.init (fun i => R_of_nat i) cb) 23
      = (if 23 <? 2 * 3 * 4 then Some (R_of_nat 23) else None)
  | None => False
  end.
Proof.
  lazy beta iota delta [Codebook.construct Topo.distance_function].
  apply (get_value_after_init 2 3 4 Topo.TORUS Topo.HEXA _
           (fun i => R_of_nat i) 23).
  - reflexivity.
  - vm_compute. reflexivity.
  - vm_compute. reflexivity.
Defined.

End CorpusExtra.

(** ** The training run *)

Module TrainExtra.
Import Neighbourhood NeighbourhoodSpec NeighbourhoodUpdateSpec.











End TrainExtra.

(** ** Gap error and diffusion error *)

Module MetricsExtra.
Import Codebook DeadCellSpec.

Lemma in_take_lookup (bmus : list nat) N c :
  N <= length bmus ->
  (existsb (Nat.eqb c) (take N bmus) = true
   <-> exists row, row < N /\ bmus !!! row = c).
Proof.
  intros HN. rewrite existsb_exists. split.
  - intros (x & Hin & E). apply Nat.eqb_eq in E. subst x.
    apply list_elem_of_In in Hin.
    apply list_elem_of_lookup_1 in Hin. destruct Hin as (i & Hi).
    pose proof (lookup_lt_Some _ _ _ Hi) as Hlt.
    rewrite length_take in Hlt.
    exists i. split; [lia|].
    rewrite lookup_take_lt in Hi by lia.
    apply list_lookup_total_correct. exact Hi.
  - intros (row & Hrow & E). exists c. split; [|apply Nat.eqb_refl].
    apply list_elem_of_In. apply list_elem_of_lookup_2 with (i := row).
    rewrite lookup_take_lt by lia.
    rewrite <- E. apply list_lookup_lookup_total_lt. lia.
Qed.

(** X21. For best-matching units that are cells of the map, [gap_error]
    is the share of the cells that are the best-matching unit of no row:
    it lies in [0, 1] and is 0 exactly when every cell is used. *)
Theorem gap_error_counts_unused cb (bmus : list nat) N :
  0 < num_cells cb -> N <= length bmus ->
  (forall row, row < N -> bmus !!! row < num_cells cb) ->
  gap_error cb bmus N
  = (R_of_nat (length (unused_cells (num_cells cb) bmus N))
     / R_of_nat (num_cells cb))%R
  /\ (0 <= gap_error cb bmus N <= 1)%R
  /\ (gap_error cb bmus N = 0%R
      <-> forall c, c < num_cells cb -> exists row, row < N /\ bmus !!! row = c).
Proof.
  intros Hcells HN Hrange.
  pose proof (DeadCellFacts.mark_cells_in_use_marked (num_cells cb) bmus N
                Hrange) as Hm.
  destruct (DeadCellFacts.unused_by_marks (num_cells cb) bmus N _ HN Hm)
    as [_ Hlen].
  assert (E : gap_error cb bmus N
              = (R_of_nat (length (unused_cells (num_cells cb) bmus N))
                 / R_of_nat (num_cells cb))%R).
  { unfold gap_error. rewrite Hlen. reflexivity. }
  set (k := length (unused_cells (num_cells cb) bmus N)) in *.
  assert (Hk : k <= num_cells cb) by lia.
  assert (Hn : (0 < R_of_nat (num_cells cb))%R)
    by (unfold R_of_nat; apply IZR_lt; lia).
  assert (Hk0 : (0 <= R_of_nat k)%R) by (unfold R_of_nat; apply IZR_le; lia).
  assert (Hkn : (R_of_nat k <= R_of_nat (num_cells cb))%R)
    by (unfold R_of_nat; apply IZR_le; lia).
  split; [exact E|]. rewrite E. split.
  - split.
    + apply Rmult_le_pos; [exact Hk0|]. left. apply Rinv_0_lt_compat. exact Hn.
    + apply (Rmult_le_reg_r (R_of_nat (num_cells cb))); [exact Hn|].
      unfold Rdiv. rewrite Rmult_assoc, Rinv_l by lra. lra.
  - assert (Hzero : (R_of_nat k / R_of_nat (num_cells cb) = 0)%R <-> k = 0).
    { split.
      - intros Hq.
        assert (Hr : R_of_nat k = 0%R).
        { apply (Rmult_eq_reg_r (/ R_of_nat (num_cells cb))).
          - unfold Rdiv in Hq. rewrite Hq. ring.
          - apply Rinv_neq_0_compat. lra. }
        unfold R_of_nat in Hr. apply eq_IZR in Hr. lia.
      - intros ->. unfold R_of_nat, Rdiv. simpl. ring. }
    rewrite Hzero. unfold k, unused_cells. split.
    + intros Hnil c Hc. apply in_take_lookup; [exact HN|].
      apply length_zero_iff_nil in Hnil.
      destruct (existsb (Nat.eqb c) (take N bmus)) eqn:Hex; [reflexivity|].
      assert (Hin : In c (List.filter
                (fun c => negb (existsb (Nat.eqb c) (take N bmus)))
                (seq 0 (num_cells cb)))).
      { apply filter_In. split; [apply in_seq; lia|]. rewrite Hex.
        reflexivity. }
      rewrite Hnil in Hin. destruct Hin.
    + intros Hall. apply length_zero_iff_nil.
      apply DeadCellFacts.filter_none. intros c Hin. apply in_seq in Hin.
      apply negb_false_iff. apply in_take_lookup; [exact HN|].
      apply Hall. lia.
Qed.

Lemma gap_error_counts_unused_witness :
  (0 <= gap_error CodebookExamples.three_cells [0%nat; 0%nat; 1%nat] 3 <= 1)%R.
Proof.
  refine (proj1 (proj2 (gap_error_counts_unused CodebookExamples.three_cells
                          [0; 0; 1] 3 _ _ _))).
  - simpl. lia.
  - simpl. lia.
  - intros row Hrow. simpl.
    destruct row as [|[|[|row]]]; [simpl; lia..|lia].
Defined.

(** X22. When no row changed its best-matching unit, the diffusion error
    is 0. *)
Theorem diffusion_error_of_unchanged_units cb
    (bmus previous : list nat) N :
  0 < N -> (forall row, row < N -> bmus !!! row = previous !!! row) ->
  diffusion_error cb bmus previous N = 0%R.
Proof.
  intros HN Hsame. unfold diffusion_error.
  match goal with
  | |- (R_of_nat (fold_left ?f _ _) / _)%R = _ =>
      assert (G : forall n s, s + n <= N -> fold_left f (seq s n) 0 = 0)
  end.
  { induction n as [|n IH]; intros s Hs; [reflexivity|].
    cbn [seq fold_left]. rewrite (Hsame s) by lia.
    rewrite Nat.eqb_refl. apply IH. lia. }
  rewrite (G N 0) by lia. unfold R_of_nat, Rdiv. simpl. ring.
Qed.

Lemma diffusion_error_of_unchanged_units_witness :
  diffusion_error CodebookExamples.three_cells [2; 1] [2; 1; 0] 2 = 0%R.
Proof.
  apply (diffusion_error_of_unchanged_units CodebookExamples.three_cells
           [2; 1] [2; 1; 0] 2).
  - lia.
  - intros row Hrow. destruct row as [|[|row]]; [reflexivity..|lia].
Defined.

End MetricsExtra.

(** ** The batch update on used cells *)

Module BatchExtra.
Import Data Codebook CodebookSpec.

Lemma sum_R_member (f : nat -> R) l x :
  (forall y, In y l -> (0 < f y)%R) -> In x l ->
  (f x <= sum_R (map f l))%R.
Proof.
  induction l as [|a l IH]; intros Hpos Hin; [destruct Hin|].
  cbn [map sum_R fold_right]. fold (sum_R (map f l)).
  assert (Hrest : (0 <= sum_R (map f l))%R).
  { clear IH Hin. induction l as [|b l IHl]; simpl; [lra|].
    fold (sum_R (map f l)).
    pose proof (Hpos b ltac:(right; left; reflexivity)).
    assert (0 <= sum_R (map f l))%R.
    { apply IHl. intros y [<-|Hy]; apply Hpos; [left|right; right];
        auto. }
    lra. }
  destruct Hin as [<-|Hin].
  - lra.
  - pose proof (Hpos a ltac:(left; reflexivity)).
    assert (f x <= sum_R (map f l))%R
      by (apply IH; [intros y Hy; apply Hpos; right; exact Hy|exact Hin]).
    lra.
Qed.

(** X23. Where the asserts of the distance function hold at the calls of
    [influence], a cell that is the best-matching unit of some row, with a
    positive radius, has a positive denominator in the batch update: the
    update rewrites each of its entries to numerator / denominator, and
    with a positive vocabulary cutoff the entries at and beyond the cutoff
    become 0. *)
Theorem batch_update_on_used_cell cb data nb (bmus : list nat) cutoff
    g l row d :
  Data.well_formed data -> well_shaped cb ->
  Topo.distance_function g l = Some (Neighbourhood.distance nb) ->
  (forall row', row' < num_rows data ->
     NeighbourhoodUpdateSpec.influence_asserts g l nb (bmus !!! row')) ->
  row < num_rows data -> bmus !!! row < num_cells cb ->
  (0 < Neighbourhood.values nb !!! (bmus !!! row))%R ->
  d < input_dim cb ->
  let c := bmus !!! row in
  let eff := if 0 <? cutoff then cutoff else input_dim cb in
  let cb' := apply_batch_som_update cb data nb bmus cutoff in
  (0 < denominator data nb bmus c)%R
  /\ prototype cb' c d
     = (numerator data nb bmus eff c d / denominator data nb bmus c)%R
  /\ (0 < cutoff -> cutoff <= d -> prototype cb' c d = 0%R).
Proof.
  intros (_ & _ & _ & Hasc & _) (Hlen & Hfit) HT _ Hrow Hc Hr Hd c eff cb'.
  assert (Hlr : learning_rate nb bmus c row
                = (1 / Neighbourhood.values nb !!! c)%R).
  { unfold learning_rate. fold c.
    apply NeighbourhoodExtra.influence_at_distance_zero; [|exact Hr].
    unfold Neighbourhood.influence_distance.
    apply (NeighbourhoodExtra.distance_to_self g l _ _ _ _ _ HT); lia. }
  assert (Hlrpos : (0 < learning_rate nb bmus c row)%R).
  { rewrite Hlr. apply Rdiv_lt_0_compat; [lra|exact Hr]. }
  assert (Hden : (0 < denominator data nb bmus c)%R).
  { unfold denominator.
    apply Rlt_le_trans with (learning_rate nb bmus c row); [exact Hlrpos|].
    apply sum_R_member.
    - intros y Hy. unfold contributing_rows in Hy. apply filter_In in Hy.
      destruct Hy as [_ Hy]. unfold positive_rate in Hy.
      destruct (Rlt_dec 0 (learning_rate nb bmus c y)); [assumption|].
      discriminate.
    - unfold contributing_rows. apply filter_In. split; [apply in_seq; lia|].
      unfold positive_rate.
      destruct (Rlt_dec 0 (learning_rate nb bmus c row)); [reflexivity|].
      contradiction. }
  assert (Hp : c * input_dim cb + d < length (array cb))
    by (rewrite Hlen; nia).
  destruct (BatchFacts.batch_cells_fold data nb bmus eff
              (seq 0 (num_cells cb)) cb c d Hasc) as (_ & _ & _ & He);
    try assumption.
  { intros c0 Hin. apply in_seq in Hin. nia. }
  rewrite BatchFacts.existsb_seq in He by exact Hc.
  assert (He' : prototype cb' c d
                = (numerator data nb bmus eff c d
                   / denominator data nb bmus c)%R).
  { change (prototype cb' c d
            = updated_entry data nb bmus eff c d (prototype cb c d)) in He.
    rewrite He. unfold updated_entry.
    destruct (Req_dec_T (denominator data nb bmus c) 0); [lra|reflexivity]. }
  split; [exact Hden|]. split; [exact He'|].
  intros Hcut Hbeyond. rewrite He'.
  assert (Heff : eff = cutoff).
  { unfold eff. replace (0 <? cutoff) with true; [reflexivity|].
    symmetry. apply Nat.ltb_lt. exact Hcut. }
  unfold numerator. rewrite DeadCellFacts.filter_none.
  - unfold sum_R, Rdiv. simpl. ring.
  - intros x _. unfold row_has. rewrite Heff.
    replace (d <? cutoff) with false; [reflexivity|].
    symmetry. apply Nat.ltb_ge. exact Hbeyond.
Qed.

Lemma batch_update_on_used_cell_witness :
  (0 < denominator CodebookExamples.one_row_two_terms
         NeighbourhoodExamples.torus_pair [0%nat] 0)%R
  /\ prototype
       (apply_batch_som_update CodebookExamples.two_cells
          CodebookExamples.one_row_two_terms
          NeighbourhoodExamples.torus_pair [0%nat] 1) 0 1
     = (numerator CodebookExamples.one_row_two_terms
          NeighbourhoodExamples.torus_pair [0%nat] 1 0 1
        / denominator CodebookExamples.one_row_two_terms
            NeighbourhoodExamples.torus_pair [0%nat] 0)%R
  /\ (0 < 1 -> 1 <= 1 ->
      prototype
        (apply_batch_som_update CodebookExamples.two_cells
           CodebookExamples.one_row_two_terms
           NeighbourhoodExamples.torus_pair [0%nat] 1) 0 1 = 0%R).
Proof.
  refine (batch_update_on_used_cell CodebookExamples.two_cells
            CodebookExamples.one_row_two_terms
            NeighbourhoodExamples.torus_pair [0%nat] 1
            Topo.TORUS Topo.CIRC 0 1 _ _ eq_refl _ _ _ _ _).
  - exact BatchFacts.one_row_two_terms_well_formed.
  - exact BatchFacts.two_cells_well_shaped.
  - intros row' Hrow' _ _. change (row' < 1) in Hrow'.
    assert (row' = 0) as -> by lia.
    vm_compute. repeat split; discriminate.
  - vm_compute. lia.
  - cbn. lia.
  - cbn. lra.
  - cbn. lia.
Defined.

End BatchExtra.

(** ** Queries on the semantic map *)

Module SemanticMapExtra.
Import Data SemanticMap SemanticMapSpec SemanticMapQueries.

Lemma fold_left_collect (p : nat -> bool) l acc :
  fold_left (fun acc x => if p x then acc ++ [x] else acc) l acc
  = acc ++ List.filter p l.
Proof.
  revert acc. induction l as [|x l IH]; intros acc.
  - simpl. rewrite app_nil_r. reflexivity.
  - cbn [fold_left List.filter]. rewrite IH.
    destruct (p x); [rewrite <- app_assoc|]; reflexivity.
Qed.

Lemma cell_coordinates b w r c :
  0 < w ->
  (b / w =? r) && (b mod w =? c) = (c <? w) && (b =? r * w + c).
Proof.
  intros Hw. pose proof (Nat.div_mod_eq b w) as E.
  pose proof (Nat.mod_upper_bound b w ltac:(lia)) as Hm.
  destruct (Nat.eqb_spec (b / w) r) as [Hr|Hr];
  destruct (Nat.eqb_spec (b mod w) c) as [Hc|Hc];
  destruct (Nat.ltb_spec c w) as [Hlt|Hge];
  destruct (Nat.eqb_spec b (r * w + c)) as [Hb|Hb];
    cbn [andb]; try reflexivity; exfalso.
  all: try (rewrite Hr, Hc in E; nia).
  all: assert (Hq : b / w = r)
         by (symmetry; apply (Nat.div_unique b w r c); lia).
  all: assert (Hs : b mod w = c)
         by (symmetry; apply (Nat.mod_unique b w r c); lia).
  all: congruence.
Qed.

(** X24. On a map of positive width, [find_snippets] returns, in
    ascending order, exactly the rows whose best-matching unit is the
    cell at (map_row, map_col); for a column outside the map it returns
    none. *)
Theorem find_snippets_lists_cell_rows data m map_row map_col :
  0 < width m ->
  find_snippets data m map_row map_col
  = if map_col <? width m
    then List.filter
           (fun s => best_matching_units m !!! s =? map_row * width m + map_col)
           (seq 0 (num_rows data))
    else [].
Proof.
  intros Hw. unfold find_snippets.
  rewrite (fold_left_collect
             (fun s => (best_matching_units m !!! s / width m =? map_row)
                       && (best_matching_units m !!! s mod width m =? map_col))).
  cbn [app].
  destruct (map_col <? width m) eqn:Hcol.
  - apply List.filter_ext. intros s.
    rewrite cell_coordinates by exact Hw. rewrite Hcol. reflexivity.
  - apply DeadCellFacts.filter_none. intros s _.
    rewrite cell_coordinates by exact Hw. rewrite Hcol. reflexivity.
Qed.

Lemma find_snippets_lists_cell_rows_witness :
  find_snippets Examples.corpus Examples.smap 0 1
  = if 1 <? width Examples.smap
    then List.filter
           (fun s => best_matching_units Examples.smap !!! s
                     =? 0 * width Examples.smap + 1)
           (seq 0 (num_rows Examples.corpus))
    else [].
Proof.
  apply (find_snippets_lists_cell_rows Examples.corpus Examples.smap 0 1).
  vm_compute. lia.
Defined.

(** *** The counts of one cell *)

Lemma fold_u32N (f : nat -> N) l a :
  fold_left (fun count v => u32N (count + f v)) l (u32N a)
  = u32N (a + fold_right N.add 0%N (map f l)).
Proof.
  revert a. induction l as [|x l IH]; intros a.
  - simpl. rewrite N.add_0_r. reflexivity.
  - cbn [fold_left map fold_right].
    assert (E : u32N (u32N a + f x) = u32N (a + f x)).
    { unfold u32N. rewrite N.Div0.add_mod_idemp_l. reflexivity. }
    rewrite E, IH. f_equal. lia.
Qed.

Lemma sum_N_of_nat (f : nat -> nat) l :
  fold_right N.add 0%N (map (fun v => N.of_nat (f v)) l)
  = N.of_nat (list_sum (map f l)).
Proof.
  induction l as [|x l IH]; [reflexivity|].
  cbn [map fold_right]. rewrite IH.
  unfold list_sum. cbn [fold_right]. lia.
Qed.

Lemma list_sum_ext (f g : nat -> nat) l :
  (forall x, In x l -> f x = g x) ->
  list_sum (map f l) = list_sum (map g l).
Proof.
  induction l as [|x l IH]; intros H; [reflexivity|].
  unfold list_sum in *. cbn [map fold_right].
  rewrite (H x) by (left; reflexivity). f_equal. apply IH.
  intros y Hy. apply H. right. exact Hy.
Qed.

Lemma list_sum_plus (f g : nat -> nat) l :
  list_sum (map (fun v => f v + g v) l)
  = list_sum (map f l) + list_sum (map g l).
Proof.
  induction l as [|x l IH]; [reflexivity|].
  unfold list_sum in *. cbn [map fold_right]. rewrite IH. lia.
Qed.

Lemma list_sum_single a s n :
  list_sum (map (fun v => if v =? a then 1 else 0) (seq s n))
  = if (s <=? a) && (a <? s + n) then 1 else 0.
Proof.
  revert s. induction n as [|n IH]; intros s.
  - simpl. destruct (Nat.leb_spec s a); destruct (Nat.ltb_spec a (s + 0));
      simpl; lia.
  - cbn [seq map]. unfold list_sum in *. cbn [fold_right]. rewrite IH.
    destruct (Nat.eqb_spec s a); destruct (Nat.leb_spec (S s) a);
      destruct (Nat.ltb_spec a (S s + n)); destruct (Nat.leb_spec s a);
      destruct (Nat.ltb_spec a (s + S n)); cbn [andb]; lia.
Qed.

(** Summing the occurrences of the count cells of one map cell over the
    vocabulary counts the targets that belong to the map cell. *)
Lemma occurrences_of_cell nc V cell l :
  cell < nc -> Forall (fun p => p < nc * V) l ->
  list_sum (map (fun v => count_occ Nat.eq_dec l (nc * v + cell)) (seq 0 V))
  = length (List.filter (fun p => p mod nc =? cell) l).
Proof.
  intros Hcell Hl. induction l as [|p l IH].
  - simpl. induction (seq 0 V) as [|x xs IHx]; [reflexivity|].
    unfold list_sum in *. cbn [map fold_right]. rewrite IHx. reflexivity.
  - apply List.Forall_cons_iff in Hl. destruct Hl as [Hp Hl].
    rewrite (list_sum_ext _
               (fun v => (if v =? p / nc then (if p mod nc =? cell then 1 else 0) else 0)
                         + count_occ Nat.eq_dec l (nc * v + cell))).
    + rewrite list_sum_plus, (IH Hl). cbn [List.filter].
      assert (Hdiv : p / nc < V).
      { apply Nat.Div0.div_lt_upper_bound. exact Hp. }
      destruct (p mod nc =? cell) eqn:Hmod.
      * rewrite list_sum_single.
        replace (0 <=? p / nc) with true by (symmetry; apply Nat.leb_le; lia).
        replace (p / nc <? 0 + V) with true
          by (symmetry; apply Nat.ltb_lt; lia).
        cbn [andb length]. lia.
      * rewrite (list_sum_ext _ (fun _ => 0)).
        -- assert (Z0 : forall xs : list nat,
                     list_sum (map (fun _ => 0) xs) = 0).
           { induction xs as [|x xs IHx]; [reflexivity|].
             unfold list_sum in *. cbn [map fold_right]. rewrite IHx.
             reflexivity. }
           rewrite Z0. reflexivity.
        -- intros x _. destruct (x =? p / nc); reflexivity.
    + intros v _. cbn [count_occ].
      pose proof (Nat.div_mod_eq p nc) as E.
      pose proof (Nat.mod_upper_bound p nc ltac:(lia)) as Hm.
      destruct (Nat.eq_dec p (nc * v + cell)) as [Heq|Hne].
      * assert (Hv : p / nc = v).
        { subst p. rewrite Nat.mul_comm, Nat.div_add_l by lia.
          rewrite Nat.div_small by exact Hcell. lia. }
        assert (Hc : p mod nc = cell).
        { subst p. rewrite Nat.add_comm, Nat.mul_comm, Nat.Div0.mod_add.
          apply Nat.mod_small. exact Hcell. }
        rewrite Hv, Nat.eqb_refl, Hc, Nat.eqb_refl. lia.
      * destruct (Nat.eqb_spec v (p / nc)) as [Hv|Hv]; [|lia].
        destruct (Nat.eqb_spec (p mod nc) cell) as [Hc|Hc]; [|lia].
        exfalso. apply Hne. subst v. rewrite <- Hc. exact E.
Qed.

(** The targets of the corpus that belong to one map cell are the sparse
    indices of the rows mapped to it. *)
Lemma targets_of_cell data m cell rows :
  in_range data m -> (forall r, In r rows -> r < num_rows data) ->
  length (List.filter (fun p => p mod num_cells m =? cell)
                      (flat_map (row_targets data m) rows))
  = list_sum (map (num_indices_in_row data)
                  (List.filter (fun s => best_matching_units m !!! s =? cell)
                               rows)).
Proof.
  intros (Hsz & Hb & Hi) Hrows. induction rows as [|r rows IH];
    [reflexivity|].
  cbn [flat_map]. rewrite List.filter_app, length_app.
  rewrite IH by (intros x Hx; apply Hrows; right; exact Hx).
  assert (Hr : r < num_rows data) by (apply Hrows; left; reflexivity).
  specialize (Hb r Hr).
  assert (Hrow : length (List.filter (fun p => p mod num_cells m =? cell)
                                     (row_targets data m r))
                 = if best_matching_units m !!! r =? cell
                   then num_indices_in_row data r else 0).
  { unfold row_targets.
    assert (Hmod : forall i, In i (seq 0 (num_indices_in_row data r)) ->
              count_index (num_cells m) (indices_in_row data r i)
                          (best_matching_units m !!! r) mod num_cells m
              = best_matching_units m !!! r).
    { intros i Hin. apply in_seq in Hin.
      specialize (Hi r i Hr ltac:(lia)).
      unfold count_index. rewrite u32n_small by nia.
      rewrite Nat.add_comm, Nat.mul_comm, Nat.Div0.mod_add.
      apply Nat.mod_small. exact Hb. }
    destruct (Nat.eqb_spec (best_matching_units m !!! r) cell) as [Hc|Hc].
    - rewrite DeadCellFacts.filter_all.
      + rewrite length_map, length_seq. reflexivity.
      + intros p Hp. apply in_map_iff in Hp. destruct Hp as (i & <- & Hin).
        rewrite (Hmod i Hin). apply Nat.eqb_eq. exact Hc.
    - rewrite DeadCellFacts.filter_none; [reflexivity|].
      intros p Hp. apply in_map_iff in Hp. destruct Hp as (i & <- & Hin).
      rewrite (Hmod i Hin). apply Nat.eqb_neq. exact Hc. }
  rewrite Hrow. cbn [List.filter].
  destruct (best_matching_units m !!! r =? cell);
    unfold list_sum; cbn [map fold_right]; lia.
Qed.

Lemma build_counts_values data m :
  in_range data m ->
  (forall p, (hits data m p <= MAX_COUNT - 1)%N) ->
  exists c, counts (build_counts data m) = Some c
    /\ forall p, p < num_cells m * vocabulary_size m ->
         c !!! p = hits data m p.
Proof.
  intros Hin Hcap.
  pose proof (SemanticMapFacts.targets_in_range data m Hin) as Ht.
  destruct Hin as (Hsz & _ & _).
  unfold build_counts; simpl.
  set (n := u32n (num_cells m * vocabulary_size m)) in *.
  destruct (SemanticMapFacts.initial_counts (counts m) n) as [Hlen Hzero].
  set (counts0 := match counts m with
                  | None => replicate n 0%N
                  | Some c => replicate n 0%N ++ drop n c
                  end) in *.
  rewrite SemanticMapFacts.count_rows_as_list. fold (targets data m).
  assert (Hr : Forall (fun p => p < length counts0) (targets data m)).
  { eapply Forall_impl; [exact Ht|]. simpl. intros p Hp. lia. }
  destruct (SemanticMapFacts.count_list_completes (targets data m) counts0 Hr)
    as (c & Hc & _ & Hv).
  - intros p Hp Hpos.
    assert (Hpn : p < n).
    { apply count_occ_In in Hpos. rewrite Forall_forall in Ht.
      apply Ht. apply list_elem_of_In. exact Hpos. }
    rewrite (Hzero p Hpn). apply (Hcap p).
  - exists c. split; [exact Hc|].
    intros p Hp. unfold n in *. rewrite u32n_small in * by lia.
    rewrite (Hv p ltac:(lia)), (Hzero p Hp). reflexivity.
Qed.

(** X25. After a count build that stayed within capacity,
    [get_counts(row, col)] is the total number of sparse entries of the
    rows that [find_snippets] lists for the same cell, reduced to 32
    bits. *)
Theorem get_counts_totals_cell_entries data m row col :
  in_range data m ->
  (forall p, (hits data m p <= MAX_COUNT - 1)%N) ->
  col < width m -> row * width m + col < num_cells m ->
  (Z.of_nat (num_cells m) <= 65536)%Z ->
  get_counts (build_counts data m) row col
  = Some (u32N (N.of_nat
                  (list_sum (map (num_indices_in_row data)
                                 (find_snippets data m row col))))).
Proof.
  intros Hin Hcap Hcol Hcell H16.
  destruct (build_counts_values data m Hin Hcap) as (c & Hc & Hv).
  unfold get_counts. rewrite Hc.
  change (width (build_counts data m)) with (width m).
  change (num_cells (build_counts data m)) with (num_cells m).
  change (vocabulary_size (build_counts data m)) with (vocabulary_size m).
  f_equal.
  assert (E16 : u16n (row * width m + col) = row * width m + col).
  { unfold u16n. rewrite Z.mod_small by lia. lia. }
  rewrite E16. set (cell := row * width m + col) in *.
  pose proof Hin as (Hsz & Hb & Hi).
  assert (Hstep : forall l a,
            (forall v, In v l -> v < vocabulary_size m) ->
            fold_left (fun count v =>
                         u32N (count + c !!! u32n (num_cells m * v + cell)))
                      l a
            = fold_left (fun count v =>
                           u32N (count
                                 + N.of_nat (count_occ Nat.eq_dec (targets data m)
                                               (num_cells m * v + cell))))
                        l a).
  { induction l as [|v l IH]; intros a Hl; [reflexivity|].
    cbn [fold_left].
    assert (Hvl : v < vocabulary_size m) by (apply Hl; left; reflexivity).
    rewrite u32n_small by nia. rewrite Hv by nia. unfold hits.
    apply IH. intros x Hx. apply Hl. right. exact Hx. }
  rewrite Hstep by (intros v Hv0; apply in_seq in Hv0; lia).
  change 0%N with (u32N 0) at 1.
  rewrite (fold_u32N (fun v => N.of_nat (count_occ Nat.eq_dec (targets data m)
                                           (num_cells m * v + cell)))).
  rewrite (sum_N_of_nat (fun v => count_occ Nat.eq_dec (targets data m)
                                    (num_cells m * v + cell))).
  rewrite N.add_0_l. f_equal. f_equal.
  rewrite occurrences_of_cell.
  - unfold targets. rewrite (targets_of_cell data m cell) by
      (try exact Hin; intros r Hr; apply in_seq in Hr; lia).
    unfold find_snippets.
    rewrite (fold_left_collect
               (fun s => (best_matching_units m !!! s / width m =? row)
                         && (best_matching_units m !!! s mod width m =? col))).
    cbn [app]. f_equal. f_equal. apply List.filter_ext. intros s.
    rewrite cell_coordinates by lia.
    replace (col <? width m) with true by (symmetry; apply Nat.ltb_lt; lia).
    reflexivity.
  - exact Hcell.
  - pose proof (SemanticMapFacts.targets_in_range data m Hin) as Ht.
    rewrite u32n_small in Ht by lia.
    apply List.Forall_forall. rewrite Forall_forall in Ht.
    intros p Hp. apply Ht. apply list_elem_of_In. exact Hp.
Qed.

Lemma get_counts_totals_cell_entries_witness :
  get_counts (build_counts Examples.corpus Examples.smap) 0 1
  = Some (u32N (N.of_nat
                  (list_sum (map (num_indices_in_row Examples.corpus)
                                 (find_snippets Examples.corpus Examples.smap
                                                0 1))))).
Proof.
  refine (get_counts_totals_cell_entries Examples.corpus Examples.smap 0 1
            SemanticMapFacts.example_in_range _ _ _ _).
  - intros p. unfold hits.
    change (targets Examples.corpus Examples.smap) with [1; 5; 2; 1; 3].
    pose proof (count_occ_bound Nat.eq_dec p [1; 5; 2; 1; 3]) as Hb.
    simpl length in Hb. unfold MAX_COUNT. lia.
  - vm_compute. lia.
  - vm_compute. lia.
  - vm_compute. discriminate.
Defined.

End SemanticMapExtra.

(** ** Stop watch and command-line options *)

Module StopWatchExtra.
Import StopWatch.

#[local] Open Scope Z_scope.

Lemma wrap_int64_small z :
  -9223372036854775808 <= z < 9223372036854775808 -> wrap_int64 z = z.
Proof. intros H. unfold wrap_int64. rewrite Z.mod_small; lia. Qed.

(** X26. For a watch stopped after it was started, less than 2^31
    seconds later, the four numbers [duration_string] prints are the days, hours,
    minutes and seconds of the elapsed time: hours below 24, minutes and
    seconds below 60, and together they add up to the elapsed seconds. *)
Theorem duration_decomposes w :
  0 <= end_time w - start_time w < 2147483648 ->
  let d := duration w in
  0 <= days d
  /\ 0 <= hours d < 24 /\ 0 <= minutes d < 60 /\ 0 <= seconds d < 60
  /\ 86400 * days d + 3600 * hours d + 60 * minutes d + seconds d
     = end_time w - start_time w.
Proof.
  intros HT. unfold duration.
  set (T := end_time w - start_time w) in *.
  rewrite (wrap_int64_small T) by lia.
  change (60 * 60 * 24) with 86400. change (24 * 60 * 60) with 86400.
  change (24 * 60) with 1440. change (60 * 60) with 3600.
  rewrite !Z.quot_div_nonneg by lia.
  pose proof (Z.div_mod T 86400 ltac:(lia)) as E1.
  pose proof (Z.mod_pos_bound T 86400 ltac:(lia)) as B1.
  pose proof (Z.div_mod T 3600 ltac:(lia)) as E2.
  pose proof (Z.mod_pos_bound T 3600 ltac:(lia)) as B2.
  pose proof (Z.div_mod T 60 ltac:(lia)) as E3.
  pose proof (Z.mod_pos_bound T 60 ltac:(lia)) as B3.
  set (q1 := T / 86400) in *. set (q2 := T / 3600) in *.
  set (q3 := T / 60) in *.
  set (m1 := T mod 86400) in *. set (m2 := T mod 3600) in *.
  set (m3 := T mod 60) in *.
  clearbody q1 q2 q3 m1 m2 m3.
  rewrite (wrap_int_small q1) by lia.
  rewrite (wrap_int_small (24 * q1)) by lia.
  rewrite (wrap_int64_small (q2 - 24 * q1)) by lia.
  assert (Hh : 0 <= q2 - 24 * q1 < 24) by lia.
  rewrite (wrap_int_small (q2 - 24 * q1)) by lia.
  set (h := q2 - 24 * q1) in *.
  rewrite (wrap_int_small (1440 * q1)) by lia.
  rewrite (wrap_int_small (60 * h)) by lia.
  rewrite (wrap_int64_small (q3 - 1440 * q1)) by lia.
  rewrite (wrap_int64_small (q3 - 1440 * q1 - 60 * h)) by lia.
  assert (Hm : 0 <= q3 - 1440 * q1 - 60 * h < 60) by lia.
  rewrite (wrap_int_small (q3 - 1440 * q1 - 60 * h)) by lia.
  set (mi := q3 - 1440 * q1 - 60 * h) in *.
  rewrite (wrap_int_small (86400 * q1)) by lia.
  rewrite (wrap_int_small (3600 * h)) by lia.
  rewrite (wrap_int_small (60 * mi)) by lia.
  rewrite (wrap_int64_small (T - 86400 * q1)) by lia.
  rewrite (wrap_int64_small (T - 86400 * q1 - 3600 * h)) by lia.
  rewrite (wrap_int64_small (T - 86400 * q1 - 3600 * h - 60 * mi)) by lia.
  assert (Hs : 0 <= T - 86400 * q1 - 3600 * h - 60 * mi < 60) by lia.
  rewrite (wrap_int_small (T - 86400 * q1 - 3600 * h - 60 * mi)) by lia.
  cbn [days hours minutes seconds]. lia.
Qed.

Lemma duration_decomposes_witness :
  86400 * days (duration (stop 100000 (start 10 construct)))
  + 3600 * hours (duration (stop 100000 (start 10 construct)))
  + 60 * minutes (duration (stop 100000 (start 10 construct)))
  + seconds (duration (stop 100000 (start 10 construct)))
  = end_time (stop 100000 (start 10 construct))
    - start_time (stop 100000 (start 10 construct)).
Proof.
  refine (proj2 (proj2 (proj2 (proj2
            (duration_decomposes (stop 100000 (start 10 construct)) _))))).
  vm_compute. split; [discriminate|reflexivity].
Defined.

End StopWatchExtra.

Module ArgParserExtra.
Import ArgParser String.StringSyntax.

Delimit Scope string_scope with string.

Lemma find_absent l name : ~ In name l -> find l name = [].
Proof.
  induction l as [|x l IH]; intros Hn; [reflexivity|].
  cbn [find]. destruct (String.eqb_spec x name) as [->|Hne].
  - exfalso. apply Hn. left. reflexivity.
  - apply IH. intros Hin. apply Hn. right. exact Hin.
Qed.

Lemma find_first pre name rest :
  ~ In name pre -> find (pre ++ name :: rest) name = name :: rest.
Proof.
  induction pre as [|x pre IH]; intros Hn.
  - cbn [app find]. rewrite String.eqb_refl. reflexivity.
  - cbn [app find]. destruct (String.eqb_spec x name) as [->|Hne].
    + exfalso. apply Hn. left. reflexivity.
    + apply IH. intros Hin. apply Hn. right. exact Hin.
Qed.

(** X27. [get_option(name, default)] returns the default when [name] is
    not among the tokens, and also when its first occurrence is the last
    token. *)
Theorem get_option_falls_back a name default_value :
  (~ In name (tokens a)
   \/ exists pre, tokens a = pre ++ [name] /\ ~ In name pre) ->
  get_option_or a name default_value = default_value.
Proof.
  intros H. unfold get_option_or, get_option.
  destruct H as [Habs|(pre & E & Hpre)].
  - rewrite find_absent by exact Habs. reflexivity.
  - rewrite E, find_first by exact Hpre. reflexivity.
Qed.

Lemma get_option_falls_back_witness :
  get_option_or (construct ArgParserExamples.argv)
                "--directory"%string "out"%string
  = "out"%string.
Proof.
  apply (get_option_falls_back (construct ArgParserExamples.argv)
           "--directory"%string "out"%string).
  right.
  exists ["create"%string; "data.bin"%string; "64"%string; "48"%string;
          "--name"%string; "demo"%string; "--name"%string; "other"%string].
  split; [reflexivity|].
  intros H. simpl in H. repeat (destruct H as [H|H]; [discriminate|]).
  exact H.
Defined.

(** X28. When [name] occurs among the tokens, [get_option(name, default)]
    returns the token that follows its first occurrence, whatever comes
    later; an empty token there counts as missing and gives the
    default. *)
Theorem get_option_takes_first_occurrence a name default_value
    pre value rest :
  tokens a = pre ++ name :: value :: rest -> ~ In name pre ->
  get_option_or a name default_value
  = if String.eqb value String.EmptyString then default_value else value.
Proof.
  intros E Hpre. unfold get_option_or, get_option.
  rewrite E, find_first by exact Hpre. reflexivity.
Qed.

Lemma get_option_takes_first_occurrence_witness :
  get_option_or (construct ArgParserExamples.argv)
                "--name"%string "none"%string
  = (if String.eqb "demo" String.EmptyString then "none" else "demo")%string.
Proof.
  apply (get_option_takes_first_occurrence
           (construct ArgParserExamples.argv) "--name"%string "none"%string
           ["create"%string; "data.bin"%string; "64"%string; "48"%string]
           "demo"%string
           ["--name"%string; "other"%string; "--directory"%string]).
  - reflexivity.
  - intros H. simpl in H. repeat (destruct H as [H|H]; [discriminate|]).
    exact H.
Defined.

End ArgParserExtra.

(** ** The best-matching-unit file *)

Module BmuFileExtra.
Import SemanticMap BmuFile.

#[local] Open Scope Z_scope.

Lemma le_bytes_8 v :
  le_bytes 8 v
  = [v / 1 mod 256; v / 256 mod 256; v / 65536 mod 256;
     v / 16777216 mod 256; v / 4294967296 mod 256;
     v / 1099511627776 mod 256; v / 281474976710656 mod 256;
     v / 72057594037927936 mod 256].
Proof. reflexivity. Qed.

Lemma read_cons_1 b rest : read 1 (b :: rest) = Some ([b], rest).
Proof. reflexivity. Qed.

Lemma read_cons_8 b0 b1 b2 b3 b4 b5 b6 b7 rest :
  read 8 (b0 :: b1 :: b2 :: b3 :: b4 :: b5 :: b6 :: b7 :: rest)
  = Some ([b0; b1; b2; b3; b4; b5; b6; b7], rest).
Proof. reflexivity. Qed.

(** X29. A file written by [save_best_matching_units_to_file] is not read
    back by [load_best_matching_units_from_file]: the writer starts with
    the format byte, the reader expects a byte before it.  For a map
    height that is not a multiple of 256 the reader reports an unknown
    format; otherwise whatever it loads has the height divided by 256. *)
Theorem saved_units_do_not_load m m0 :
  (0 < height m)%nat -> (Z.of_nat (height m) < 65536) ->
  let file := save_best_matching_units_to_file m in
  (Z.of_nat (height m) mod 256 <> 0 ->
   load_best_matching_units_from_file m0 file = UnknownFormat)
  /\ (forall m', load_best_matching_units_from_file m0 file = Loaded m' ->
        height m' = (height m / 256)%nat /\ height m' <> height m).
Proof.
  intros Hpos H16 file. unfold file, save_best_matching_units_to_file.
  unfold write_uint8, write_uint64. rewrite !le_bytes_8.
  change (le_bytes 1 (0 mod 256)) with [0].
  set (H := Z.of_nat (height m)) in *.
  rewrite (Z.mod_small H 18446744073709551616) by lia.
  rewrite Z.div_1_r.
  set (W := Z.of_nat (width m) mod 18446744073709551616).
  set (V := Z.of_nat (vocabulary_size m) mod 18446744073709551616).
  set (D := Z.of_nat (dataset_size m) mod 18446744073709551616).
  set (payload := flat_map _ _).
  cbn [app]. unfold load_best_matching_units_from_file.
  rewrite read_cons_1. rewrite read_cons_1.
  assert (Hfmt : le_value [H mod 256] = H mod 256)
    by (cbn [le_value]; lia).
  rewrite Hfmt.
  split.
  - intros Hne. replace (H mod 256 =? 0) with false
      by (symmetry; apply Z.eqb_neq; exact Hne).
    reflexivity.
  - intros m'. destruct (Z.eqb_spec (H mod 256) 0) as [Hz|Hnz];
      [|discriminate].
    cbn [negb]. rewrite !read_cons_8.
    destruct (read 8 _) as [[p rest]|]; [|discriminate].
    destruct (read _ rest) as [[cells ?]|]; [|discriminate].
    intros Hm. injection Hm as <-. cbn [height].
    assert (Hh : u16 (le_value [H / 256 mod 256; H / 65536 mod 256;
                                H / 16777216 mod 256;
                                H / 4294967296 mod 256;
                                H / 1099511627776 mod 256;
                                H / 281474976710656 mod 256;
                                H / 72057594037927936 mod 256;
                                W / 1 mod 256])
                 = H / 256).
    { cbn [le_value].
      pose proof (Z.div_mod H 256 ltac:(lia)) as E.
      pose proof (Z.mod_pos_bound H 256 ltac:(lia)) as B.
      assert (Hq : 0 <= H / 256 < 256)
        by (split; [apply Z.div_pos; lia|apply Z.div_lt_upper_bound; lia]).
      rewrite (Z.mod_small (H / 256) 256) by lia.
      rewrite (Z.div_small H 65536) by lia.
      rewrite (Z.div_small H 16777216) by lia.
      rewrite (Z.div_small H 4294967296) by lia.
      rewrite (Z.div_small H 1099511627776) by lia.
      rewrite (Z.div_small H 281474976710656) by lia.
      rewrite (Z.div_small H 72057594037927936) by lia.
      change (0 mod 256) with 0.
      pose proof (Z.mod_pos_bound (W / 1) 256 ltac:(lia)) as BW.
      set (w0 := W / 1 mod 256) in *. clearbody w0.
      set (q := H / 256) in *. clearbody q.
      match goal with
      | |- u16 ?x = _ =>
          replace x with (q + 1099511627776 * w0 * 65536) by lia
      end.
      unfold u16.
      rewrite Z.mod_add by lia. apply Z.mod_small. lia. }
    cbn [le_value] in Hh. rewrite Hh.
    assert (Hnat : Z.to_nat (H / 256) = (height m / 256)%nat).
    { unfold H. rewrite <- (Nat2Z.id (height m / 256)).
      f_equal. rewrite Nat2Z.inj_div. reflexivity. }
    rewrite Hnat. split; [reflexivity|].
    pose proof (Nat.div_lt (height m) 256 Hpos ltac:(lia)). lia.
Qed.

Lemma saved_units_do_not_load_witness :
  load_best_matching_units_from_file Examples.smap
    (save_best_matching_units_to_file Examples.smap)
  = UnknownFormat.
Proof.
  refine (proj1 (saved_units_do_not_load Examples.smap Examples.smap _ _) _).
  - vm_compute. lia.
  - vm_compute. reflexivity.
  - vm_compute. discriminate.
Defined.

End BmuFileExtra.

(** ** The cell count in 16 bits *)

Module CodebookExtra.
Import Data Codebook DualSearchSpec.

(** X30. The number of cells is kept in 16 bits: a codebook constructed
    for a map whose height * width is a multiple of 65536 (256 x 256, for
    one) has no cell and an empty array.  After [init], [get_value]
    throws for every index, and the dual search visits no cell: every row
    keeps best-matching unit 0 at distance FLT_MAX. *)
Theorem cell_count_wraps_to_zero height width dim g l cb uniform :
  construct height width dim g l = Some cb ->
  (Z.of_nat (height * width) mod 65536 = 0)%Z ->
  num_cells cb = 0 /\ size cb = 0
  /\ (forall index, get_value (init uniform cb) index = None)
  /\ (forall data cutoff row, row < num_rows data ->
        row_state (find_best_and_next_best_matching_units
                     (init uniform cb) data cutoff) row
        = initial_row_state).
Proof.
  intros Hcb Hmod. unfold construct in Hcb.
  destruct (Topo.distance_function g l) as [d|]; [|discriminate].
  injection Hcb as <-. cbn [num_cells size].
  assert (E : u16n (height * width) = 0).
  { unfold u16n. rewrite Hmod. reflexivity. }
  rewrite E. change (u32n (0 * dim)) with 0.
  split; [reflexivity|]. split; [reflexivity|]. split.
  - intros index. unfold get_value, init. cbn [size set_array].
    reflexivity.
  - intros data cutoff row Hrow.
    unfold find_best_and_next_best_matching_units, init.
    cbn [num_cells set_array seq fold_left].
    unfold row_state, initial_row_state.
    cbn [best_matching_units distances next_best_matching_units
         next_distances].
    rewrite !lookup_total_replicate_2 by exact Hrow. reflexivity.
Qed.

Lemma cell_count_wraps_to_zero_witness :
  match construct 256 256 3 Topo.TORUS Topo.CIRC with
  | Some cb => num_cells cb = 0
  | None => False
  end.
Proof.
  lazy beta iota delta [construct Topo.distance_function].
  refine (proj1 (cell_count_wraps_to_zero 256 256 3 Topo.TORUS Topo.CIRC _
                   (fun i => R_of_nat i) eq_refl _)).
  vm_compute. reflexivity.
Defined.

End CodebookExtra.
